(** * Hybrid LSB + DCT image steganography: model and verification

    Shallow embedding of [lsb_dct.py] and [utils.py].

    Conventions of the embedding.
    - A Python [int] is a [Z]; a [bytes] object is a [list Z] of values in
      [0, 256); a [str] is the list of its code points.
    - A bit stream is a Python list whose elements are always the ints 0 or 1
      (every producer in the sources ends in [int(c)] of a binary digit or in
      [... & 1]); it is a [list bool], and [Z.b2z] gives the int back where
      the code computes with it.
    - A raised exception is the [Raise] case of [result].  An image argument
      is an array of three channels: the tests on [None] and on the number of
      channels are settled by the types.  A key is an [option]: [None], or a
      [str].
    - [numpy] arrays are a shape with a row-major buffer.  A [uint8] sample is
      a [Z] in [0, 256).  A [float32] sample is a rational: float32 rounding
      error is idealised away, every arithmetic step is exact.
    - [hashlib.sha256], the UTF-8 codec and [cv2.dct]/[cv2.idct] are library
      code; they are modelled from their published definitions.
    - The functions are given twice where mutation matters: on values, and,
      for the embedding path, on a store of array objects ([Mem]), with a
      proof that the second computes what the first does.
    - Memory is finite where the size of a list comes from the data and not
      from the arrays the caller holds: the zero padding of
      [extract_message], whose length is read from the header, raises
      [MemoryError] beyond what the interpreter can allocate.  That amount
      is a parameter, [mem], of the function. *)

From Stdlib Require Import ZArith QArith Qround Qminmax List String Ascii Lia DecimalString.
From stdpp Require Import base tactics list.
Import ListNotations.
Open Scope Z_scope.

(* ================================================================== *)
(** * Part I.  The program *)
(* ================================================================== *)

(** ** Exceptions *)

Inductive exn : Type :=
| ValueError (msg : string)
| IndexError
| TypeError
| UnicodeEncodeError
| MemoryError.

Inductive result (A : Type) : Type :=
| Ok (a : A)
| Raise (e : exn).
Arguments Ok {A} a.
Arguments Raise {A} e.

Definition bind {A B : Type} (r : result A) (k : A -> result B) : result B :=
  match r with
  | Ok a => k a
  | Raise e => Raise e
  end.

Notation "'try!' x := r 'in' k" := (bind r (fun x => k))
  (at level 10, x name, r at level 100, k at level 200).

(** ** Strings and bytes *)

Definition pystr := list Z.
Definition pybytes := list Z.

(** A Rocq string literal read as a Python [str] of the same characters. *)
Fixpoint str (s : string) : pystr :=
  match s with
  | EmptyString => []
  | String a r => Z.of_N (N_of_ascii a) :: str r
  end.

(** [f"{n}"] for an int. *)
Definition fmt_int (n : Z) : string := NilZero.string_of_int (Z.to_int n).

Fixpoint list_eqb (a b : list Z) : bool :=
  match a, b with
  | [], [] => true
  | x :: a', y :: b' => (x =? y) && list_eqb a' b'
  | _, _ => false
  end.

(** [s[start:stop]] with Python's treatment of negative and out-of-range
    bounds. *)
Definition norm_index (len i : Z) : Z :=
  if i <? 0 then Z.max 0 (i + len) else Z.min i len.

Definition py_slice {A : Type} (s : list A) (start stop : Z) : list A :=
  let len := Z.of_nat (length s) in
  let a := norm_index len start in
  let b := norm_index len stop in
  take (Z.to_nat (b - a)) (drop (Z.to_nat a) s).

(** [s[i:]]. *)
Definition py_slice_from {A : Type} (s : list A) (start : Z) : list A :=
  py_slice s start (Z.of_nat (length s)).

Definition startswith (s p : pystr) : bool :=
  list_eqb (take (length p) s) p.

Definition endswith (s p : pystr) : bool :=
  (length p <=? length s)%nat && list_eqb (drop (length s - length p) s) p.

(** ** The UTF-8 codec *)

(** [str.encode("utf-8")] of one code point; lone surrogates are refused. *)
Definition utf8_encode_char (c : Z) : result pybytes :=
  if c <? 0 then Raise UnicodeEncodeError
  else if c <? 128 then Ok [c]
  else if c <? 2048 then Ok [192 + c / 64; 128 + c mod 64]
  else if c <? 65536 then
    if (55296 <=? c) && (c <=? 57343) then Raise UnicodeEncodeError
    else Ok [224 + c / 4096; 128 + (c / 64) mod 64; 128 + c mod 64]
  else if c <? 1114112 then
    Ok [240 + c / 262144; 128 + (c / 4096) mod 64;
        128 + (c / 64) mod 64; 128 + c mod 64]
  else Raise UnicodeEncodeError.

Fixpoint utf8_encode (s : pystr) : result pybytes :=
  match s with
  | [] => Ok []
  | c :: r =>
      try! bs := utf8_encode_char c in
      try! rest := utf8_encode r in
      Ok (bs ++ rest)
  end.

Definition is_cont (b : Z) : bool := (128 <=? b) && (b <? 192).

(** One step of [bytes.decode('utf-8', errors='ignore')], following CPython's
    decoder: the code point decoded at the head of [bs], if any, and the
    number of bytes consumed.  An invalid start byte is skipped alone, an
    invalid continuation byte ends the sequence and the bytes read before it
    are dropped, a sequence cut by the end of the data is dropped with it. *)
Definition utf8_step (bs : pybytes) : option Z * nat :=
  match bs with
  | [] => (None, 0%nat)
  | b0 :: r0 =>
      if b0 <? 128 then (Some b0, 1%nat)
      else if b0 <? 194 then (None, 1%nat)
      else if b0 <? 224 then
        match r0 with
        | [] => (None, length bs)
        | b1 :: _ =>
            if is_cont b1
            then (Some ((b0 - 192) * 64 + (b1 - 128)), 2%nat)
            else (None, 1%nat)
        end
      else if b0 <? 240 then
        match r0 with
        | [] => (None, length bs)
        | b1 :: r1 =>
            if negb (is_cont b1)
               || ((b0 =? 224) && (b1 <? 160))
               || ((b0 =? 237) && (160 <=? b1))
            then (None, 1%nat)
            else
              match r1 with
              | [] => (None, length bs)
              | b2 :: _ =>
                  if is_cont b2
                  then (Some ((b0 - 224) * 4096 + (b1 - 128) * 64 + (b2 - 128)),
                        3%nat)
                  else (None, 2%nat)
              end
        end
      else if b0 <? 245 then
        match r0 with
        | [] => (None, length bs)
        | b1 :: r1 =>
            if negb (is_cont b1)
               || ((b0 =? 240) && (b1 <? 144))
               || ((b0 =? 244) && (144 <=? b1))
            then (None, 1%nat)
            else
              match r1 with
              | [] => (None, length bs)
              | b2 :: r2 =>
                  if negb (is_cont b2) then (None, 2%nat)
                  else
                    match r2 with
                    | [] => (None, length bs)
                    | b3 :: _ =>
                        if is_cont b3
                        then (Some ((b0 - 240) * 262144 + (b1 - 128) * 4096
                                    + (b2 - 128) * 64 + (b3 - 128)), 4%nat)
                        else (None, 3%nat)
                    end
              end
        end
      else (None, 1%nat)
  end.

(** The decoder loop; every step on a non-empty input consumes a byte, so
    [length bs] steps are enough. *)
Fixpoint utf8_decode_loop (fuel : nat) (bs : pybytes) : pystr :=
  match fuel with
  | O => []
  | S fuel' =>
      match bs with
      | [] => []
      | _ =>
          let step := utf8_step bs in
          match fst step with
          | Some c => c :: utf8_decode_loop fuel' (drop (snd step) bs)
          | None => utf8_decode_loop fuel' (drop (snd step) bs)
          end
      end
  end.

Definition utf8_decode_ignore (bs : pybytes) : pystr :=
  utf8_decode_loop (length bs) bs.

(** ** Bit codec ([lsb_dct.py], [utils.py]) *)

(** Binary digits of a positive number, least significant first. *)
Fixpoint pos_digits (p : positive) : list bool :=
  match p with
  | xH => [true]
  | xO q => false :: pos_digits q
  | xI q => true :: pos_digits q
  end.

(** The digits of [format(n, 'b')] for [n >= 0], most significant first. *)
Definition bin_digits (n : Z) : list bool :=
  match n with
  | Zpos p => rev (pos_digits p)
  | _ => [false]
  end.

(** The digits of [format(n, '0<width>b')] for [n >= 0]: [width] is a minimum,
    a longer number is not cut. *)
Definition format_0b (width : nat) (n : Z) : list bool :=
  let ds := bin_digits n in
  replicate (width - length ds) false ++ ds.

(** [int(''.join(map(str, bits)), 2)] *)
Definition int_of_bits (bits : list bool) : Z :=
  fold_left (fun acc b => 2 * acc + Z.b2z b) bits 0.

(** [_len_prefix_bits]; the argument is a length, hence not negative. *)
Definition _len_prefix_bits (n_bytes : Z) : list bool :=
  format_0b 32 n_bytes.

(** [text_to_bits] *)
Definition text_to_bits (data : pybytes) : list bool :=
  flat_map (format_0b 8) data.

(** The loop of [bits_to_text]: [for i in range(0, len(bits), 8)]. *)
Fixpoint byte_values_loop (fuel : nat) (bits : list bool) : list Z :=
  match fuel with
  | O => []
  | S fuel' =>
      let chunk := take 8 bits in
      if (length chunk <? 8)%nat then []
      else int_of_bits chunk :: byte_values_loop fuel' (drop 8 bits)
  end.

Definition byte_values (bits : list bool) : list Z :=
  byte_values_loop (length bits) bits.

(** [bits_to_text] *)
Definition bits_to_text (bits : list bool) : pystr :=
  utf8_decode_ignore (byte_values bits).

(** ** SHA-256 ([hashlib.sha256(...).hexdigest()], FIPS 180-4) *)

Module Sha256.

Definition wrap32 (x : Z) : Z := x mod 4294967296.
Definition add32 (x y : Z) : Z := wrap32 (x + y).
Definition rotr (n x : Z) : Z :=
  Z.lor (Z.shiftr x n) (wrap32 (Z.shiftl x (32 - n))).
Definition not32 (x : Z) : Z := Z.lxor x 4294967295.

Definition ch (x y z : Z) : Z := Z.lxor (Z.land x y) (Z.land (not32 x) z).
Definition maj (x y z : Z) : Z :=
  Z.lxor (Z.lxor (Z.land x y) (Z.land x z)) (Z.land y z).
Definition big_sigma0 (x : Z) : Z :=
  Z.lxor (Z.lxor (rotr 2 x) (rotr 13 x)) (rotr 22 x).
Definition big_sigma1 (x : Z) : Z :=
  Z.lxor (Z.lxor (rotr 6 x) (rotr 11 x)) (rotr 25 x).
Definition small_sigma0 (x : Z) : Z :=
  Z.lxor (Z.lxor (rotr 7 x) (rotr 18 x)) (Z.shiftr x 3).
Definition small_sigma1 (x : Z) : Z :=
  Z.lxor (Z.lxor (rotr 17 x) (rotr 19 x)) (Z.shiftr x 10).

Definition round_constants : list Z :=
  [ 1116352408; 1899447441; 3049323471; 3921009573;
    961987163; 1508970993; 2453635748; 2870763221;
    3624381080; 310598401; 607225278; 1426881987;
    1925078388; 2162078206; 2614888103; 3248222580;
    3835390401; 4022224774; 264347078; 604807628;
    770255983; 1249150122; 1555081692; 1996064986;
    2554220882; 2821834349; 2952996808; 3210313671;
    3336571891; 3584528711; 113926993; 338241895;
    666307205; 773529912; 1294757372; 1396182291;
    1695183700; 1986661051; 2177026350; 2456956037;
    2730485921; 2820302411; 3259730800; 3345764771;
    3516065817; 3600352804; 4094571909; 275423344;
    430227734; 506948616; 659060556; 883997877;
    958139571; 1322822218; 1537002063; 1747873779;
    1955562222; 2024104815; 2227730452; 2361852424;
    2428436474; 2756734187; 3204031479; 3329325298 ].

Definition initial_hash : list Z :=
  [ 1779033703; 3144134277; 1013904242; 2773480762;
    1359893119; 2600822924; 528734635; 1541459225 ].

(** Big-endian bytes of [x], [n] of them. *)
Fixpoint be_bytes (n : nat) (x : Z) : list Z :=
  match n with
  | O => []
  | S m => (x / 256 ^ Z.of_nat m) mod 256 :: be_bytes m x
  end.

Definition be_word (bs : list Z) : Z :=
  fold_left (fun acc b => acc * 256 + b) bs 0.

(** Message, the byte 0x80, zero bytes up to 56 modulo 64, then the bit
    length on 8 bytes. *)
Definition pad (msg : pybytes) : pybytes :=
  let len := Z.of_nat (length msg) in
  let zeros := Z.to_nat ((55 - len) mod 64) in
  msg ++ [128] ++ replicate zeros 0 ++ be_bytes 8 (8 * len).

Fixpoint chunks (fuel size : nat) (l : list Z) : list (list Z) :=
  match fuel with
  | O => []
  | S fuel' =>
      match l with
      | [] => []
      | _ => take size l :: chunks fuel' size (drop size l)
      end
  end.

(** The message schedule: 16 words of the block, then 48 derived ones. *)
Fixpoint extend (n : nat) (w : list Z) : list Z :=
  match n with
  | O => w
  | S m =>
      let t := length w in
      let at_ (k : nat) := nth (t - k) w 0 in
      extend m (w ++ [add32 (add32 (small_sigma1 (at_ 2%nat)) (at_ 7%nat))
                            (add32 (small_sigma0 (at_ 15%nat)) (at_ 16%nat))])
  end.

Definition schedule (block : list Z) : list Z :=
  extend 48 (map be_word (chunks 16 4 block)).

Definition step (st : list Z) (kw : Z * Z) : list Z :=
  match st with
  | [a; b; c; d; e; f; g; h] =>
      let t1 := add32 (add32 (add32 h (big_sigma1 e))
                             (add32 (ch e f g) (fst kw))) (snd kw) in
      let t2 := add32 (big_sigma0 a) (maj a b c) in
      [add32 t1 t2; a; b; c; add32 d t1; e; f; g]
  | _ => st
  end.

Definition compress (hash block : list Z) : list Z :=
  let st := fold_left step (combine round_constants (schedule block)) hash in
  map (fun p => add32 (fst p) (snd p)) (combine hash st).

Definition digest_words (msg : pybytes) : list Z :=
  let padded := pad msg in
  fold_left compress (chunks (length padded) 64 padded) initial_hash.

Definition hex_digit (d : Z) : Z := if d <? 10 then 48 + d else 87 + d.

Definition hex_of_byte (b : Z) : pystr := [hex_digit (b / 16); hex_digit (b mod 16)].

(** The 64 lower-case hexadecimal characters of the digest. *)
Definition hexdigest (msg : pybytes) : pystr :=
  flat_map hex_of_byte (flat_map (be_bytes 4) (digest_words msg)).

End Sha256.

(** ** Key wrapping ([utils.py]) *)

Definition invalid_key : pystr := str "Invalid Key!".

(** [hashlib.sha256(str(key).encode()).hexdigest()] *)
Definition key_digest (key : pystr) : result pystr :=
  try! kb := utf8_encode key in
  Ok (Sha256.hexdigest kb).

(** [_apply_key_wrap]; [None] and [""] both fail [if not key]. *)
Definition _apply_key_wrap (message : pystr) (key : option pystr) : result pystr :=
  match key with
  | None | Some [] => Ok message
  | Some k =>
      try! h := key_digest k in
      Ok (py_slice h 0 16 ++ message ++ py_slice_from h (-16))
  end.

(** [_remove_key_wrap] *)
Definition _remove_key_wrap (wrapped : pystr) (key : option pystr) : result pystr :=
  match key with
  | None | Some [] => Ok wrapped
  | Some k =>
      try! h := key_digest k in
      if startswith wrapped (py_slice h 0 16)
         && endswith wrapped (py_slice_from h (-16))
      then Ok (py_slice wrapped 16 (-16))
      else Ok invalid_key
  end.

(** [unwrap] as the specification words it, for comparison with
    [_remove_key_wrap]: the inner text is returned only if [wrapped] starts
    with [digest[0:16]], ends with [digest[-16:]] and is long enough that the
    two do not overlap; the sentinel otherwise. *)
Definition unwrap_as_specified (wrapped : pystr) (key : option pystr)
  : result pystr :=
  match key with
  | None | Some [] => Ok wrapped
  | Some k =>
      try! h := key_digest k in
      if startswith wrapped (take 16 h) && endswith wrapped (drop 48 h)
         && (32 <=? length wrapped)%nat
      then Ok (take (length wrapped - 32) (drop 16 wrapped))
      else Ok invalid_key
  end.

(** ** Arrays *)

(** A two-dimensional [numpy] array: its shape and its row-major buffer.  An
    image of shape [(h, w, 3)] is such an array of (blue, green, red)
    triples. *)
Record ndarray (A : Type) : Type := mk_array {
  rows : nat;
  cols : nat;
  data : list A
}.
Arguments mk_array {A} rows cols data.
Arguments rows {A} _.
Arguments cols {A} _.
Arguments data {A} _.

Definition channel := ndarray Z.
Definition image := ndarray (Z * Z * Z).

(** [a.size] of a single-plane array. *)
Definition size {A : Type} (a : ndarray A) : nat := (rows a * cols a)%nat.

(** [image_bgr.size]: three samples a pixel. *)
Definition image_size (im : image) : nat := (rows im * cols im * 3)%nat.

(** [cv2.split] and [cv2.merge]. *)
Definition cv2_split (im : image) : channel * channel * channel :=
  (mk_array (rows im) (cols im) (map (fun p => fst (fst p)) (data im)),
   mk_array (rows im) (cols im) (map (fun p => snd (fst p)) (data im)),
   mk_array (rows im) (cols im) (map (fun p => snd p) (data im))).

Fixpoint zip3 (b g r : list Z) : list (Z * Z * Z) :=
  match b, g, r with
  | x :: b', y :: g', z :: r' => (x, y, z) :: zip3 b' g' r'
  | _, _, _ => []
  end.

Definition cv2_merge (b g r : channel) : image :=
  mk_array (rows b) (cols b) (zip3 (data b) (data g) (data r)).

(** ** LSB plane ([lsb_dct.py]) *)

Definition capacity_error_lsb : string :=
  "LSB capacity too small for this payload part.".

(** [(flat[idx] & mask) | (bit & 1)] with [mask = 0xFE]. *)
Definition set_lsb (v : Z) (bit : bool) : Z :=
  Z.lor (Z.land v 254) (Z.land (Z.b2z bit) 1).

(** [int(v & 1)] *)
Definition get_lsb (v : Z) : bool := Z.land v 1 =? 1.

(** The loop [for i, bit in enumerate(bits): flat[start + i] = ...]; [idx] is
    [start + i]. *)
Fixpoint lsb_embed_loop (bits : list bool) (idx : nat) (flat : list Z)
  : result (list Z) :=
  match bits with
  | [] => Ok flat
  | bit :: rest =>
      match flat !! idx with
      | Some v => lsb_embed_loop rest (S idx) (<[idx := set_lsb v bit]> flat)
      | None => Raise IndexError
      end
  end.

Definition lsb_embed (channel_image : channel) (message_bits : list bool)
    (start : nat) : result channel :=
  let flat := data channel_image in
  if (size channel_image <? start + length message_bits)%nat
  then Raise (ValueError capacity_error_lsb)
  else
    try! flat' := lsb_embed_loop message_bits start flat in
    Ok (mk_array (rows channel_image) (cols channel_image) flat').

Definition lsb_extract (channel_image : channel) (length : Z) (start : nat)
  : list bool :=
  let flat := data channel_image in
  if (size channel_image <=? start)%nat then []
  else
    let length' := Z.min length (Z.of_nat (size channel_image - start)) in
    map get_lsb (take (Z.to_nat length') (drop start flat)).

(** ** Rounding *)

(** Python's [round] of a float: to the nearest integer, a tie to the even
    one. *)
Definition py_round (q : Q) : Z :=
  let f := Qfloor q in
  match Qcompare (q - inject_Z f) (1 # 2) with
  | Lt => f
  | Gt => f + 1
  | Eq => if Z.even f then f else f + 1
  end.

(** [int(round(coeff)) & 1] *)
Definition coeff_parity (coeff : Q) : Z := Z.land (py_round coeff) 1.

(** ** The 8x8 cosine transform ([cv2.dct], [cv2.idct])

    OpenCV computes the orthonormal DCT-II, [Y = C X C^T] with
    [C(j,k) = sqrt(a_j / 8) * cos ((2k+1) j pi / 16)], [a_0 = 1] and [a_j = 2]
    otherwise, and [cv2.idct] is its inverse [X = C^T Y C].  For [j = 4] the
    cosine is [cos ((2k+1) pi / 4)], that is [1/sqrt 2] up to the sign
    [+ - - + + - - +], so that the basis function of coefficient (4,4) is
    [sgn4 x * sgn4 y / 8] and the coefficient itself is the rational
    [sum_xy sgn4 x * sgn4 y * X(x,y) / 8].

    The program reads and writes no other coefficient.  A coefficient matrix
    is therefore kept as its (4,4) entry together with the part of the block
    orthogonal to that basis function (the contribution of the 63 other
    coefficients, which the program carries from [cv2.dct] to [cv2.idct]
    unchanged).

    Scope.  The arithmetic is exact where OpenCV computes in [float32]: a
    coefficient or a reconstructed sample can differ from the program's by
    the rounding error of the transform, so the model says what a block
    holds, and which bit [dct_extract] reads in it, only where no rounding
    occurs (the all-zero and the all-255 block of the results below); the
    results on shapes, counts, the samples outside the blocks and the blue
    plane do not depend on it.  The transform is the one of size 8, the only
    [block_size] that the repository passes: with another size the program
    divides by it, transforms blocks of that size and indexes them at
    [4, 4], which the model does not follow. *)

Definition sgn4 (i : nat) : Z :=
  match (i mod 4)%nat with
  | 0%nat | 3%nat => 1
  | _ => -1
  end.

(** Value at flat index [k = 8 * row + col] of the basis function of
    coefficient (4,4). *)
Definition basis44 (k : nat) : Q := (sgn4 (k / 8) * sgn4 (k mod 8)) # 8.

Record dct_matrix : Type := mk_dct {
  coeff44 : Q;
  others : list Q
}.

Definition dot44 (block : list Q) : Q :=
  fold_right Qplus 0%Q (imap (fun k v => (v * basis44 k)%Q) block).

Definition cv2_dct (block : list Q) : dct_matrix :=
  let c := dot44 block in
  mk_dct c (imap (fun k v => (v - c * basis44 k)%Q) block).

Definition cv2_idct (d : dct_matrix) : list Q :=
  imap (fun k v => (v + coeff44 d * basis44 k)%Q) (others d).

(** [dct_block[4, 4] = v] *)
Definition set_coeff44 (d : dct_matrix) (v : Q) : dct_matrix :=
  mk_dct v (others d).

(** ** DCT plane ([lsb_dct.py]) *)

Definition capacity_error_dct : string :=
  "DCT capacity too small for this payload part.".

(** Flat indices of [a[sy:sy+bs, sx:sx+bs]] in an array of shape [(h, w)];
    numpy cuts a slice at the array bounds. *)
Definition block_indices (h w bs sy sx : nat) : list nat :=
  flat_map (fun y => map (fun x => (y * w + x)%nat)
                         (seq sx (Nat.min (sx + bs) w - sx)))
           (seq sy (Nat.min (sy + bs) h - sy)).

(** Shape of that slice. *)
Definition block_shape (h w bs sy sx : nat) : nat * nat :=
  ((Nat.min (sy + bs) h - sy)%nat, (Nat.min (sx + bs) w - sx)%nat).

Definition read_block {A : Type} (d : A) (a : list A) (idxs : list nat) : list A :=
  map (fun i => nth i a d) idxs.

(** [a[sy:sy+bs, sx:sx+bs] = vals] *)
Fixpoint write_block {A : Type} (a : list A) (idxs : list nat) (vals : list A)
  : list A :=
  match idxs, vals with
  | i :: idxs', v :: vals' => write_block (<[i := v]> a) idxs' vals'
  | _, _ => a
  end.

(** The block coordinates visited by
    [for by in range(blocks_y): for bx in range(blocks_x)]. *)
Definition block_coords (blocks_y blocks_x : nat) : list (nat * nat) :=
  flat_map (fun by_ => map (fun bx => (by_, bx)) (seq 0 blocks_x)) (seq 0 blocks_y).

(** The coefficient written back when the parity is wrong:
    [coeff + 1.0] if [coeff >= 0], [coeff - 1.0] otherwise. *)
Definition adjust (coeff : Q) : Q :=
  if Qle_bool 0 coeff then (coeff + 1)%Q else (coeff - 1)%Q.

(** One iteration of the body of the loops of [dct_embed], after the test on
    [bit_idx]. *)
Definition dct_embed_block (h w block_size : nat) (embedded : list Q)
    (by_ bx : nat) (desired : bool) : list Q :=
  let sy := (by_ * block_size)%nat in
  let sx := (bx * block_size)%nat in
  let idxs := block_indices h w block_size sy sx in
  let block := read_block 0%Q embedded idxs in
  let dct_block := cv2_dct block in
  let coeff := coeff44 dct_block in
  let dct_block :=
    if negb (coeff_parity coeff =? Z.b2z desired)
    then set_coeff44 dct_block (adjust coeff)
    else dct_block in
  let block_recon := cv2_idct dct_block in
  write_block embedded idxs block_recon.

Fixpoint dct_embed_loop (h w block_size : nat) (coords : list (nat * nat))
    (bits : list bool) (bit_idx : nat) (embedded : list Q) : list Q :=
  match coords with
  | [] => embedded
  | (by_, bx) :: coords' =>
      match bits !! bit_idx with
      | None => embedded
      | Some desired =>
          dct_embed_loop h w block_size coords' bits (S bit_idx)
            (dct_embed_block h w block_size embedded by_ bx desired)
      end
  end.

(** [np.clip(x, 0, 255)] on one sample. *)
Definition np_clip (q : Q) : Q := Qmax 0 (Qmin 255 q).

(** [astype(np.uint8)] on one sample of [[0, 255]]: the cast drops the
    fractional part. *)
Definition to_uint8 (q : Q) : Z := Qfloor q.

(** [np.clip(x, 0, 255).astype(np.uint8)] on one sample. *)
Definition clip_to_uint8 (q : Q) : Z := to_uint8 (np_clip q).

Definition dct_embed (gray_image : channel) (message_bits : list bool)
    (block_size start_block : nat) : result channel :=
  let h := rows gray_image in
  let w := cols gray_image in
  let embedded := map inject_Z (data gray_image) in
  let blocks_y := (h / block_size)%nat in
  let blocks_x := (w / block_size)%nat in
  let total_blocks := (blocks_y * blocks_x)%nat in
  if (total_blocks <? start_block + length message_bits)%nat
  then Raise (ValueError capacity_error_dct)
  else
    let embedded' :=
      dct_embed_loop h w block_size (block_coords blocks_y blocks_x)
        message_bits 0 embedded in
    Ok (mk_array h w (map clip_to_uint8 embedded')).

Fixpoint dct_extract_loop (h w block_size : nat) (gray : list Z)
    (coords : list (nat * nat)) (length : Z) (bit_idx : Z)
    (extracted : list bool) : list bool :=
  match coords with
  | [] => extracted
  | (by_, bx) :: coords' =>
      if length <=? bit_idx then extracted
      else
        let sy := (by_ * block_size)%nat in
        let sx := (bx * block_size)%nat in
        let block :=
          map inject_Z (read_block 0 gray (block_indices h w block_size sy sx)) in
        let shape := block_shape h w block_size sy sx in
        if negb ((fst shape =? block_size)%nat && (snd shape =? block_size)%nat)
        then dct_extract_loop h w block_size gray coords' length bit_idx extracted
        else
          let coef := coeff44 (cv2_dct block) in
          dct_extract_loop h w block_size gray coords' length (bit_idx + 1)
            (extracted ++ [coeff_parity coef =? 1])
  end.

Definition dct_extract (gray_image : channel) (length : Z)
    (block_size start_block : nat) : list bool :=
  let h := rows gray_image in
  let w := cols gray_image in
  let blocks_y := (h / block_size)%nat in
  let blocks_x := (w / block_size)%nat in
  let total_blocks := (blocks_y * blocks_x)%nat in
  if (total_blocks <=? start_block)%nat then []
  else
    dct_extract_loop h w block_size (data gray_image)
      (block_coords blocks_y blocks_x) length 0 [].

(** ** Hybrid allocator ([lsb_dct.py]) *)

Definition payload_too_large (need capacity : nat) : string :=
  ("Payload too large for image. Need " ++ fmt_int (Z.of_nat need)
   ++ " bits, capacity " ++ fmt_int (Z.of_nat capacity) ++ ".")%string.

Definition hybrid_embed (image_bgr : image) (message_bits : list bool)
  : result image :=
  let '(b, g, r) := cv2_split image_bgr in
  let b_capacity := size b in
  let dct_capacity := (rows g / 8 * (cols g / 8))%nat in
  let total_capacity := (b_capacity + dct_capacity)%nat in
  if (total_capacity <? length message_bits)%nat
  then Raise (ValueError (payload_too_large (length message_bits) total_capacity))
  else if (length message_bits <=? b_capacity)%nat then
    try! b_stego := lsb_embed b message_bits 0 in
    let g_stego := g in
    Ok (cv2_merge b_stego g_stego r)
  else
    let bits_b := take b_capacity message_bits in
    let bits_g := drop b_capacity message_bits in
    try! b_stego := lsb_embed b bits_b 0 in
    try! g_stego := dct_embed g bits_g 8 0 in
    Ok (cv2_merge b_stego g_stego r).

Definition hybrid_extract (image_bgr : image) (total_length : Z) : list bool :=
  let '(b, g, r) := cv2_split image_bgr in
  let b_capacity := size b in
  if total_length <=? Z.of_nat b_capacity
  then lsb_extract b total_length 0
  else
    let bits_b := lsb_extract b (Z.of_nat b_capacity) 0 in
    let remaining := total_length - Z.of_nat b_capacity in
    let bits_g := dct_extract g remaining 8 0 in
    bits_b ++ bits_g.

(** ** Orchestrator ([utils.py]) *)

Definition invalid_image : string := "Invalid image array.".

Definition message_too_large (need capacity : nat) : string :=
  ("Message too large! Need " ++ fmt_int (Z.of_nat need)
   ++ " bits, capacity " ++ fmt_int (Z.of_nat capacity) ++ ".")%string.

Definition header_failure : string := "Failed to read header bits from image.".

(** The framed bit stream of [embed_message]: header, then payload. *)
Definition frame (payload_bytes : pybytes) : list bool :=
  let header_bits := _len_prefix_bits (Z.of_nat (length payload_bytes)) in
  let payload_bits := text_to_bits payload_bytes in
  header_bits ++ payload_bits.

Definition embed_message (image_bgr : image) (message : pystr)
    (key : option pystr) : result image :=
  if (image_size image_bgr =? 0)%nat then Raise (ValueError invalid_image)
  else
    try! wrapped := _apply_key_wrap message key in
    try! payload_bytes := utf8_encode wrapped in
    let all_bits := frame payload_bytes in
    let h := rows image_bgr in
    let w := cols image_bgr in
    let b_capacity := (h * w)%nat in
    let dct_capacity := (h / 8 * (w / 8))%nat in
    let total_capacity := (b_capacity + dct_capacity)%nat in
    if (total_capacity <? length all_bits)%nat
    then Raise (ValueError (message_too_large (length all_bits) total_capacity))
    else hybrid_embed image_bgr all_bits.

(** [[0] * n] where [n] comes from the data: the list of [n] zero bits, or
    [MemoryError] when the interpreter cannot allocate it.  [mem] is the
    largest [n] for which it can build the list and go on with it (256 GiB
    of list slots would be needed for the largest header; a 64-bit CPython
    refuses above [2^60 - 1] slots whatever the machine). *)
Definition zeros (mem n : Z) : result (list bool) :=
  if mem <? n then Raise MemoryError else Ok (replicate (Z.to_nat n) false).

(** [extract_message]; [mem] is the memory left for the padding, see
    [zeros].  The lists that [hybrid_extract] returns are no longer than
    the capacity of the image and are taken to fit. *)
Definition extract_message (mem : Z) (stego_bgr : image) (key : option pystr)
  : result pystr :=
  if (image_size stego_bgr =? 0)%nat then Raise (ValueError invalid_image)
  else
    let header_bits := hybrid_extract stego_bgr 32 in
    if (length header_bits <? 32)%nat then Raise (ValueError header_failure)
    else
      let msg_len_bytes := int_of_bits header_bits in
      let total_bits := 32 + msg_len_bytes * 8 in
      let all_bits := hybrid_extract stego_bgr total_bits in
      try! all_bits :=
        if Z.of_nat (length all_bits) <? total_bits
        then
          try! padding := zeros mem (total_bits - Z.of_nat (length all_bits)) in
          Ok (all_bits ++ padding)
        else Ok all_bits in
      let payload_bits := drop 32 all_bits in
      let recovered := bits_to_text payload_bits in
      _remove_key_wrap recovered key.

(** ** The embedding path with arrays as objects

    [embed_message] and its callees once more, this time with every array an
    object in a store: a call that builds an array ([copy], [flatten],
    [astype], [cv2.split], [cv2.merge], [cv2.dct], [cv2.idct], [np.clip])
    allocates, an indexed assignment updates the object in place, and
    arguments are references. *)

Module Mem.

Inductive obj : Type :=
| Img (a : image)
| U8 (a : ndarray Z)
| F32 (a : ndarray Q)
| Dct (d : dct_matrix).

Abbreviation loc := nat (only parsing).
Abbreviation heap := (list obj) (only parsing).

(** A computation on the store that returns or raises. *)
Definition M (A : Type) : Type := heap -> result A * heap.

Definition st_ret {A : Type} (a : A) : M A := fun s => (Ok a, s).

Definition st_raise {A : Type} (e : exn) : M A := fun s => (Raise e, s).

Definition st_bind {A B : Type} (m : M A) (k : A -> M B) : M B :=
  fun s =>
    match m s with
    | (Ok a, s') => k a s'
    | (Raise e, s') => (Raise e, s')
    end.

Notation "'let!' x := m 'in' k" := (st_bind m (fun x => k))
  (at level 10, x name, m at level 100, k at level 200).

Definition lift {A : Type} (r : result A) : M A :=
  match r with
  | Ok a => st_ret a
  | Raise e => st_raise e
  end.

Definition alloc (o : obj) : M loc := fun s => (Ok (length s), s ++ [o]).

Definition store (l : loc) (o : obj) : M unit := fun s => (Ok tt, <[l := o]> s).

Definition load_img (l : loc) : M image :=
  fun s => match s !! l with Some (Img a) => (Ok a, s) | _ => (Raise TypeError, s) end.

Definition load_u8 (l : loc) : M (ndarray Z) :=
  fun s => match s !! l with Some (U8 a) => (Ok a, s) | _ => (Raise TypeError, s) end.

Definition load_f32 (l : loc) : M (ndarray Q) :=
  fun s => match s !! l with Some (F32 a) => (Ok a, s) | _ => (Raise TypeError, s) end.

Definition load_dct (l : loc) : M dct_matrix :=
  fun s => match s !! l with Some (Dct d) => (Ok d, s) | _ => (Raise TypeError, s) end.

(** [a.copy()], and [a.astype(np.uint8)] of a [uint8] array. *)
Definition copy_u8 (l : loc) : M loc :=
  let! a := load_u8 l in alloc (U8 a).

Definition copy_img (l : loc) : M loc :=
  let! a := load_img l in alloc (Img a).

Definition copy_f32 (l : loc) : M loc :=
  let! a := load_f32 l in alloc (F32 a).

(** [for i, bit in enumerate(bits): flat[idx] = (flat[idx] & mask) | (bit & 1)] *)
Fixpoint lsb_embed_loop (flat : loc) (bits : list bool) (idx : nat) : M unit :=
  match bits with
  | [] => st_ret tt
  | bit :: rest =>
      let! a := load_u8 flat in
      match data a !! idx with
      | Some v =>
          let! _ := store flat (U8 (mk_array (rows a) (cols a)
                                      (<[idx := set_lsb v bit]> (data a)))) in
          lsb_embed_loop flat rest (S idx)
      | None => st_raise IndexError
      end
  end.

Definition lsb_embed (channel_image : loc) (message_bits : list bool)
    (start : nat) : M loc :=
  let! c := load_u8 channel_image in
  let! flat0 := alloc (U8 (mk_array 1 (size c) (data c))) in
  let! flat := copy_u8 flat0 in
  if (size c <? start + length message_bits)%nat
  then st_raise (ValueError capacity_error_lsb)
  else
    let! _ := lsb_embed_loop flat message_bits start in
    let! f := load_u8 flat in
    alloc (U8 (mk_array (rows c) (cols c) (data f))).

(** The body of the loops of [dct_embed]. *)
Definition dct_embed_block (embedded : loc) (h w block_size by_ bx : nat)
    (desired : bool) : M unit :=
  let sy := (by_ * block_size)%nat in
  let sx := (bx * block_size)%nat in
  let idxs := block_indices h w block_size sy sx in
  let! e := load_f32 embedded in
  let block := read_block 0%Q (data e) idxs in
  let! dct_block := alloc (Dct (cv2_dct block)) in
  let! d := load_dct dct_block in
  let coeff := coeff44 d in
  let! _ := if negb (coeff_parity coeff =? Z.b2z desired)
            then store dct_block (Dct (set_coeff44 d (adjust coeff)))
            else st_ret tt in
  let! d' := load_dct dct_block in
  let! block_recon := alloc (F32 (mk_array block_size block_size (cv2_idct d'))) in
  let! r := load_f32 block_recon in
  let! e' := load_f32 embedded in
  store embedded (F32 (mk_array (rows e') (cols e')
                         (write_block (data e') idxs (data r)))).

Fixpoint dct_embed_loop (embedded : loc) (h w block_size : nat)
    (coords : list (nat * nat)) (bits : list bool) (bit_idx : nat) : M unit :=
  match coords with
  | [] => st_ret tt
  | (by_, bx) :: coords' =>
      match bits !! bit_idx with
      | None => st_ret tt
      | Some desired =>
          let! _ := dct_embed_block embedded h w block_size by_ bx desired in
          dct_embed_loop embedded h w block_size coords' bits (S bit_idx)
      end
  end.

Definition dct_embed (gray_image : loc) (message_bits : list bool)
    (block_size start_block : nat) : M loc :=
  let! g := load_u8 gray_image in
  let h := rows g in
  let w := cols g in
  let! as_float := alloc (F32 (mk_array h w (map inject_Z (data g)))) in
  let! embedded := copy_f32 as_float in
  let blocks_y := (h / block_size)%nat in
  let blocks_x := (w / block_size)%nat in
  let total_blocks := (blocks_y * blocks_x)%nat in
  if (total_blocks <? start_block + length message_bits)%nat
  then st_raise (ValueError capacity_error_dct)
  else
    let! _ := dct_embed_loop embedded h w block_size
                (block_coords blocks_y blocks_x) message_bits 0 in
    let! e := load_f32 embedded in
    let! clipped := alloc (F32 (mk_array (rows e) (cols e) (map np_clip (data e)))) in
    let! c := load_f32 clipped in
    alloc (U8 (mk_array (rows c) (cols c) (map to_uint8 (data c)))).

Definition cv2_split (image_bgr : loc) : M (loc * loc * loc) :=
  let! im := load_img image_bgr in
  let! b := alloc (U8 (fst (fst (cv2_split im)))) in
  let! g := alloc (U8 (snd (fst (cv2_split im)))) in
  let! r := alloc (U8 (snd (cv2_split im))) in
  st_ret (b, g, r).

Definition cv2_merge (b g r : loc) : M loc :=
  let! bo := load_u8 b in
  let! go := load_u8 g in
  let! ro := load_u8 r in
  alloc (Img (cv2_merge bo go ro)).

Definition hybrid_embed (image_bgr : loc) (message_bits : list bool) : M loc :=
  let! bgr := cv2_split image_bgr in
  let '(b, g, r) := bgr in
  let! bo := load_u8 b in
  let! go := load_u8 g in
  let b_capacity := size bo in
  let dct_capacity := (rows go / 8 * (cols go / 8))%nat in
  let total_capacity := (b_capacity + dct_capacity)%nat in
  if (total_capacity <? length message_bits)%nat
  then st_raise (ValueError (payload_too_large (length message_bits) total_capacity))
  else if (length message_bits <=? b_capacity)%nat then
    let! b_copy := copy_u8 b in
    let! b_stego := lsb_embed b_copy message_bits 0 in
    let! g_stego := copy_u8 g in
    let! stego := cv2_merge b_stego g_stego r in
    copy_img stego
  else
    let bits_b := take b_capacity message_bits in
    let bits_g := drop b_capacity message_bits in
    let! b_copy := copy_u8 b in
    let! b_stego := lsb_embed b_copy bits_b 0 in
    let! g_copy := copy_u8 g in
    let! g_stego := dct_embed g_copy bits_g 8 0 in
    let! stego := cv2_merge b_stego g_stego r in
    copy_img stego.

Definition embed_message (image_bgr : loc) (message : pystr)
    (key : option pystr) : M loc :=
  let! im := load_img image_bgr in
  if (image_size im =? 0)%nat then st_raise (ValueError invalid_image)
  else
    let! wrapped := lift (_apply_key_wrap message key) in
    let! payload_bytes := lift (utf8_encode wrapped) in
    let all_bits := frame payload_bytes in
    let h := rows im in
    let w := cols im in
    let b_capacity := (h * w)%nat in
    let dct_capacity := (h / 8 * (w / 8))%nat in
    let total_capacity := (b_capacity + dct_capacity)%nat in
    if (total_capacity <? length all_bits)%nat
    then st_raise (ValueError (message_too_large (length all_bits) total_capacity))
    else
      let! image_copy := copy_img image_bgr in
      hybrid_embed image_copy all_bits.

End Mem.

(** [m], run in the store [s], does what the value-level function did: it
    returns a reference to a new object [inj a] when the function returned
    [a], raises what the function raised, and leaves every object of [s] as
    it was. *)
Definition simulates {A : Type} (inj : A -> Mem.obj) (m : Mem.M Mem.loc)
    (r : result A) (s : Mem.heap) : Prop :=
  exists s', s `prefix_of` s'
    /\ match r with
       | Ok a =>
           exists l, m s = (Ok l, s') /\ s' !! l = Some (inj a)
                     /\ (length s <= l)%nat
       | Raise e => m s = (Raise e, s')
       end.

(** ** Well-formed inputs *)

(** A [uint8] sample. *)
Definition is_uint8 (v : Z) : Prop := 0 <= v < 256.

(** The invariant of a [numpy] image of dtype [uint8] and shape [(h, w, 3)]:
    the buffer holds [h * w] pixels of three [uint8] samples. *)
Definition wf_image (im : image) : Prop :=
  length (data im) = size im
  /\ Forall (fun p => is_uint8 (fst (fst p)) /\ is_uint8 (snd (fst p))
                      /\ is_uint8 (snd p)) (data im).

Definition wf_channel (c : channel) : Prop :=
  length (data c) = size c /\ Forall is_uint8 (data c).

(** A key that [str(key).encode()] accepts: [None], or text without lone
    surrogates. *)
Definition key_encodable (key : option pystr) : Prop :=
  match key with
  | None => True
  | Some k => exists kb, utf8_encode k = Ok kb
  end.

(** The three planes of an image. *)
Definition blue (im : image) : channel := fst (fst (cv2_split im)).
Definition green (im : image) : channel := snd (fst (cv2_split im)).
Definition red (im : image) : channel := snd (cv2_split im).

(** [total_capacity] of an image of the given shape. *)
Definition total_capacity (h w : nat) : nat := (h * w + h / 8 * (w / 8))%nat.

(** The pixel at row [y], column [x] lies in an 8x8 block of the grid that
    [dct_embed] visits, and that block is one of the first [n] in row-major
    order. *)
Definition in_carrier_block (h w n y x : nat) : bool :=
  (y / 8 <? h / 8)%nat && (x / 8 <? w / 8)%nat
  && (y / 8 * (w / 8) + x / 8 <? n)%nat.

(** What [hybrid_embed] may change when it writes [bits] into [im]: the
    shape and the red plane are kept; a blue sample that carries a bit has
    that bit as its LSB and its other bits unchanged, the other blue samples
    are unchanged; a green sample outside the blocks that carry the bits
    beyond the blue plane is unchanged. *)
Definition stego_of (im : image) (bits : list bool) (out : image) : Prop :=
  rows out = rows im /\ cols out = cols im
  /\ wf_image out
  /\ red out = red im
  /\ (forall i v, data (blue im) !! i = Some v ->
        data (blue out) !! i
        = Some (match bits !! i with Some b => set_lsb v b | None => v end))
  /\ (forall y x, (y < rows im)%nat -> (x < cols im)%nat ->
        in_carrier_block (rows im) (cols im) (length bits - size im) y x = false ->
        data (green out) !! (y * cols im + x)%nat
        = data (green im) !! (y * cols im + x)%nat).

(** ** The carrier stream of an image *)

(** The bit that [dct_extract] reads in the block at block coordinates
    [(by, bx)] of a plane. *)
Definition block_bit (g : channel) (c : nat * nat) : bool :=
  coeff_parity
    (coeff44 (cv2_dct (map inject_Z
       (read_block 0 (data g)
          (block_indices (rows g) (cols g) 8 (fst c * 8) (snd c * 8))))))
  =? 1.

(** Every bit an image can carry, in the order [hybrid_extract] reads them:
    the LSBs of the blue plane, then one bit a block of the green plane. *)
Definition carrier_bits (im : image) : list bool :=
  map get_lsb (data (blue im))
  ++ map (block_bit (green im)) (block_coords (rows im / 8) (cols im / 8)).

(* ================================================================== *)
(** * Part II.  Properties *)
(* ================================================================== *)

Example format_0b_5 : format_0b 8 5 = [false;false;false;false;false;true;false;true].
Proof. reflexivity. Qed.

Example sha256_abc :
  Sha256.hexdigest (str "abc")
  = str "ba7816bf8f01cfea414140de5dae2223b00361a396177a9cb410ff61f20015ad".
Proof. vm_compute. reflexivity. Qed.

Example sha256_empty :
  Sha256.hexdigest []
  = str "e3b0c44298fc1c149afbf4c8996fb92427ae41e4649b934ca495991b7852b855".
Proof. vm_compute. reflexivity. Qed.

Example sha256_two_blocks :
  Sha256.hexdigest (str "abcdbcdecdefdefgefghfghighijhijkijkljklmklmnlmnomnopnopq")
  = str "248d6a61d20638b8e5c026930c3e6039a33ce45964ff2167f6ecedd419db06c1".
Proof. vm_compute. reflexivity. Qed.

(** ** Bit codec *)

Lemma int_of_bits_snoc (l : list bool) (b : bool) :
  int_of_bits (l ++ [b]) = 2 * int_of_bits l + Z.b2z b.
Proof. unfold int_of_bits. rewrite fold_left_app. reflexivity. Qed.

Lemma int_of_bits_app (l1 l2 : list bool) :
  int_of_bits (l1 ++ l2)
  = int_of_bits l1 * 2 ^ Z.of_nat (length l2) + int_of_bits l2.
Proof.
  induction l2 as [|b l2 IH] using rev_ind.
  - rewrite app_nil_r. cbn. lia.
  - rewrite app_assoc, !int_of_bits_snoc, IH, length_app. cbn [length].
    replace (Z.of_nat (length l2 + 1)) with (Z.succ (Z.of_nat (length l2))) by lia.
    rewrite Z.pow_succ_r by lia. lia.
Qed.

Lemma int_of_bits_zeros (k : nat) : int_of_bits (replicate k false) = 0.
Proof.
  induction k as [|k IH]; [reflexivity|].
  change (replicate (S k) false) with ([false] ++ replicate k false).
  rewrite int_of_bits_app, IH. cbn. lia.
Qed.

Lemma int_of_bits_range (l : list bool) :
  0 <= int_of_bits l < 2 ^ Z.of_nat (length l).
Proof.
  induction l as [|b l IH] using rev_ind; [cbn; lia|].
  rewrite int_of_bits_snoc, length_app. cbn [length].
  replace (Z.of_nat (length l + 1)) with (Z.succ (Z.of_nat (length l))) by lia.
  rewrite Z.pow_succ_r by lia. destruct b; cbn; lia.
Qed.

Lemma int_of_pos_digits (p : positive) : int_of_bits (rev (pos_digits p)) = Zpos p.
Proof.
  induction p as [q IH|q IH|]; cbn [pos_digits rev]; [| |reflexivity];
    rewrite int_of_bits_snoc, IH; cbn; lia.
Qed.

Lemma int_of_bin_digits (n : Z) : 0 <= n -> int_of_bits (bin_digits n) = n.
Proof.
  destruct n as [|p|p]; intros Hn; [reflexivity| |lia].
  apply int_of_pos_digits.
Qed.

Lemma pos_digits_length (p : positive) (k : nat) :
  Zpos p < 2 ^ Z.of_nat k -> (length (pos_digits p) <= k)%nat.
Proof.
  revert k. induction p as [q IH|q IH|]; intros k Hk; cbn [pos_digits length].
  - destruct k as [|k]; [cbn in Hk; lia|].
    rewrite Nat2Z.inj_succ, Z.pow_succ_r in Hk by lia.
    specialize (IH k). lia.
  - destruct k as [|k]; [cbn in Hk; lia|].
    rewrite Nat2Z.inj_succ, Z.pow_succ_r in Hk by lia.
    specialize (IH k). lia.
  - destruct k as [|k]; [cbn in Hk; lia|lia].
Qed.

Lemma pos_digits_lower (p : positive) :
  2 ^ Z.of_nat (length (pos_digits p) - 1) <= Zpos p.
Proof.
  induction p as [q IH|q IH|]; cbn [pos_digits length]; [| |cbn; lia].
  - assert (0 < length (pos_digits q))%nat by (destruct q; cbn; lia).
    replace (Z.of_nat (S (length (pos_digits q)) - 1))
      with (Z.succ (Z.of_nat (length (pos_digits q) - 1))) by lia.
    rewrite Z.pow_succ_r by lia. lia.
  - assert (0 < length (pos_digits q))%nat by (destruct q; cbn; lia).
    replace (Z.of_nat (S (length (pos_digits q)) - 1))
      with (Z.succ (Z.of_nat (length (pos_digits q) - 1))) by lia.
    rewrite Z.pow_succ_r by lia. lia.
Qed.

Lemma bin_digits_length (n : Z) (k : nat) :
  (0 < k)%nat -> 0 <= n < 2 ^ Z.of_nat k -> (length (bin_digits n) <= k)%nat.
Proof.
  intros Hk Hn. destruct n as [|p|p]; cbn [bin_digits]; [cbn; lia| |lia].
  rewrite length_rev. apply pos_digits_length. lia.
Qed.

Lemma format_0b_length (width : nat) (n : Z) :
  (0 < width)%nat -> 0 <= n < 2 ^ Z.of_nat width ->
  length (format_0b width n) = width.
Proof.
  intros Hw Hn. unfold format_0b.
  pose proof (bin_digits_length n width Hw Hn).
  rewrite length_app, length_replicate. lia.
Qed.

Lemma format_0b_value (width : nat) (n : Z) :
  0 <= n -> int_of_bits (format_0b width n) = n.
Proof.
  intros Hn. unfold format_0b.
  rewrite int_of_bits_app, int_of_bits_zeros, int_of_bin_digits by assumption. lia.
Qed.

(** The digits are never fewer than [width], whatever the number. *)
Lemma format_0b_min_length (width : nat) (n : Z) :
  (width <= length (format_0b width n))%nat.
Proof. unfold format_0b. rewrite length_app, length_replicate. lia. Qed.

Lemma int_of_bits_testbit (l : list bool) (i : nat) :
  (i < length l)%nat ->
  l !! i = Some (Z.testbit (int_of_bits l) (Z.of_nat (length l - 1 - i))).
Proof.
  revert i. induction l as [|b l IH] using rev_ind; intros i Hi; [cbn in Hi; lia|].
  rewrite length_app in *. cbn [length] in *. rewrite int_of_bits_snoc.
  destruct (decide (i = length l)) as [->|Hne].
  - rewrite list_lookup_middle by reflexivity.
    replace (length l + 1 - 1 - length l)%nat with 0%nat by lia.
    cbn [Z.of_nat]. rewrite Z.testbit_0_r. reflexivity.
  - rewrite lookup_app_l by lia. rewrite IH by lia.
    replace (Z.of_nat (length l + 1 - 1 - i))
      with (Z.succ (Z.of_nat (length l - 1 - i))) by lia.
    rewrite Z.testbit_succ_r by lia. reflexivity.
Qed.

(** C8: for every byte count, that is every value of the 32-bit unsigned
    length field of the payload, [0 <= n < 2^32], the length prefix is
    exactly 32 bits long and is the big-endian unsigned binary encoding of
    the count: bit [i] of the stream is bit [31 - i] of the count, and
    [int(..., 2)] reads the count back. *)
Theorem len_prefix_bits_32_big_endian (n_bytes : Z) :
  0 <= n_bytes < 2 ^ 32 ->
  length (_len_prefix_bits n_bytes) = 32%nat
  /\ int_of_bits (_len_prefix_bits n_bytes) = n_bytes
  /\ (forall i : nat, (i < 32)%nat ->
        _len_prefix_bits n_bytes !! i = Some (Z.testbit n_bytes (31 - Z.of_nat i))).
Proof.
  intros Hn. unfold _len_prefix_bits.
  assert (Hlen : length (format_0b 32 n_bytes) = 32%nat)
    by (apply format_0b_length; [lia|exact Hn]).
  assert (Hval : int_of_bits (format_0b 32 n_bytes) = n_bytes)
    by (apply format_0b_value; lia).
  split; [exact Hlen|]. split; [exact Hval|].
  intros i Hi. rewrite int_of_bits_testbit by lia.
  rewrite Hval, Hlen. do 2 f_equal. lia.
Qed.

Lemma len_prefix_bits_32_big_endian_witness :
  0 <= 13 < 2 ^ 32
  /\ length (_len_prefix_bits 13) = 32%nat
  /\ int_of_bits (_len_prefix_bits 13) = 13.
Proof.
  split; [lia|].
  destruct (len_prefix_bits_32_big_endian 13 ltac:(lia)) as (Hl & Hv & _).
  split; [exact Hl|exact Hv].
Defined.

(** The function does not test that range: [2^32] has no encoding on 32
    bits, [format] only pads, and the prefix has 33 bits. *)
Lemma len_prefix_bits_not_32_at_2_32 :
  ~ (forall n_bytes : Z, 0 <= n_bytes ->
       length (_len_prefix_bits n_bytes) = 32%nat
       /\ int_of_bits (_len_prefix_bits n_bytes) = n_bytes).
Proof.
  intros H. destruct (H (2 ^ 32) ltac:(lia)) as [Hlen _].
  vm_compute in Hlen. discriminate Hlen.
Qed.

(** ** Rounding and the coefficient nudge *)

(** C3 at the coefficient 0.5 with desired bit 1: the rounded parity is 0, the
    code nudges the coefficient to 1.5, and [round] takes 1.5 to 2, so the
    rounded parity is still 0.  The same happens at -0.5. *)
Theorem adjust_keeps_parity_at_half :
  coeff_parity (1 # 2) <> Z.b2z true
  /\ (adjust (1 # 2) == 3 # 2)%Q
  /\ coeff_parity (adjust (1 # 2)) <> Z.b2z true
  /\ coeff_parity (- (1 # 2)) <> Z.b2z true
  /\ (adjust (- (1 # 2)) == - (3 # 2))%Q
  /\ coeff_parity (adjust (- (1 # 2))) <> Z.b2z true.
Proof. vm_compute. repeat split; discriminate. Qed.

(** ** DCT plane on single blocks *)

(** C2 at the all-zero block with bit 1: the nudged block is +-1/8
    everywhere, clipping and the cast to [uint8] give the all-zero block
    back, and extraction reads 0. *)
Theorem dct_bit_lost_in_zero_block :
  dct_embed (mk_array 8 8 (replicate 64 0)) [true] 8 0
  = Ok (mk_array 8 8 (replicate 64 0))
  /\ dct_extract (mk_array 8 8 (replicate 64 0)) 1 8 0 = [false].
Proof. vm_compute. split; reflexivity. Qed.

(** The all-255 block with bit 1: the cast takes 254.875 to 254, coefficient
    (4,4) of the result is 4, and extraction reads 0. *)
Example dct_bit_lost_in_255_block :
  (try! stego := dct_embed (mk_array 8 8 (replicate 64 255)) [true] 8 0 in
   Ok (dct_extract stego 1 8 0)) = Ok [false].
Proof. vm_compute. reflexivity. Qed.

(** A bit that already matches the parity is kept. *)
Example dct_bit_kept_when_parity_matches :
  (try! stego := dct_embed (mk_array 8 8 (replicate 64 100)) [false] 8 0 in
   Ok (dct_extract stego 1 8 0)) = Ok [false].
Proof. vm_compute. reflexivity. Qed.

(** ** Strings *)

Lemma list_eqb_eq (a b : list Z) : list_eqb a b = true <-> a = b.
Proof.
  revert b. induction a as [|x a IH]; intros [|y b]; cbn; try (split; congruence).
  rewrite andb_true_iff, Z.eqb_eq, IH. split; [intros [-> ->]; reflexivity|].
  intros [= -> ->]. split; reflexivity.
Qed.

Lemma startswith_prefix (s p : pystr) :
  startswith s p = true <-> p `prefix_of` s.
Proof.
  unfold startswith. rewrite list_eqb_eq. split.
  - intros H. exists (drop (length p) s). rewrite <- H at 1. symmetry. apply take_drop.
  - intros [t ->]. rewrite take_app_length. reflexivity.
Qed.

Lemma endswith_suffix (s p : pystr) :
  endswith s p = true <-> p `suffix_of` s.
Proof.
  unfold endswith. rewrite andb_true_iff, Nat.leb_le, list_eqb_eq. split.
  - intros [_ H]. exists (take (length s - length p) s).
    pose proof (take_drop (length s - length p) s) as E.
    rewrite H in E. symmetry. exact E.
  - intros [t ->]. rewrite length_app. split; [lia|].
    replace (length t + length p - length p)%nat with (length t) by lia.
    apply drop_app_length.
Qed.

Lemma py_slice_prefix {A : Type} (s : list A) (n : nat) :
  py_slice s 0 (Z.of_nat n) = take n s.
Proof.
  unfold py_slice, norm_index. cbn [Z.ltb Z.compare].
  destruct (Z.of_nat n <? 0) eqn:E; [apply Z.ltb_lt in E; lia|].
  replace (Z.to_nat (Z.min 0 (Z.of_nat (length s)))) with 0%nat by lia.
  rewrite drop_0.
  destruct (decide (n <= length s)%nat).
  - f_equal. lia.
  - rewrite !take_ge by lia. reflexivity.
Qed.

Lemma py_slice_from_neg {A : Type} (s : list A) (n : nat) :
  (0 < n <= length s)%nat ->
  py_slice_from s (- Z.of_nat n) = drop (length s - n) s.
Proof.
  intros Hn. unfold py_slice_from, py_slice, norm_index.
  destruct (- Z.of_nat n <? 0) eqn:E; [|apply Z.ltb_ge in E; lia].
  destruct (Z.of_nat (length s) <? 0) eqn:E2; [apply Z.ltb_lt in E2; lia|].
  replace (Z.to_nat (Z.max 0 (- Z.of_nat n + Z.of_nat (length s))))
    with (length s - n)%nat by lia.
  apply take_ge. rewrite length_drop. lia.
Qed.

(** [s[16:-16]] is empty unless [s] has more than 32 characters. *)
Lemma py_slice_16_m16_short {A : Type} (s : list A) :
  (length s <= 32)%nat -> py_slice s 16 (-16) = [].
Proof.
  intros Hs. unfold py_slice, norm_index. cbn [Z.ltb Z.compare].
  assert (Z.to_nat (Z.max 0 (-16 + Z.of_nat (length s))
                    - Z.min 16 (Z.of_nat (length s))) = 0%nat) as -> by lia.
  reflexivity.
Qed.

Lemma py_slice_16_m16_wrapped {A : Type} (p inner s : list A) :
  length p = 16%nat -> length s = 16%nat ->
  py_slice (p ++ inner ++ s) 16 (-16) = inner.
Proof.
  intros Hp Hs. unfold py_slice, norm_index. cbn [Z.ltb Z.compare].
  rewrite !length_app, Hp, Hs.
  replace (Z.to_nat (Z.min 16 (Z.of_nat (16 + (length inner + 16)))))
    with (length p) by lia.
  rewrite drop_app_length.
  replace (Z.to_nat (Z.max 0 (-16 + Z.of_nat (16 + (length inner + 16)))
                     - Z.min 16 (Z.of_nat (16 + (length inner + 16)))))
    with (length inner) by lia.
  apply take_app_length.
Qed.

(** ** The digest has 64 characters *)

Lemma flat_map_length_const {A B : Type} (f : A -> list B) (k : nat) (l : list A) :
  (forall x, length (f x) = k) -> length (flat_map f l) = (k * length l)%nat.
Proof.
  intros Hf. induction l as [|x l IH]; cbn [flat_map length]; [lia|].
  rewrite length_app, Hf, IH. lia.
Qed.

Lemma sha_step_length (st : list Z) (kw : Z * Z) :
  length st = 8%nat -> length (Sha256.step st kw) = 8%nat.
Proof.
  intros H. do 9 (destruct st as [|? st]; try discriminate H); reflexivity.
Qed.

Lemma sha_steps_length (kws : list (Z * Z)) (st : list Z) :
  length st = 8%nat -> length (fold_left Sha256.step kws st) = 8%nat.
Proof.
  revert st. induction kws as [|kw kws IH]; intros st H; [exact H|].
  cbn [fold_left]. apply IH, sha_step_length, H.
Qed.

Lemma sha_compress_length (hash block : list Z) :
  length hash = 8%nat -> length (Sha256.compress hash block) = 8%nat.
Proof.
  intros H. unfold Sha256.compress.
  rewrite length_map, length_combine, sha_steps_length, H by exact H. reflexivity.
Qed.

Lemma sha_digest_words_length (msg : pybytes) :
  length (Sha256.digest_words msg) = 8%nat.
Proof.
  unfold Sha256.digest_words.
  generalize (Sha256.chunks (length (Sha256.pad msg)) 64 (Sha256.pad msg)).
  assert (H : length Sha256.initial_hash = 8%nat) by reflexivity.
  revert H. generalize Sha256.initial_hash.
  intros hash H blocks. revert hash H.
  induction blocks as [|b blocks IH]; intros hash H; [exact H|].
  cbn [fold_left]. apply IH, sha_compress_length, H.
Qed.

Lemma sha_be_bytes_length (n : nat) (x : Z) : length (Sha256.be_bytes n x) = n.
Proof. induction n as [|n IH]; cbn [Sha256.be_bytes length]; congruence. Qed.

Lemma hexdigest_length (msg : pybytes) : length (Sha256.hexdigest msg) = 64%nat.
Proof.
  unfold Sha256.hexdigest.
  rewrite (flat_map_length_const _ 2) by reflexivity.
  rewrite (flat_map_length_const _ 4) by (intros; apply sha_be_bytes_length).
  rewrite sha_digest_words_length. reflexivity.
Qed.

(** ** Key wrapping *)

Section KeyWrap.

Variables (key kb : pystr).
Hypothesis key_nonempty : key <> [].
Hypothesis key_encodes : utf8_encode key = Ok kb.

(** [h[:16]] and [h[-16:]] of the digest of the key. *)
Let pre : pystr := take 16 (Sha256.hexdigest kb).
Let suf : pystr := drop 48 (Sha256.hexdigest kb).

Lemma key_affix_lengths : length pre = 16%nat /\ length suf = 16%nat.
Proof.
  unfold pre, suf. rewrite length_take, length_drop, hexdigest_length. lia.
Qed.

Lemma apply_key_wrap_eq (message : pystr) :
  _apply_key_wrap message (Some key) = Ok (pre ++ message ++ suf).
Proof.
  unfold _apply_key_wrap, key_digest. rewrite key_encodes. cbn [bind].
  destruct key as [|c k] eqn:E; [contradiction|].
  change 16 with (Z.of_nat 16) at 1. rewrite py_slice_prefix.
  change (-16) with (- Z.of_nat 16).
  rewrite py_slice_from_neg by (rewrite hexdigest_length; lia).
  rewrite hexdigest_length. reflexivity.
Qed.

Lemma remove_key_wrap_eq (wrapped : pystr) :
  _remove_key_wrap wrapped (Some key)
  = Ok (if startswith wrapped pre && endswith wrapped suf
        then py_slice wrapped 16 (-16) else invalid_key).
Proof.
  unfold _remove_key_wrap, key_digest. rewrite key_encodes. cbn [bind].
  destruct key as [|c k] eqn:E; [contradiction|].
  change 16 with (Z.of_nat 16) at 1. rewrite py_slice_prefix.
  change (-16) with (- Z.of_nat 16) at 1.
  rewrite py_slice_from_neg by (rewrite hexdigest_length; lia).
  rewrite hexdigest_length. change (64 - 16)%nat with 48%nat.
  fold pre suf. destruct (startswith wrapped pre && endswith wrapped suf); reflexivity.
Qed.

Lemma remove_apply_key_wrap (message : pystr) :
  (try! wrapped := _apply_key_wrap message (Some key) in
   _remove_key_wrap wrapped (Some key)) = Ok message.
Proof.
  rewrite apply_key_wrap_eq. cbn [bind]. rewrite remove_key_wrap_eq.
  destruct key_affix_lengths as [Hp Hs].
  assert (startswith (pre ++ message ++ suf) pre = true) as ->
    by (apply startswith_prefix; eexists; reflexivity).
  assert (endswith (pre ++ message ++ suf) suf = true) as ->
    by (apply endswith_suffix; exists (pre ++ message); rewrite <- app_assoc; reflexivity).
  cbn [andb]. rewrite py_slice_16_m16_wrapped by assumption. reflexivity.
Qed.

End KeyWrap.

(** C6, as the code has it: with a non-empty key, [_remove_key_wrap] tests
    only that [wrapped] starts with the first 16 digest characters and ends
    with the last 16.  If both hold it returns [wrapped[16:-16]]: the inner
    text when [wrapped] is prefix + inner + suffix, and the empty string when
    [wrapped] is shorter than 32 characters (the two affixes overlap; no
    length test is made).  If one of them fails it returns the sentinel
    ["Invalid Key!"] as a normal value.  With an empty or absent key it
    returns [wrapped] unchanged. *)
Theorem remove_key_wrap_cases (wrapped key kb : pystr) :
  key <> [] ->
  utf8_encode key = Ok kb ->
  let pre := take 16 (Sha256.hexdigest kb) in
  let suf := drop 48 (Sha256.hexdigest kb) in
  (forall inner, wrapped = pre ++ inner ++ suf ->
     _remove_key_wrap wrapped (Some key) = Ok inner)
  /\ (pre `prefix_of` wrapped -> suf `suffix_of` wrapped ->
      (32 <= length wrapped)%nat ->
      exists inner, wrapped = pre ++ inner ++ suf)
  /\ (pre `prefix_of` wrapped -> suf `suffix_of` wrapped ->
      (length wrapped < 32)%nat ->
      _remove_key_wrap wrapped (Some key) = Ok [])
  /\ (~ (pre `prefix_of` wrapped /\ suf `suffix_of` wrapped) ->
      _remove_key_wrap wrapped (Some key) = Ok invalid_key)
  /\ _remove_key_wrap wrapped None = Ok wrapped
  /\ _remove_key_wrap wrapped (Some []) = Ok wrapped.
Proof.
  intros Hne Henc pre suf.
  destruct (key_affix_lengths kb) as [Hp Hs]. fold pre suf in Hp, Hs.
  pose proof (remove_key_wrap_eq key kb Hne Henc wrapped) as Heq.
  cbv zeta in Heq. fold pre suf in Heq.
  repeat split.
  - intros inner ->. rewrite Heq.
    assert (startswith (pre ++ inner ++ suf) pre = true) as ->
      by (apply startswith_prefix; eexists; reflexivity).
    assert (endswith (pre ++ inner ++ suf) suf = true) as ->
      by (apply endswith_suffix; exists (pre ++ inner); rewrite <- app_assoc; reflexivity).
    cbn [andb]. rewrite py_slice_16_m16_wrapped by assumption. reflexivity.
  - intros [t Ht] [u Hu] Hlen.
    assert (Hu16 : (16 <= length u)%nat).
    { pose proof (f_equal length Hu) as E. rewrite length_app in E. lia. }
    assert (Hd : drop (length u) wrapped = suf)
      by (rewrite Hu; apply drop_app_length).
    exists (take (length u - 16) t).
    rewrite Ht in Hd |- *. f_equal.
    rewrite drop_app_ge in Hd by lia. rewrite Hp in Hd.
    rewrite <- Hd. symmetry. apply take_drop.
  - intros Hpre Hsuf Hlen. rewrite Heq.
    apply startswith_prefix in Hpre. apply endswith_suffix in Hsuf.
    rewrite Hpre, Hsuf. cbn [andb].
    rewrite py_slice_16_m16_short by lia. reflexivity.
  - intros Hnot. rewrite Heq.
    destruct (startswith wrapped pre) eqn:E1; [|reflexivity].
    destruct (endswith wrapped suf) eqn:E2; [|reflexivity].
    exfalso. apply Hnot. split.
    + apply startswith_prefix, E1.
    + apply endswith_suffix, E2.
Qed.

Lemma remove_key_wrap_cases_witness :
  str "abc" <> []
  /\ utf8_encode (str "abc") = Ok (str "abc")
  /\ _remove_key_wrap (str "ba7816bf8f01cfeaHib410ff61f20015ad") (Some (str "abc"))
     = Ok (str "Hi").
Proof.
  split; [discriminate|]. split; [reflexivity|].
  pose proof (remove_key_wrap_cases (str "ba7816bf8f01cfeaHib410ff61f20015ad")
                (str "abc") (str "abc") ltac:(discriminate) eq_refl) as H.
  cbv zeta in H. destruct H as [H _]. apply H. vm_compute. reflexivity.
Defined.

(** C6, as the spec states it, fails for the key ["5"], whose digest
    [ef2d127de37b942b...bec78f5564afe39d] has the same character at positions
    15 and 48: the 31-character string below starts with the first 16
    characters and ends with the last 16, which overlap by one.  The spec
    asks for the sentinel, the code returns the empty string. *)
Lemma remove_key_wrap_overlap_counterexample :
  length (str "ef2d127de37b942bec78f5564afe39d") = 31%nat
  /\ unwrap_as_specified (str "ef2d127de37b942bec78f5564afe39d") (Some (str "5"))
     = Ok invalid_key
  /\ _remove_key_wrap (str "ef2d127de37b942bec78f5564afe39d") (Some (str "5"))
     = Ok []
  /\ _remove_key_wrap (str "ef2d127de37b942bec78f5564afe39d") (Some (str "5"))
     <> unwrap_as_specified (str "ef2d127de37b942bec78f5564afe39d") (Some (str "5")).
Proof. vm_compute. repeat split; try reflexivity. discriminate. Qed.

(** ** LSB plane *)

Lemma get_set_lsb (v : Z) (b : bool) : get_lsb (set_lsb v b) = b.
Proof.
  unfold get_lsb, set_lsb.
  rewrite Z.land_lor_distr_l, <- !Z.land_assoc. change (Z.land 254 1) with 0.
  change (Z.land 1 1) with 1. rewrite Z.land_0_r, Z.lor_0_l.
  destruct b; reflexivity.
Qed.

Lemma set_lsb_testbit (v : Z) (b : bool) (k : Z) :
  is_uint8 v ->
  Z.testbit (set_lsb v b) k = if k =? 0 then b else Z.testbit v k.
Proof.
  intros Hv. unfold set_lsb.
  destruct (Z.ltb_spec k 0) as [Hk|Hk].
  { rewrite !Z.testbit_neg_r by lia. destruct (Z.eqb_spec k 0); [lia|reflexivity]. }
  rewrite Z.lor_spec, !Z.land_spec.
  destruct (Z.eqb_spec k 0) as [->|Hk0].
  - cbn. destruct b; cbn; rewrite ?andb_false_r; reflexivity.
  - assert (Z.testbit (Z.b2z b) k = false) as ->.
    { destruct b; cbn [Z.b2z]; [|apply Z.testbit_0_l].
      replace k with (Z.succ (k - 1)) by lia.
      change 1 with (2 * 0 + Z.b2z true) at 1.
      rewrite Z.testbit_succ_r by lia. apply Z.testbit_0_l. }
    rewrite andb_false_l, orb_false_r.
    destruct (Z.ltb_spec k 8) as [Hk8|Hk8].
    + assert (Z.testbit 254 k = true) as ->.
      { assert (k = 1 \/ k = 2 \/ k = 3 \/ k = 4 \/ k = 5 \/ k = 6 \/ k = 7) as Hc by lia.
        destruct Hc as [->|[->|[->|[->|[->|[->| ->]]]]]]; reflexivity. }
      apply andb_true_r.
    + assert (Z.testbit v k = false) as ->; [|reflexivity].
      destruct (Z.eq_dec v 0) as [->|Hv0]; [apply Z.testbit_0_l|].
      apply Z.bits_above_log2; [unfold is_uint8 in Hv; lia|].
      apply Z.log2_lt_pow2; [unfold is_uint8 in Hv; lia|].
      unfold is_uint8 in Hv.
      apply Z.lt_le_trans with (2 ^ 8); [lia|].
      apply Z.pow_le_mono_r; lia.
Qed.

Lemma set_lsb_uint8 (v : Z) (b : bool) : is_uint8 v -> is_uint8 (set_lsb v b).
Proof.
  intros Hv. unfold is_uint8.
  assert (Hnn : 0 <= set_lsb v b).
  { unfold set_lsb. apply Z.lor_nonneg. split.
    - apply Z.land_nonneg. right. lia.
    - apply Z.land_nonneg. right. lia. }
  split; [exact Hnn|].
  destruct (Z.eq_dec (set_lsb v b) 0) as [->|Hne]; [lia|].
  apply Z.log2_lt_cancel. change (Z.log2 256) with 8.
  destruct (Z.lt_ge_cases (Z.log2 (set_lsb v b)) 8) as [Hlt|Hge]; [exact Hlt|].
  exfalso.
  pose proof (Z.bit_log2 (set_lsb v b) ltac:(lia)) as Hbit.
  rewrite set_lsb_testbit in Hbit by exact Hv.
  destruct (Z.eqb_spec (Z.log2 (set_lsb v b)) 0) as [E|_]; [lia|].
  destruct (Z.eq_dec v 0) as [->|Hv0]; [rewrite Z.testbit_0_l in Hbit; discriminate|].
  rewrite Z.bits_above_log2 in Hbit; [discriminate|unfold is_uint8 in Hv; lia|].
  unfold is_uint8 in Hv.
  assert (Z.log2 v < 8); [|lia].
  apply Z.log2_lt_pow2; lia.
Qed.

(** The loop writes the LSBs of [flat[idx .. idx + len(bits))] and nothing
    else. *)
Lemma lsb_embed_loop_spec (bits : list bool) (idx : nat) (flat : list Z) :
  (idx + length bits <= length flat)%nat ->
  exists flat',
    lsb_embed_loop bits idx flat = Ok flat'
    /\ length flat' = length flat
    /\ (forall i b, bits !! i = Some b ->
          flat' !! (idx + i)%nat = (fun v => set_lsb v b) <$> flat !! (idx + i)%nat)
    /\ (forall j, (j < idx \/ idx + length bits <= j)%nat -> flat' !! j = flat !! j).
Proof.
  revert idx flat. induction bits as [|bit bits IH]; intros idx flat Hlen.
  - exists flat. split; [reflexivity|]. split; [reflexivity|]. split.
    + intros i b H. rewrite lookup_nil in H. discriminate H.
    + reflexivity.
  - cbn [length] in Hlen. cbn [lsb_embed_loop].
    destruct (lookup_lt_is_Some_2 flat idx ltac:(lia)) as [v Hv]. rewrite Hv.
    destruct (IH (S idx) (<[idx := set_lsb v bit]> flat)) as (flat' & Hrun & Hl & Hin & Hout).
    { rewrite length_insert. lia. }
    exists flat'. split; [exact Hrun|]. rewrite length_insert in Hl.
    split; [exact Hl|]. split.
    + intros [|i] b Hb.
      * cbn in Hb. injection Hb as <-. rewrite Nat.add_0_r.
        rewrite Hout by lia. rewrite list_lookup_insert_eq by lia. rewrite Hv. reflexivity.
      * cbn in Hb. replace (idx + S i)%nat with (S idx + i)%nat by lia.
        rewrite (Hin i b Hb). rewrite list_lookup_insert_ne by lia. reflexivity.
    + intros j Hj. cbn [length] in Hj. rewrite Hout by lia.
      apply list_lookup_insert_ne. lia.
Qed.

Lemma lsb_embed_spec (c : channel) (bits : list bool) (start : nat) :
  length (data c) = size c ->
  (start + length bits <= size c)%nat ->
  exists flat',
    lsb_embed c bits start = Ok (mk_array (rows c) (cols c) flat')
    /\ length flat' = length (data c)
    /\ (forall i b, bits !! i = Some b ->
          flat' !! (start + i)%nat
          = (fun v => set_lsb v b) <$> data c !! (start + i)%nat)
    /\ (forall j, (j < start \/ start + length bits <= j)%nat ->
          flat' !! j = data c !! j).
Proof.
  intros Hwf Hcap. unfold lsb_embed.
  destruct (Nat.ltb_spec (size c) (start + length bits)) as [Hlt|_]; [lia|].
  destruct (lsb_embed_loop_spec bits start (data c)) as (flat' & Hrun & Hrest); [lia|].
  exists flat'. rewrite Hrun. split; [reflexivity|exact Hrest].
Qed.

Lemma lsb_embed_too_small (c : channel) (bits : list bool) (start : nat) :
  (size c < start + length bits)%nat ->
  lsb_embed c bits start = Raise (ValueError capacity_error_lsb).
Proof.
  intros H. unfold lsb_embed.
  destruct (Nat.ltb_spec (size c) (start + length bits)); [reflexivity|lia].
Qed.

Lemma lsb_extract_length (c : channel) (n : Z) :
  length (data c) = size c -> 0 <= n ->
  length (lsb_extract c n 0) = Nat.min (Z.to_nat n) (size c).
Proof.
  intros Hwf Hn. unfold lsb_extract.
  destruct (Nat.leb_spec (size c) 0) as [H0|H0]; [cbn; lia|].
  rewrite length_map, length_take, drop_0, Hwf. lia.
Qed.

Lemma lsb_extract_length_le (c : channel) (n : Z) :
  (length (lsb_extract c n 0) <= size c)%nat.
Proof.
  unfold lsb_extract.
  destruct (Nat.leb_spec (size c) 0) as [H0|H0]; [cbn; lia|].
  rewrite length_map, length_take. lia.
Qed.

(** Reading back the plane written by [lsb_embed] gives the bits written. *)
Lemma lsb_extract_embed (c : channel) (bits : list bool) (flat' : list Z) (n : nat) :
  length flat' = size c ->
  (forall i b, bits !! i = Some b -> get_lsb <$> flat' !! i = Some b) ->
  (n <= length bits)%nat ->
  (length bits <= size c)%nat ->
  lsb_extract (mk_array (rows c) (cols c) flat') (Z.of_nat n) 0 = take n bits.
Proof.
  intros Hlen Hbits Hn Hcap. unfold lsb_extract. cbn [data]. unfold size. cbn [rows cols].
  fold (size c).
  destruct (Nat.leb_spec (size c) 0) as [H0|H0].
  { assert (n = 0%nat) as -> by lia. reflexivity. }
  rewrite drop_0.
  replace (Z.to_nat (Z.min (Z.of_nat n) (Z.of_nat (size c - 0)))) with n by lia.
  apply list_eq. intros i. rewrite list_lookup_fmap.
  destruct (decide (i < n)%nat) as [Hi|Hi].
  - rewrite !lookup_take_lt by lia.
    destruct (lookup_lt_is_Some_2 bits i ltac:(lia)) as [b Hb].
    rewrite Hb. apply Hbits, Hb.
  - rewrite !lookup_take_ge by lia. reflexivity.
Qed.

(** ** Channels and images *)

Lemma zip3_length (b g r : list Z) :
  length g = length b -> length r = length b -> length (zip3 b g r) = length b.
Proof.
  revert g r. induction b as [|x b IH]; intros [|y g] [|z r] Hg Hr;
    cbn in *; try lia. f_equal. apply IH; lia.
Qed.

Lemma zip3_blue (b g r : list Z) :
  length g = length b -> length r = length b ->
  map (fun p => fst (fst p)) (zip3 b g r) = b.
Proof.
  revert g r. induction b as [|x b IH]; intros [|y g] [|z r] Hg Hr;
    cbn in *; try lia; [reflexivity|]. f_equal. apply IH; lia.
Qed.

Lemma zip3_green (b g r : list Z) :
  length g = length b -> length r = length b ->
  map (fun p => snd (fst p)) (zip3 b g r) = g.
Proof.
  revert g r. induction b as [|x b IH]; intros [|y g] [|z r] Hg Hr;
    cbn in *; try lia; [reflexivity|]. f_equal. apply IH; lia.
Qed.

Lemma zip3_red (b g r : list Z) :
  length g = length b -> length r = length b ->
  map (fun p => snd p) (zip3 b g r) = r.
Proof.
  revert g r. induction b as [|x b IH]; intros [|y g] [|z r] Hg Hr;
    cbn in *; try lia; [reflexivity|]. f_equal. apply IH; lia.
Qed.

Lemma zip3_split (l : list (Z * Z * Z)) :
  zip3 (map (fun p => fst (fst p)) l) (map (fun p => snd (fst p)) l)
       (map (fun p => snd p) l) = l.
Proof.
  induction l as [|[[x y] z] l IH]; [reflexivity|]. cbn. f_equal. exact IH.
Qed.

(** The planes of a merged image, when the three planes have one size. *)
Lemma split_merge (h w : nat) (b g r : list Z) :
  length g = length b -> length r = length b ->
  cv2_split (cv2_merge (mk_array h w b) (mk_array h w g) (mk_array h w r))
  = (mk_array h w b, mk_array h w g, mk_array h w r).
Proof.
  intros Hg Hr. unfold cv2_split, cv2_merge. cbn [rows cols data].
  rewrite zip3_blue, zip3_green, zip3_red by assumption. reflexivity.
Qed.

Lemma channel_eta (c : channel) : mk_array (rows c) (cols c) (data c) = c.
Proof. destruct c. reflexivity. Qed.

Lemma split_planes (im : image) :
  cv2_split im = (blue im, green im, red im).
Proof. unfold blue, green, red. destruct (cv2_split im) as [[b g] r]. reflexivity. Qed.

Lemma plane_shapes (im : image) :
  rows (blue im) = rows im /\ cols (blue im) = cols im
  /\ rows (green im) = rows im /\ cols (green im) = cols im
  /\ rows (red im) = rows im /\ cols (red im) = cols im
  /\ length (data (blue im)) = length (data im)
  /\ length (data (green im)) = length (data im)
  /\ length (data (red im)) = length (data im).
Proof.
  unfold blue, green, red, cv2_split. cbn [fst snd rows cols data].
  rewrite !length_map. repeat split; reflexivity.
Qed.

Lemma wf_planes (im : image) :
  wf_image im -> wf_channel (blue im) /\ wf_channel (green im) /\ wf_channel (red im).
Proof.
  intros [Hlen Hall]. unfold wf_channel, blue, green, red, cv2_split, size in *.
  cbn [fst snd rows cols data]. rewrite !length_map.
  repeat split; try exact Hlen; apply Forall_fmap; eapply Forall_impl; try exact Hall;
    intros [[x y] z] (Hx & Hy & Hz); assumption.
Qed.

(** ** DCT plane: what the block loop touches *)

Lemma write_block_length {A : Type} (a : list A) (idxs : list nat) (vals : list A) :
  length (write_block a idxs vals) = length a.
Proof.
  revert a vals. induction idxs as [|i idxs IH]; intros a [|v vals]; cbn; try reflexivity.
  rewrite IH. apply length_insert.
Qed.

Lemma write_block_other {A : Type} (a : list A) (idxs : list nat) (vals : list A) (j : nat) :
  j ∉ idxs -> write_block a idxs vals !! j = a !! j.
Proof.
  revert a vals. induction idxs as [|i idxs IH]; intros a [|v vals] Hj; cbn; try reflexivity.
  rewrite IH by (intros H; apply Hj; right; exact H).
  apply list_lookup_insert_ne. intros ->. apply Hj. left.
Qed.

Lemma block_indices_elem (h w bs sy sx j : nat) :
  j ∈ block_indices h w bs sy sx ->
  exists y x, j = (y * w + x)%nat
              /\ (sy <= y < Nat.min (sy + bs) h)%nat
              /\ (sx <= x < Nat.min (sx + bs) w)%nat.
Proof.
  unfold block_indices. rewrite list_elem_of_In, in_flat_map.
  intros (y & Hy & Hj). apply in_map_iff in Hj as (x & <- & Hx).
  apply in_seq in Hy, Hx. exists y, x. split; [reflexivity|]. lia.
Qed.

Lemma dct_embed_block_length (h w bs : nat) (emb : list Q) (by_ bx : nat) (d : bool) :
  length (dct_embed_block h w bs emb by_ bx d) = length emb.
Proof. unfold dct_embed_block. apply write_block_length. Qed.

Lemma dct_embed_block_other (h w bs : nat) (emb : list Q) (by_ bx : nat) (d : bool) (j : nat) :
  j ∉ block_indices h w bs (by_ * bs) (bx * bs) ->
  dct_embed_block h w bs emb by_ bx d !! j = emb !! j.
Proof. intros H. unfold dct_embed_block. apply write_block_other, H. Qed.

Lemma dct_embed_loop_length (h w bs : nat) (coords : list (nat * nat))
    (bits : list bool) (bit_idx : nat) (emb : list Q) :
  length (dct_embed_loop h w bs coords bits bit_idx emb) = length emb.
Proof.
  revert bit_idx emb. induction coords as [|[by_ bx] coords IH]; intros bit_idx emb;
    cbn [dct_embed_loop]; [reflexivity|].
  destruct (bits !! bit_idx); [|reflexivity].
  rewrite IH. apply dct_embed_block_length.
Qed.

(** A sample outside the blocks that receive a bit keeps its value. *)
Lemma dct_embed_loop_other (h w bs : nat) (coords : list (nat * nat))
    (bits : list bool) (bit_idx : nat) (emb : list Q) (j : nat) :
  (forall k by_ bx, coords !! k = Some (by_, bx) ->
      (bit_idx + k < length bits)%nat ->
      j ∉ block_indices h w bs (by_ * bs) (bx * bs)) ->
  dct_embed_loop h w bs coords bits bit_idx emb !! j = emb !! j.
Proof.
  revert bit_idx emb. induction coords as [|[by_ bx] coords IH]; intros bit_idx emb Hj;
    cbn [dct_embed_loop]; [reflexivity|].
  destruct (bits !! bit_idx) as [d|] eqn:Hd; [|reflexivity].
  rewrite IH.
  - apply dct_embed_block_other. apply (Hj 0%nat); [reflexivity|].
    apply lookup_lt_Some in Hd. lia.
  - intros k by' bx' Hk Hlt. apply (Hj (S k)); [exact Hk|lia].
Qed.

Lemma grid_lookup {A : Type} (f : nat -> nat -> A) (n a m k : nat) (v : A) :
  flat_map (fun y => map (f y) (seq 0 n)) (seq a m) !! k = Some v ->
  exists y x, v = f y x /\ (a <= y < a + m)%nat /\ (x < n)%nat
              /\ k = ((y - a) * n + x)%nat.
Proof.
  revert a k. induction m as [|m IH]; intros a k Hk; [discriminate Hk|].
  cbn [seq flat_map] in Hk.
  destruct (decide (k < n)%nat) as [Hlt|Hge].
  - rewrite lookup_app_l in Hk by (rewrite length_map, length_seq; exact Hlt).
    rewrite list_lookup_fmap, lookup_seq_lt in Hk by exact Hlt.
    injection Hk as <-. exists a, k. split; [reflexivity|]. lia.
  - rewrite lookup_app_r in Hk by (rewrite length_map, length_seq; lia).
    rewrite length_map, length_seq in Hk.
    destruct (IH (S a) (k - n)%nat Hk) as (y & x & Hv & Hy & Hx & Hkn).
    exists y, x. split; [exact Hv|]. split; [lia|]. split; [exact Hx|].
    replace (y - a)%nat with (S (y - S a)) by lia. cbn [Nat.mul]. lia.
Qed.

Lemma block_coords_lookup (blocks_y blocks_x k by_ bx : nat) :
  block_coords blocks_y blocks_x !! k = Some (by_, bx) ->
  (by_ < blocks_y)%nat /\ (bx < blocks_x)%nat /\ k = (by_ * blocks_x + bx)%nat.
Proof.
  intros H. apply (grid_lookup (fun y x => (y, x))) in H as (y & x & Hv & Hy & Hx & Hk).
  injection Hv as -> ->. rewrite Nat.sub_0_r in Hk. lia.
Qed.

Lemma block_coords_length (blocks_y blocks_x : nat) :
  length (block_coords blocks_y blocks_x) = (blocks_y * blocks_x)%nat.
Proof.
  unfold block_coords.
  rewrite (flat_map_length_const _ blocks_x)
    by (intros; rewrite length_map, length_seq; reflexivity).
  rewrite length_seq. lia.
Qed.

Lemma row_major_unique (w y x y' x' : nat) :
  (x < w)%nat -> (x' < w)%nat -> (y * w + x = y' * w + x')%nat -> y = y' /\ x = x'.
Proof.
  intros Hx Hx' H.
  assert (y = y') as ->.
  { destruct (Nat.lt_trichotomy y y') as [Hlt|[Heq|Hgt]]; [exfalso|exact Heq|exfalso].
    - assert ((y + 1) * w <= y' * w)%nat by (apply Nat.mul_le_mono_r; lia). lia.
    - assert ((y' + 1) * w <= y * w)%nat by (apply Nat.mul_le_mono_r; lia). lia. }
  split; [reflexivity|lia].
Qed.

Lemma clip_uint8 (v : Z) : is_uint8 v -> clip_to_uint8 (inject_Z v) = v.
Proof.
  intros [H0 H255]. unfold clip_to_uint8, to_uint8, np_clip.
  assert (Hmin : (Qmin 255 (inject_Z v) == inject_Z v)%Q).
  { apply Q.min_r. change 255%Q with (inject_Z 255). rewrite <- Zle_Qle. lia. }
  assert (Hmax : (Qmax 0 (Qmin 255 (inject_Z v)) == inject_Z v)%Q).
  { rewrite Hmin. apply Q.max_r. change 0%Q with (inject_Z 0). rewrite <- Zle_Qle. lia. }
  rewrite Hmax. apply Qfloor_Z.
Qed.

Lemma clip_range (q : Q) : is_uint8 (clip_to_uint8 q).
Proof.
  unfold clip_to_uint8, to_uint8, np_clip, is_uint8.
  assert (H0 : (0 <= Qmax 0 (Qmin 255 q))%Q) by apply Q.le_max_l.
  assert (H255 : (Qmax 0 (Qmin 255 q) <= 255)%Q).
  { apply Q.max_lub; [discriminate|apply Q.le_min_l]. }
  split.
  - change 0 with (Qfloor 0). apply Qfloor_resp_le, H0.
  - apply Qfloor_resp_le in H255. change (Qfloor 255) with 255 in H255. lia.
Qed.

Lemma dct_embed_spec (g : channel) (bits : list bool) :
  wf_channel g ->
  (length bits <= rows g / 8 * (cols g / 8))%nat ->
  exists data',
    dct_embed g bits 8 0 = Ok (mk_array (rows g) (cols g) data')
    /\ length data' = length (data g)
    /\ Forall is_uint8 data'
    /\ (forall y x, (y < rows g)%nat -> (x < cols g)%nat ->
          in_carrier_block (rows g) (cols g) (length bits) y x = false ->
          data' !! (y * cols g + x)%nat = data g !! (y * cols g + x)%nat).
Proof.
  intros [Hlen Hall] Hcap. unfold dct_embed.
  destruct (Nat.ltb_spec (rows g / 8 * (cols g / 8)) (0 + length bits)) as [Hlt|_]; [lia|].
  eexists. split; [reflexivity|]. split; [|split].
  - rewrite length_map, dct_embed_loop_length, length_map. reflexivity.
  - apply Forall_fmap, Forall_forall. intros q _. apply clip_range.
  - intros y x Hy Hx Hnc. rewrite list_lookup_fmap, dct_embed_loop_other.
    + rewrite list_lookup_fmap.
      destruct (data g !! (y * cols g + x)%nat) as [v|] eqn:Hv; [|reflexivity].
      cbn. f_equal. apply clip_uint8.
      rewrite Forall_forall in Hall. apply Hall. eapply list_elem_of_lookup_2, Hv.
    + intros k by_ bx Hk Hkn Hin.
      apply block_coords_lookup in Hk as (Hby & Hbx & ->).
      apply block_indices_elem in Hin as (y' & x' & Hj & Hy' & Hx').
      destruct (row_major_unique (cols g) y x y' x') as [<- <-]; [lia|lia|exact Hj|].
      assert (Hyb : (y / 8 = by_)%nat) by (symmetry; apply (Nat.div_unique y 8 by_ (y - by_ * 8)); lia).
      assert (Hxb : (x / 8 = bx)%nat) by (symmetry; apply (Nat.div_unique x 8 bx (x - bx * 8)); lia).
      unfold in_carrier_block in Hnc. rewrite Hyb, Hxb in Hnc.
      destruct (Nat.ltb_spec by_ (rows g / 8)); [|lia].
      destruct (Nat.ltb_spec bx (cols g / 8)); [|lia].
      destruct (Nat.ltb_spec (by_ * (cols g / 8) + bx) (length bits)); [discriminate Hnc|lia].
Qed.

Lemma dct_embed_too_small (g : channel) (bits : list bool) :
  (rows g / 8 * (cols g / 8) < length bits)%nat ->
  dct_embed g bits 8 0 = Raise (ValueError capacity_error_dct).
Proof.
  intros H. unfold dct_embed.
  destruct (Nat.ltb_spec (rows g / 8 * (cols g / 8)) (0 + length bits)); [reflexivity|lia].
Qed.

(** ** Hybrid allocator *)

Lemma hybrid_embed_too_large (im : image) (bits : list bool) :
  (total_capacity (rows im) (cols im) < length bits)%nat ->
  hybrid_embed im bits
  = Raise (ValueError (payload_too_large (length bits)
                         (total_capacity (rows im) (cols im)))).
Proof.
  intros H. unfold hybrid_embed, cv2_split, size, total_capacity in *. cbn [rows cols].
  destruct (Nat.ltb_spec (rows im * cols im + rows im / 8 * (cols im / 8)) (length bits));
    [reflexivity|lia].
Qed.

(** The bits fit in the blue plane: the green plane is passed through. *)
Lemma hybrid_embed_lsb_only (im : image) (bits : list bool) :
  wf_image im ->
  (length bits <= size im)%nat ->
  exists flat',
    hybrid_embed im bits
    = Ok (cv2_merge (mk_array (rows im) (cols im) flat') (green im) (red im))
    /\ length flat' = length (data im)
    /\ (forall i b, bits !! i = Some b ->
          flat' !! i = (fun v => set_lsb v b) <$> data (blue im) !! i)
    /\ (forall j, (length bits <= j)%nat -> flat' !! j = data (blue im) !! j).
Proof.
  intros [Hlen Hall] Hfit.
  destruct (lsb_embed_spec (blue im) bits 0) as (flat' & Hrun & Hl & Hin & Hout).
  { unfold blue, cv2_split, size. cbn [fst rows cols data]. rewrite length_map. exact Hlen. }
  { unfold blue, cv2_split, size. cbn [fst rows cols data]. cbn. exact Hfit. }
  exists flat'. unfold hybrid_embed. rewrite split_planes.
  assert (Hsz : size (blue im) = size im) by reflexivity.
  assert (Hg : rows (green im) = rows im /\ cols (green im) = cols im) by (split; reflexivity).
  destruct Hg as [-> ->]. rewrite Hsz.
  destruct (Nat.ltb_spec (size im + rows im / 8 * (cols im / 8)) (length bits)); [lia|].
  destruct (Nat.leb_spec (length bits) (size im)); [|lia].
  rewrite Hrun. cbn [bind]. split; [reflexivity|].
  split; [rewrite Hl; unfold blue, cv2_split; cbn [fst data]; apply length_map|].
  split.
  - intros i b Hb. apply (Hin i b Hb).
  - intros j Hj. apply Hout. right. cbn. exact Hj.
Qed.

(** The bits overflow the blue plane: it is filled, and the rest goes to the
    blocks of the green plane. *)
Lemma hybrid_embed_overflow (im : image) (bits : list bool) :
  wf_image im ->
  (size im < length bits <= total_capacity (rows im) (cols im))%nat ->
  exists flat' gdata',
    hybrid_embed im bits
    = Ok (cv2_merge (mk_array (rows im) (cols im) flat')
                    (mk_array (rows im) (cols im) gdata') (red im))
    /\ length flat' = length (data im)
    /\ length gdata' = length (data im)
    /\ Forall is_uint8 gdata'
    /\ (forall i b, (i < size im)%nat -> bits !! i = Some b ->
          flat' !! i = (fun v => set_lsb v b) <$> data (blue im) !! i)
    /\ (forall y x, (y < rows im)%nat -> (x < cols im)%nat ->
          in_carrier_block (rows im) (cols im) (length bits - size im) y x = false ->
          gdata' !! (y * cols im + x)%nat = data (green im) !! (y * cols im + x)%nat).
Proof.
  intros Hwf [Hover Hcap]. pose proof Hwf as [Hlen Hall].
  destruct (wf_planes im Hwf) as (Hwb & Hwg & _).
  assert (Hsz : size (blue im) = size im) by reflexivity.
  destruct (lsb_embed_spec (blue im) (take (size im) bits) 0)
    as (flat' & Hrun & Hl & Hin & Hout).
  { apply Hwb. }
  { rewrite length_take. lia. }
  destruct (dct_embed_spec (green im) (drop (size im) bits) Hwg)
    as (gdata' & Hgrun & Hgl & Hgall & Hgother).
  { rewrite length_drop. unfold total_capacity, size in *.
    change (rows (green im)) with (rows im). change (cols (green im)) with (cols im). lia. }
  exists flat', gdata'. unfold hybrid_embed. rewrite split_planes.
  change (rows (green im)) with (rows im) in *.
  change (cols (green im)) with (cols im) in *.
  change (rows (blue im)) with (rows im) in *.
  change (cols (blue im)) with (cols im) in *.
  rewrite Hsz.
  unfold total_capacity, size in Hcap. fold (size im) in Hcap.
  destruct (Nat.ltb_spec (size im + rows im / 8 * (cols im / 8)) (length bits)); [lia|].
  destruct (Nat.leb_spec (length bits) (size im)); [lia|].
  rewrite Hrun. cbn [bind]. rewrite Hgrun. cbn [bind].
  split; [reflexivity|].
  split; [rewrite Hl; apply plane_shapes|].
  split; [rewrite Hgl; apply plane_shapes|].
  split; [exact Hgall|]. split.
  - intros i b Hi Hb. apply (Hin i b). rewrite lookup_take_lt by exact Hi. exact Hb.
  - intros y x Hy Hx Hnc. apply Hgother; [exact Hy|exact Hx|].
    rewrite length_drop. exact Hnc.
Qed.

Lemma merged_planes (im : image) (flat' gdata' : list Z) :
  length flat' = length (data im) ->
  length gdata' = length (data im) ->
  let out := cv2_merge (mk_array (rows im) (cols im) flat')
                       (mk_array (rows im) (cols im) gdata') (red im) in
  rows out = rows im /\ cols out = cols im
  /\ length (data out) = length (data im)
  /\ blue out = mk_array (rows im) (cols im) flat'
  /\ green out = mk_array (rows im) (cols im) gdata'
  /\ red out = red im.
Proof.
  intros Hb Hg out.
  assert (Hr : length (data (red im)) = length (data im)) by apply plane_shapes.
  assert (Hsplit : cv2_split out
                   = (mk_array (rows im) (cols im) flat',
                      mk_array (rows im) (cols im) gdata', red im)).
  { unfold out. rewrite <- (channel_eta (red im)) at 1.
    change (rows (red im)) with (rows im). change (cols (red im)) with (cols im).
    rewrite split_merge by congruence.
    rewrite <- (channel_eta (red im)) at 2. reflexivity. }
  split; [reflexivity|]. split; [reflexivity|].
  split.
  { unfold out, cv2_merge. cbn [data]. rewrite zip3_length; congruence. }
  unfold blue, green, red at 1. rewrite Hsplit. repeat split; reflexivity.
Qed.

(** C5: if the bit stream is no longer than the number of samples of the blue
    plane, [hybrid_embed] succeeds and the green plane of its result is the
    green plane of the input, sample for sample. *)
Theorem hybrid_embed_keeps_green (im : image) (bits : list bool) :
  wf_image im ->
  (length bits <= size (blue im))%nat ->
  exists out, hybrid_embed im bits = Ok out /\ green out = green im.
Proof.
  intros Hwf Hfit.
  destruct (hybrid_embed_lsb_only im bits Hwf Hfit) as (flat' & Hrun & Hl & _).
  eexists. split; [exact Hrun|].
  rewrite <- (channel_eta (green im)) at 1.
  change (rows (green im)) with (rows im). change (cols (green im)) with (cols im).
  destruct (merged_planes im flat' (data (green im)) Hl) as (_ & _ & _ & _ & Hg & _).
  { apply plane_shapes. }
  rewrite Hg. exact (channel_eta (green im)).
Qed.

Lemma hybrid_embed_keeps_green_witness :
  wf_image (mk_array 2 2 [(10, 20, 30); (11, 21, 31); (12, 22, 32); (13, 23, 33)])
  /\ exists out,
       hybrid_embed (mk_array 2 2 [(10, 20, 30); (11, 21, 31); (12, 22, 32); (13, 23, 33)])
                    [true; false; true] = Ok out
       /\ green out = mk_array 2 2 [20; 21; 22; 23].
Proof.
  assert (Hwf : wf_image (mk_array 2 2 [(10, 20, 30); (11, 21, 31); (12, 22, 32); (13, 23, 33)])).
  { split; [reflexivity|]. repeat constructor; cbn; lia. }
  split; [exact Hwf|].
  apply (hybrid_embed_keeps_green _ [true; false; true] Hwf).
  cbn. lia.
Defined.

(** ** Extraction *)

Lemma dct_extract_loop_length (h w bs : nat) (gray : list Z)
    (coords : list (nat * nat)) (n bit_idx : Z) (extracted : list bool) :
  (length (dct_extract_loop h w bs gray coords n bit_idx extracted)
   <= length extracted + Z.to_nat (n - bit_idx))%nat.
Proof.
  revert bit_idx extracted.
  induction coords as [|[by_ bx] coords IH]; intros bit_idx extracted;
    cbn [dct_extract_loop]; [lia|].
  destruct (Z.leb_spec n bit_idx) as [Hdone|Hmore]; [lia|].
  destruct (negb _).
  - apply IH.
  - etransitivity; [apply IH|]. rewrite length_app. cbn [length]. lia.
Qed.

Lemma dct_extract_length (g : channel) (n : Z) :
  (length (dct_extract g n 8 0) <= Z.to_nat n)%nat.
Proof.
  unfold dct_extract. destruct (_ <=? 0)%nat; [cbn; lia|].
  etransitivity; [apply dct_extract_loop_length|]. cbn [length]. lia.
Qed.


Lemma hybrid_extract_fits (im : image) (n : Z) :
  wf_image im -> 0 <= n <= Z.of_nat (size im) ->
  hybrid_extract im n = map get_lsb (take (Z.to_nat n) (data (blue im))).
Proof.
  intros [Hlen _] Hn. unfold hybrid_extract. rewrite split_planes.
  change (size (blue im)) with (size im).
  destruct (Z.leb_spec n (Z.of_nat (size im))); [|lia].
  unfold lsb_extract. change (size (blue im)) with (size im).
  destruct (Nat.leb_spec (size im) 0) as [H0|H0].
  - assert (Z.to_nat n = 0%nat) as -> by lia. reflexivity.
  - rewrite drop_0. do 2 f_equal. lia.
Qed.

Lemma hybrid_extract_overflows (im : image) (n : Z) :
  wf_image im -> Z.of_nat (size im) < n ->
  hybrid_extract im n
  = map get_lsb (data (blue im))
    ++ dct_extract (green im) (n - Z.of_nat (size im)) 8 0.
Proof.
  intros [Hlen _] Hn. unfold hybrid_extract. rewrite split_planes.
  change (size (blue im)) with (size im).
  destruct (Z.leb_spec n (Z.of_nat (size im))); [lia|].
  f_equal. unfold lsb_extract. change (size (blue im)) with (size im).
  assert (Hb : length (data (blue im)) = size im)
    by (rewrite <- Hlen; apply plane_shapes).
  destruct (Nat.leb_spec (size im) 0) as [H0|H0].
  - destruct (data (blue im)); [reflexivity|cbn in Hb; lia].
  - rewrite drop_0. f_equal. apply take_ge. lia.
Qed.

Lemma hybrid_extract_length_le (im : image) (n : Z) :
  wf_image im -> 0 <= n -> (length (hybrid_extract im n) <= Z.to_nat n)%nat.
Proof.
  intros Hwf Hn. destruct (Z.le_gt_cases n (Z.of_nat (size im))) as [Hfit|Hover].
  - rewrite hybrid_extract_fits by (try exact Hwf; lia).
    rewrite length_map, length_take. lia.
  - rewrite hybrid_extract_overflows by (try exact Hwf; lia).
    rewrite length_app, length_map.
    pose proof (dct_extract_length (green im) (n - Z.of_nat (size im))).
    assert (length (data (blue im)) = size im)
      by (destruct Hwf as [<- _]; apply plane_shapes).
    lia.
Qed.

Lemma hybrid_extract_length_ge (im : image) (n : Z) :
  wf_image im -> 0 <= n ->
  (Nat.min (Z.to_nat n) (size im) <= length (hybrid_extract im n))%nat.
Proof.
  intros Hwf Hn.
  assert (Hb : length (data (blue im)) = size im)
    by (destruct Hwf as [<- _]; apply plane_shapes).
  destruct (Z.le_gt_cases n (Z.of_nat (size im))) as [Hfit|Hover].
  - rewrite hybrid_extract_fits by (try exact Hwf; lia).
    rewrite length_map, length_take. lia.
  - rewrite hybrid_extract_overflows by (try exact Hwf; lia).
    rewrite length_app, length_map. lia.
Qed.

(** An image with fewer than 32 pixels has no 8x8 block. *)
Lemma no_block_below_64 (h w : nat) : (h * w < 64)%nat -> (h / 8 * (w / 8) = 0)%nat.
Proof.
  intros H. destruct (Nat.lt_ge_cases h 8) as [Hh|Hh].
  - rewrite (Nat.div_small h 8 Hh). reflexivity.
  - destruct (Nat.lt_ge_cases w 8) as [Hw|Hw].
    + rewrite (Nat.div_small w 8 Hw). lia.
    + exfalso. assert (8 * 8 <= h * w)%nat by (apply Nat.mul_le_mono; assumption). lia.
Qed.

Lemma remove_key_wrap_total (wrapped : pystr) (key : option pystr) :
  key_encodable key -> exists s, _remove_key_wrap wrapped key = Ok s.
Proof.
  destruct key as [[|c k]|]; cbn [key_encodable].
  - intros _. eexists. reflexivity.
  - intros [kb Hkb]. eexists. apply (remove_key_wrap_eq (c :: k) kb); [discriminate|exact Hkb].
  - intros _. eexists. reflexivity.
Qed.

Lemma byte_values_loop_fuel (f1 f2 : nat) (bits : list bool) :
  (length bits <= f1)%nat -> (length bits <= f2)%nat ->
  byte_values_loop f1 bits = byte_values_loop f2 bits.
Proof.
  revert f2 bits. induction f1 as [|f1 IH]; intros f2 bits H1 H2.
  - destruct bits; [|cbn in H1; lia]. destruct f2; reflexivity.
  - destruct f2 as [|f2].
    + destruct bits; [reflexivity|cbn in H2; lia].
    + cbn [byte_values_loop].
      destruct (Nat.ltb_spec (length (take 8 bits)) 8) as [Hshort|Hfull]; [reflexivity|].
      rewrite length_take in Hfull.
      rewrite (IH f2) by (rewrite length_drop; lia). reflexivity.
Qed.

Lemma byte_values_short (tail : list bool) :
  (length tail < 8)%nat -> byte_values tail = [].
Proof.
  intros H. unfold byte_values. destruct (length tail) eqn:E; [reflexivity|].
  cbn [byte_values_loop].
  destruct (Nat.ltb_spec (length (take 8 tail)) 8) as [_|Hfull]; [reflexivity|].
  rewrite length_take in Hfull. lia.
Qed.

Lemma byte_values_chunk (chunk rest : list bool) :
  length chunk = 8%nat ->
  byte_values (chunk ++ rest) = int_of_bits chunk :: byte_values rest.
Proof.
  intros Hc. unfold byte_values. rewrite length_app, Hc.
  replace (8 + length rest)%nat with (S (7 + length rest)) by lia.
  cbn [byte_values_loop].
  rewrite take_app_length' by (symmetry; exact Hc). rewrite Hc. cbn [Nat.ltb Nat.leb].
  rewrite drop_app_length' by (symmetry; exact Hc). f_equal.
  apply byte_values_loop_fuel; lia.
Qed.

Lemma byte_values_app_tail (k : nat) (bits tail : list bool) :
  length bits = (8 * k)%nat -> (length tail < 8)%nat ->
  byte_values (bits ++ tail) = byte_values bits
  /\ length (byte_values bits) = k.
Proof.
  revert bits. induction k as [|k IH]; intros bits Hl Ht.
  - destruct bits; [|cbn in Hl; lia]. cbn [app].
    rewrite (byte_values_short tail Ht). split; reflexivity.
  - assert (Hc : length (take 8 bits) = 8%nat) by (rewrite length_take; lia).
    assert (Hr : length (drop 8 bits) = (8 * k)%nat) by (rewrite length_drop; lia).
    pose proof (take_drop 8 bits) as Hsplit.
    revert Hc Hr Hsplit. generalize (take 8 bits) (drop 8 bits).
    intros chunk rest Hc Hr <-. rewrite <- app_assoc.
    rewrite (byte_values_chunk chunk (rest ++ tail) Hc).
    rewrite (byte_values_chunk chunk rest Hc).
    destruct (IH rest Hr Ht) as [-> Hlen].
    split; [reflexivity|]. cbn [length]. rewrite Hlen. reflexivity.
Qed.



(** What [extract_message] computes on an image with at least 32 pixels: the
    header is the first 32 blue LSBs, the payload is what the image holds of
    the declared bits, completed with zeros; the call raises [MemoryError]
    if zeros are needed and there are more of them than [mem]. *)
Lemma extract_message_reads (mem : Z) (im : image) (key : option pystr) :
  wf_image im -> (32 <= size im)%nat ->
  let header := hybrid_extract im 32 in
  let total := 32 + int_of_bits header * 8 in
  let avail := hybrid_extract im total in
  let short := (Z.to_nat total - length avail)%nat in
  let payload := drop 32 avail ++ replicate short false in
  length header = 32%nat
  /\ (32 <= length avail <= Z.to_nat total)%nat
  /\ length payload = Z.to_nat (int_of_bits header * 8)
  /\ extract_message mem im key
     = if (0 <? short)%nat && (mem <? Z.of_nat short)
       then Raise MemoryError
       else _remove_key_wrap (bits_to_text payload) key.
Proof.
  intros Hwf Hsz header total avail short payload.
  assert (Hb : length (data (blue im)) = size im)
    by (destruct Hwf as [<- _]; apply plane_shapes).
  assert (Hh : length header = 32%nat).
  { unfold header. rewrite hybrid_extract_fits by (try exact Hwf; lia).
    rewrite length_map, length_take. lia. }
  pose proof (int_of_bits_range header) as Hn.
  assert (Hav : (32 <= length avail <= Z.to_nat total)%nat).
  { split.
    - pose proof (hybrid_extract_length_ge im total Hwf ltac:(unfold total; lia)).
      fold avail in H. unfold total in *. lia.
    - apply hybrid_extract_length_le; [exact Hwf|unfold total; lia]. }
  split; [exact Hh|]. split; [exact Hav|]. split.
  - unfold payload, short. rewrite length_app, length_drop, length_replicate.
    unfold total in *. lia.
  - unfold extract_message.
    assert (Hne : (image_size im =? 0)%nat = false).
    { apply Nat.eqb_neq. unfold image_size, size in *. lia. }
    rewrite Hne. fold header. rewrite Hh. change (32 <? 32)%nat with false.
    cbv iota. fold total. fold avail. unfold payload.
    destruct (Z.ltb_spec (Z.of_nat (length avail)) total) as [Hshort|Hfull].
    + assert (Hpos : (0 <? short)%nat = true) by (apply Nat.ltb_lt; unfold short; lia).
      rewrite Hpos. cbn [andb]. unfold zeros.
      replace (total - Z.of_nat (length avail)) with (Z.of_nat short)
        by (unfold short; lia).
      destruct (mem <? Z.of_nat short); [reflexivity|]. cbn [bind].
      rewrite Nat2Z.id, drop_app_le by lia. reflexivity.
    + assert (Hzero : short = 0%nat) by (unfold short; lia).
      rewrite Hzero. cbn [Nat.ltb Nat.leb andb replicate bind].
      rewrite app_nil_r. reflexivity.
Qed.








(** ** The store: the embedding path allocates, and writes only what it
    allocated *)

Lemma run_bind {A B : Type} (m : Mem.M A) (k : A -> Mem.M B) (s : Mem.heap) :
  Mem.st_bind m k s
  = match m s with
    | (Ok a, s') => k a s'
    | (Raise e, s') => (Raise e, s')
    end.
Proof. reflexivity. Qed.

Lemma run_load_img (s : Mem.heap) (l : Mem.loc) (a : image) :
  s !! l = Some (Mem.Img a) -> Mem.load_img l s = (Ok a, s).
Proof. intros H. unfold Mem.load_img. rewrite H. reflexivity. Qed.

Lemma run_load_u8 (s : Mem.heap) (l : Mem.loc) (a : ndarray Z) :
  s !! l = Some (Mem.U8 a) -> Mem.load_u8 l s = (Ok a, s).
Proof. intros H. unfold Mem.load_u8. rewrite H. reflexivity. Qed.

Lemma run_load_f32 (s : Mem.heap) (l : Mem.loc) (a : ndarray Q) :
  s !! l = Some (Mem.F32 a) -> Mem.load_f32 l s = (Ok a, s).
Proof. intros H. unfold Mem.load_f32. rewrite H. reflexivity. Qed.

Lemma run_load_dct (s : Mem.heap) (l : Mem.loc) (d : dct_matrix) :
  s !! l = Some (Mem.Dct d) -> Mem.load_dct l s = (Ok d, s).
Proof. intros H. unfold Mem.load_dct. rewrite H. reflexivity. Qed.

Lemma run_alloc (s : Mem.heap) (o : Mem.obj) :
  Mem.alloc o s = (Ok (length s), s ++ [o]).
Proof. reflexivity. Qed.

Lemma run_store (s : Mem.heap) (l : Mem.loc) (o : Mem.obj) :
  Mem.store l o s = (Ok tt, <[l := o]> s).
Proof. reflexivity. Qed.

Lemma lookup_new (s : Mem.heap) (o : Mem.obj) : (s ++ [o]) !! length s = Some o.
Proof. apply list_lookup_middle. reflexivity. Qed.

Lemma lookup_old (s ext : Mem.heap) (l : Mem.loc) (o : Mem.obj) :
  s !! l = Some o -> (s ++ ext) !! l = Some o.
Proof. intros H. apply lookup_app_l_Some, H. Qed.

Lemma run_copy_u8 (s : Mem.heap) (l : Mem.loc) (a : ndarray Z) :
  s !! l = Some (Mem.U8 a) -> Mem.copy_u8 l s = (Ok (length s), s ++ [Mem.U8 a]).
Proof. intros H. unfold Mem.copy_u8. rewrite run_bind, (run_load_u8 _ _ _ H). reflexivity. Qed.

Lemma run_copy_img (s : Mem.heap) (l : Mem.loc) (a : image) :
  s !! l = Some (Mem.Img a) -> Mem.copy_img l s = (Ok (length s), s ++ [Mem.Img a]).
Proof. intros H. unfold Mem.copy_img. rewrite run_bind, (run_load_img _ _ _ H). reflexivity. Qed.

Lemma run_copy_f32 (s : Mem.heap) (l : Mem.loc) (a : ndarray Q) :
  s !! l = Some (Mem.F32 a) -> Mem.copy_f32 l s = (Ok (length s), s ++ [Mem.F32 a]).
Proof. intros H. unfold Mem.copy_f32. rewrite run_bind, (run_load_f32 _ _ _ H). reflexivity. Qed.

Lemma prefix_insert_new (s0 s : Mem.heap) (l : Mem.loc) (o : Mem.obj) :
  s0 `prefix_of` s -> (length s0 <= l)%nat -> s0 `prefix_of` <[l := o]> s.
Proof.
  intros [k ->] Hl. exists (<[(l - length s0)%nat := o]> k).
  apply insert_app_r_alt, Hl.
Qed.

Lemma prefix_snoc (s0 s ext : Mem.heap) :
  s0 `prefix_of` s -> s0 `prefix_of` s ++ ext.
Proof. intros H. apply prefix_app_r, H. Qed.

(** The LSB loop updates the object [flat] and nothing else. *)
Lemma mem_lsb_embed_loop (bits : list bool) (idx : nat) (s : Mem.heap)
    (flat : Mem.loc) (a : ndarray Z) :
  s !! flat = Some (Mem.U8 a) ->
  exists a',
    rows a' = rows a /\ cols a' = cols a
    /\ match lsb_embed_loop bits idx (data a) with
       | Ok d =>
           Mem.lsb_embed_loop flat bits idx s = (Ok tt, <[flat := Mem.U8 a']> s)
           /\ data a' = d
       | Raise e =>
           Mem.lsb_embed_loop flat bits idx s = (Raise e, <[flat := Mem.U8 a']> s)
       end.
Proof.
  revert idx s a. induction bits as [|bit bits IH]; intros idx s a Hs.
  - exists a. cbn [lsb_embed_loop Mem.lsb_embed_loop]. unfold Mem.st_ret.
    rewrite list_insert_id by exact Hs. repeat split; reflexivity.
  - cbn [lsb_embed_loop Mem.lsb_embed_loop].
    rewrite run_bind, (run_load_u8 _ _ _ Hs).
    destruct (data a !! idx) as [v|] eqn:Hv.
    + rewrite run_bind, run_store.
      set (a1 := mk_array (rows a) (cols a) (<[idx := set_lsb v bit]> (data a))).
      assert (Hs1 : <[flat := Mem.U8 a1]> s !! flat = Some (Mem.U8 a1)).
      { apply list_lookup_insert_eq. apply lookup_lt_Some in Hs. exact Hs. }
      destruct (IH (S idx) _ a1 Hs1) as (a' & Hr & Hc & Hrun).
      exists a'. split; [exact Hr|]. split; [exact Hc|].
      rewrite list_insert_insert_eq in Hrun. exact Hrun.
    + exists a. unfold Mem.st_raise. rewrite list_insert_id by exact Hs.
      repeat split; reflexivity.
Qed.

Lemma mem_lsb_embed (s : Mem.heap) (cl : Mem.loc) (c : channel)
    (bits : list bool) (start : nat) :
  s !! cl = Some (Mem.U8 c) ->
  simulates Mem.U8 (Mem.lsb_embed cl bits start) (lsb_embed c bits start) s.
Proof.
  intros Hs. unfold simulates, Mem.lsb_embed, lsb_embed.
  rewrite run_bind, (run_load_u8 _ _ _ Hs).
  rewrite run_bind, run_alloc.
  set (flat0 := mk_array 1 (size c) (data c)).
  rewrite run_bind, (run_copy_u8 _ _ flat0 (lookup_new s _)).
  set (s2 := (s ++ [Mem.U8 flat0]) ++ [Mem.U8 flat0]).
  assert (Hp2 : s `prefix_of` s2) by (unfold s2; do 2 apply prefix_snoc; reflexivity).
  destruct (size c <? start + length bits)%nat.
  { exists s2. split; [exact Hp2|reflexivity]. }
  assert (Hflat : s2 !! length (s ++ [Mem.U8 flat0]) = Some (Mem.U8 flat0))
    by apply lookup_new.
  destruct (mem_lsb_embed_loop bits start s2 _ flat0 Hflat) as (a' & Hr & Hc & Hrun).
  change (data flat0) with (data c) in Hrun.
  set (s3 := <[length (s ++ [Mem.U8 flat0]) := Mem.U8 a']> s2) in *.
  assert (Hp3 : s `prefix_of` s3).
  { unfold s3. apply prefix_insert_new; [exact Hp2|]. rewrite length_app. lia. }
  assert (Hflat3 : s3 !! length (s ++ [Mem.U8 flat0]) = Some (Mem.U8 a')).
  { unfold s3. apply list_lookup_insert_eq. apply lookup_lt_Some in Hflat. exact Hflat. }
  rewrite run_bind.
  destruct (lsb_embed_loop bits start (data c)) as [d|e].
  - destruct Hrun as [Hrun <-]. rewrite Hrun.
    rewrite run_bind, (run_load_u8 _ _ _ Hflat3), run_alloc.
    exists (s3 ++ [Mem.U8 (mk_array (rows c) (cols c) (data a'))]).
    split; [apply prefix_snoc, Hp3|]. cbn [bind].
    eexists. split; [reflexivity|]. split; [apply lookup_new|].
    apply prefix_length, Hp3.
  - rewrite Hrun. exists s3. split; [exact Hp3|reflexivity].
Qed.

(** One block of the DCT loop: two temporaries are allocated and the
    object [embedded] is updated. *)
Lemma mem_dct_embed_block (s : Mem.heap) (emb : Mem.loc) (e : ndarray Q)
    (h w bs by_ bx : nat) (desired : bool) :
  s !! emb = Some (Mem.F32 e) ->
  exists ext,
    Mem.dct_embed_block emb h w bs by_ bx desired s
    = (Ok tt,
       <[emb := Mem.F32 (mk_array (rows e) (cols e)
                           (dct_embed_block h w bs (data e) by_ bx desired))]>
         (s ++ ext)).
Proof.
  intros Hs. unfold Mem.dct_embed_block, dct_embed_block.
  rewrite run_bind, (run_load_f32 _ _ _ Hs).
  set (idxs := block_indices h w bs (by_ * bs) (bx * bs)).
  set (block := read_block 0%Q (data e) idxs).
  rewrite run_bind, run_alloc.
  rewrite run_bind, (run_load_dct _ _ _ (lookup_new s _)).
  change (coeff44 (cv2_dct block)) with (coeff44 (cv2_dct block)).
  destruct (negb (coeff_parity (coeff44 (cv2_dct block)) =? Z.b2z desired)).
  - rewrite run_bind, run_store.
    set (d' := set_coeff44 (cv2_dct block) (adjust (coeff44 (cv2_dct block)))).
    assert (Hins : <[length s := Mem.Dct d']> (s ++ [Mem.Dct (cv2_dct block)])
                   = s ++ [Mem.Dct d']).
    { rewrite insert_app_r_alt by lia. rewrite Nat.sub_diag. reflexivity. }
    rewrite Hins.
    rewrite run_bind, (run_load_dct _ _ _ (lookup_new s _)).
    rewrite run_bind, run_alloc.
    rewrite run_bind, (run_load_f32 _ _ _ (lookup_new _ _)).
    assert (Hs' : ((s ++ [Mem.Dct d']) ++ [Mem.F32 (mk_array bs bs (cv2_idct d'))]) !! emb
                  = Some (Mem.F32 e)) by (do 2 apply lookup_old; exact Hs).
    rewrite run_bind, (run_load_f32 _ _ _ Hs'), run_store.
    exists [Mem.Dct d'; Mem.F32 (mk_array bs bs (cv2_idct d'))].
    rewrite <- app_assoc. reflexivity.
  - rewrite run_bind. unfold Mem.st_ret at 1.
    set (d' := cv2_dct block).
    rewrite run_bind, (run_load_dct _ _ _ (lookup_new s _)).
    rewrite run_bind, run_alloc.
    rewrite run_bind, (run_load_f32 _ _ _ (lookup_new _ _)).
    assert (Hs' : ((s ++ [Mem.Dct d']) ++ [Mem.F32 (mk_array bs bs (cv2_idct d'))]) !! emb
                  = Some (Mem.F32 e)) by (do 2 apply lookup_old; exact Hs).
    rewrite run_bind, (run_load_f32 _ _ _ Hs'), run_store.
    exists [Mem.Dct d'; Mem.F32 (mk_array bs bs (cv2_idct d'))].
    rewrite <- app_assoc. reflexivity.
Qed.

Lemma mem_dct_embed_loop (coords : list (nat * nat)) (bits : list bool)
    (bit_idx : nat) (s : Mem.heap) (emb : Mem.loc) (e : ndarray Q) (h w bs : nat) :
  s !! emb = Some (Mem.F32 e) ->
  exists ext,
    Mem.dct_embed_loop emb h w bs coords bits bit_idx s
    = (Ok tt,
       <[emb := Mem.F32 (mk_array (rows e) (cols e)
                           (dct_embed_loop h w bs coords bits bit_idx (data e)))]>
         (s ++ ext)).
Proof.
  revert bit_idx s e. induction coords as [|[by_ bx] coords IH]; intros bit_idx s e Hs.
  - exists []. cbn [Mem.dct_embed_loop dct_embed_loop]. unfold Mem.st_ret.
    rewrite app_nil_r, list_insert_id; [reflexivity|].
    rewrite Hs. destruct e; reflexivity.
  - cbn [Mem.dct_embed_loop dct_embed_loop].
    destruct (bits !! bit_idx) as [desired|].
    + rewrite run_bind.
      destruct (mem_dct_embed_block s emb e h w bs by_ bx desired Hs) as [ext1 ->].
      set (e1 := mk_array (rows e) (cols e) (dct_embed_block h w bs (data e) by_ bx desired)).
      assert (Hlt : (emb < length (s ++ ext1))%nat).
      { rewrite length_app. apply lookup_lt_Some in Hs. lia. }
      assert (Hs1 : <[emb := Mem.F32 e1]> (s ++ ext1) !! emb = Some (Mem.F32 e1))
        by (apply list_lookup_insert_eq, Hlt).
      destruct (IH (S bit_idx) _ e1 Hs1) as [ext2 ->].
      exists (ext1 ++ ext2). f_equal.
      rewrite insert_app_l by (rewrite length_insert; exact Hlt).
      rewrite list_insert_insert_eq, <- insert_app_l by exact Hlt.
      rewrite <- app_assoc. reflexivity.
    + exists []. unfold Mem.st_ret.
      rewrite app_nil_r, list_insert_id; [reflexivity|].
      rewrite Hs. destruct e; reflexivity.
Qed.

Lemma mem_dct_embed (s : Mem.heap) (gl : Mem.loc) (g : channel)
    (bits : list bool) (bs sb : nat) :
  s !! gl = Some (Mem.U8 g) ->
  simulates Mem.U8 (Mem.dct_embed gl bits bs sb) (dct_embed g bits bs sb) s.
Proof.
  intros Hs. unfold simulates, Mem.dct_embed, dct_embed.
  rewrite run_bind, (run_load_u8 _ _ _ Hs).
  rewrite run_bind, run_alloc.
  set (f0 := mk_array (rows g) (cols g) (map inject_Z (data g))).
  rewrite run_bind, (run_copy_f32 _ _ f0 (lookup_new s _)).
  set (s2 := (s ++ [Mem.F32 f0]) ++ [Mem.F32 f0]).
  assert (Hp2 : s `prefix_of` s2) by (unfold s2; do 2 apply prefix_snoc; reflexivity).
  destruct (rows g / bs * (cols g / bs) <? sb + length bits)%nat.
  { exists s2. split; [exact Hp2|reflexivity]. }
  assert (Hemb : s2 !! length (s ++ [Mem.F32 f0]) = Some (Mem.F32 f0))
    by apply lookup_new.
  destruct (mem_dct_embed_loop (block_coords (rows g / bs) (cols g / bs)) bits 0 s2
              _ f0 (rows g) (cols g) bs Hemb) as [ext Hrun].
  rewrite run_bind, Hrun.
  change (rows f0) with (rows g). change (cols f0) with (cols g).
  change (data f0) with (map inject_Z (data g)).
  set (d := dct_embed_loop (rows g) (cols g) bs
              (block_coords (rows g / bs) (cols g / bs)) bits 0 (map inject_Z (data g))).
  set (s3 := <[length (s ++ [Mem.F32 f0]) := Mem.F32 (mk_array (rows g) (cols g) d)]>
               (s2 ++ ext)).
  assert (Hlt : (length (s ++ [Mem.F32 f0]) < length (s2 ++ ext))%nat).
  { unfold s2. rewrite !length_app. cbn [length]. lia. }
  assert (Hp3 : s `prefix_of` s3).
  { unfold s3. apply prefix_insert_new; [apply prefix_snoc, Hp2|]. rewrite length_app. lia. }
  assert (Hemb3 : s3 !! length (s ++ [Mem.F32 f0])
                  = Some (Mem.F32 (mk_array (rows g) (cols g) d)))
    by (apply list_lookup_insert_eq, Hlt).
  rewrite run_bind, (run_load_f32 _ _ _ Hemb3).
  rewrite run_bind, run_alloc.
  rewrite run_bind, (run_load_f32 _ _ _ (lookup_new _ _)), run_alloc.
  cbn [rows cols data].
  eexists. split; [do 2 apply prefix_snoc; exact Hp3|].
  eexists. split; [reflexivity|]. split.
  - rewrite lookup_new. do 3 f_equal. rewrite map_map. reflexivity.
  - rewrite length_app. apply prefix_length in Hp3. lia.
Qed.

Lemma run_cv2_split (s : Mem.heap) (il : Mem.loc) (im : image) :
  s !! il = Some (Mem.Img im) ->
  Mem.cv2_split il s
  = (Ok (length s, S (length s), S (S (length s))),
     s ++ [Mem.U8 (blue im); Mem.U8 (green im); Mem.U8 (red im)]).
Proof.
  intros Hs. unfold Mem.cv2_split.
  rewrite run_bind, (run_load_img _ _ _ Hs).
  do 3 rewrite run_bind, run_alloc. unfold Mem.st_ret.
  rewrite !length_app. cbn [length]. rewrite <- !app_assoc.
  repeat f_equal; lia.
Qed.

Lemma run_cv2_merge (s : Mem.heap) (bl gl rl : Mem.loc) (b g r : channel) :
  s !! bl = Some (Mem.U8 b) -> s !! gl = Some (Mem.U8 g) -> s !! rl = Some (Mem.U8 r) ->
  Mem.cv2_merge bl gl rl s = (Ok (length s), s ++ [Mem.Img (cv2_merge b g r)]).
Proof.
  intros Hb Hg Hr. unfold Mem.cv2_merge.
  rewrite run_bind, (run_load_u8 _ _ _ Hb).
  rewrite run_bind, (run_load_u8 _ _ _ Hg).
  rewrite run_bind, (run_load_u8 _ _ _ Hr). reflexivity.
Qed.

(** The tail of [hybrid_embed]: merge the three planes and copy the result. *)
Lemma mem_merge_copy (s0 s : Mem.heap) (bl gl rl : Mem.loc) (b g r : channel) :
  s0 `prefix_of` s ->
  s !! bl = Some (Mem.U8 b) -> s !! gl = Some (Mem.U8 g) -> s !! rl = Some (Mem.U8 r) ->
  exists s',
    s0 `prefix_of` s'
    /\ exists l,
         Mem.st_bind (Mem.cv2_merge bl gl rl) (fun stego => Mem.copy_img stego) s
         = (Ok l, s')
         /\ s' !! l = Some (Mem.Img (cv2_merge b g r))
         /\ (length s0 <= l)%nat.
Proof.
  intros Hp Hb Hg Hr.
  rewrite run_bind, (run_cv2_merge _ _ _ _ _ _ _ Hb Hg Hr).
  rewrite (run_copy_img _ _ _ (lookup_new _ _)).
  eexists. split; [do 2 apply prefix_snoc; exact Hp|].
  eexists. split; [reflexivity|]. split; [apply lookup_new|].
  rewrite length_app. apply prefix_length in Hp. lia.
Qed.

Lemma mem_hybrid_embed (s : Mem.heap) (il : Mem.loc) (im : image) (bits : list bool) :
  s !! il = Some (Mem.Img im) ->
  simulates Mem.Img (Mem.hybrid_embed il bits) (hybrid_embed im bits) s.
Proof.
  intros Hs. unfold simulates, Mem.hybrid_embed, hybrid_embed.
  rewrite split_planes, run_bind, (run_cv2_split _ _ _ Hs).
  set (s3 := s ++ [Mem.U8 (blue im); Mem.U8 (green im); Mem.U8 (red im)]).
  assert (Hp3 : s `prefix_of` s3) by (apply prefix_snoc; reflexivity).
  assert (Hb3 : s3 !! length s = Some (Mem.U8 (blue im))).
  { unfold s3. rewrite lookup_app_r, Nat.sub_diag by lia. reflexivity. }
  assert (Hg3 : s3 !! S (length s) = Some (Mem.U8 (green im))).
  { unfold s3. rewrite lookup_app_r by lia.
    replace (S (length s) - length s)%nat with 1%nat by lia. reflexivity. }
  assert (Hr3 : s3 !! S (S (length s)) = Some (Mem.U8 (red im))).
  { unfold s3. rewrite lookup_app_r by lia.
    replace (S (S (length s)) - length s)%nat with 2%nat by lia. reflexivity. }
  rewrite run_bind, (run_load_u8 _ _ _ Hb3).
  rewrite run_bind, (run_load_u8 _ _ _ Hg3).
  destruct (size (blue im) + rows (green im) / 8 * (cols (green im) / 8)
            <? length bits)%nat.
  { exists s3. split; [exact Hp3|reflexivity]. }
  destruct (length bits <=? size (blue im))%nat.
  - rewrite run_bind, (run_copy_u8 _ _ _ Hb3).
    destruct (mem_lsb_embed (s3 ++ [Mem.U8 (blue im)]) (length s3) (blue im) bits 0
                (lookup_new _ _)) as (s5 & Hp5 & Hres).
    assert (Hp35 : s3 `prefix_of` s5)
      by (etransitivity; [|exact Hp5]; apply prefix_snoc; reflexivity).
    rewrite run_bind.
    destruct (lsb_embed (blue im) bits 0) as [b_stego|e].
    + destruct Hres as (l & -> & Hl & _). cbn [bind].
      rewrite run_bind, (run_copy_u8 _ _ _ (prefix_lookup_Some _ _ _ _ Hg3 Hp35)).
      destruct (mem_merge_copy s (s5 ++ [Mem.U8 (green im)]) l (length s5)
                  (S (S (length s))) b_stego (green im) (red im))
        as (s' & Hp' & l' & Hrun & Hl' & Hfresh).
      * apply prefix_snoc. etransitivity; [exact Hp3|exact Hp35].
      * apply lookup_old, Hl.
      * apply lookup_new.
      * apply lookup_old, (prefix_lookup_Some _ _ _ _ Hr3 Hp35).
      * exists s'. split; [exact Hp'|]. exists l'. split; [exact Hrun|].
        split; [exact Hl'|exact Hfresh].
    + rewrite Hres. exists s5. split; [|reflexivity].
      etransitivity; [exact Hp3|exact Hp35].
  - rewrite run_bind, (run_copy_u8 _ _ _ Hb3).
    destruct (mem_lsb_embed (s3 ++ [Mem.U8 (blue im)]) (length s3) (blue im)
                (take (size (blue im)) bits) 0 (lookup_new _ _)) as (s5 & Hp5 & Hres).
    assert (Hp35 : s3 `prefix_of` s5)
      by (etransitivity; [|exact Hp5]; apply prefix_snoc; reflexivity).
    rewrite run_bind.
    destruct (lsb_embed (blue im) (take (size (blue im)) bits) 0) as [b_stego|e].
    + destruct Hres as (l & -> & Hl & _). cbn [bind].
      rewrite run_bind, (run_copy_u8 _ _ _ (prefix_lookup_Some _ _ _ _ Hg3 Hp35)).
      destruct (mem_dct_embed (s5 ++ [Mem.U8 (green im)]) (length s5) (green im)
                  (drop (size (blue im)) bits) 8 0 (lookup_new _ _))
        as (s7 & Hp7 & Hres7).
      assert (Hp57 : s5 `prefix_of` s7)
        by (etransitivity; [|exact Hp7]; apply prefix_snoc; reflexivity).
      rewrite run_bind.
      destruct (dct_embed (green im) (drop (size (blue im)) bits) 8 0) as [g_stego|e].
      * destruct Hres7 as (lg & -> & Hlg & _). cbn [bind].
        destruct (mem_merge_copy s s7 l lg (S (S (length s))) b_stego g_stego (red im))
          as (s' & Hp' & l' & Hrun & Hl' & Hfresh).
        -- etransitivity; [exact Hp3|]. etransitivity; [exact Hp35|exact Hp57].
        -- apply (prefix_lookup_Some _ _ _ _ Hl Hp57).
        -- exact Hlg.
        -- apply (prefix_lookup_Some _ _ _ _ Hr3). etransitivity; [exact Hp35|exact Hp57].
        -- exists s'. split; [exact Hp'|]. exists l'. split; [exact Hrun|].
           split; [exact Hl'|exact Hfresh].
      * rewrite Hres7. exists s7. split; [|reflexivity].
        etransitivity; [exact Hp3|]. etransitivity; [exact Hp35|exact Hp57].
    + rewrite Hres. exists s5. split; [|reflexivity].
      etransitivity; [exact Hp3|exact Hp35].
Qed.

(** [Mem.embed_message] computes what [embed_message] computes and leaves
    every object of the store it started in, the input image among them, as
    it was. *)
Lemma mem_embed_message (s : Mem.heap) (il : Mem.loc) (im : image)
    (message : pystr) (key : option pystr) :
  s !! il = Some (Mem.Img im) ->
  simulates Mem.Img (Mem.embed_message il message key)
            (embed_message im message key) s.
Proof.
  intros Hs. unfold simulates, Mem.embed_message, embed_message.
  rewrite run_bind, (run_load_img _ _ _ Hs).
  destruct (image_size im =? 0)%nat.
  { exists s. split; reflexivity. }
  rewrite run_bind.
  destruct (_apply_key_wrap message key) as [wrapped|e]; cbn [bind Mem.lift];
    [|exists s; split; reflexivity].
  unfold Mem.st_ret. cbv beta iota. rewrite run_bind.
  destruct (utf8_encode wrapped) as [payload_bytes|e]; cbn [bind Mem.lift];
    [|exists s; split; reflexivity].
  unfold Mem.st_ret. cbv beta iota.
  destruct (rows im * cols im + rows im / 8 * (cols im / 8)
            <? length (frame payload_bytes))%nat.
  { exists s. split; reflexivity. }
  rewrite run_bind, (run_copy_img _ _ _ Hs).
  destruct (mem_hybrid_embed (s ++ [Mem.Img im]) (length s) im (frame payload_bytes)
              (lookup_new _ _)) as (s' & Hp' & Hres).
  exists s'. split; [etransitivity; [|exact Hp']; apply prefix_snoc; reflexivity|].
  destruct (hybrid_embed im (frame payload_bytes)) as [out|e]; [|exact Hres].
  destruct Hres as (l & Hrun & Hl & Hfresh). exists l.
  split; [exact Hrun|]. split; [exact Hl|]. rewrite length_app in Hfresh. lia.
Qed.

(** ** What embedding changes *)

Lemma zip3_Forall (b g r : list Z) :
  Forall is_uint8 b -> Forall is_uint8 g -> Forall is_uint8 r ->
  Forall (fun p => is_uint8 (fst (fst p)) /\ is_uint8 (snd (fst p))
                   /\ is_uint8 (snd p)) (zip3 b g r).
Proof.
  intros Hb. revert g r. induction Hb as [|x b Hx Hb IH]; intros g r Hg Hr.
  - destruct g, r; constructor.
  - destruct Hg as [|y g Hy Hg]; [constructor|].
    destruct Hr as [|z r Hz Hr]; [constructor|].
    cbn [zip3]. constructor; [cbn; auto|]. apply IH; assumption.
Qed.

Lemma stego_of_merged (im : image) (bits : list bool) (flat' gdata' : list Z) :
  wf_image im ->
  length flat' = length (data im) ->
  length gdata' = length (data im) ->
  Forall is_uint8 gdata' ->
  (forall i v, data (blue im) !! i = Some v ->
     flat' !! i = Some (match bits !! i with Some b => set_lsb v b | None => v end)) ->
  (forall y x, (y < rows im)%nat -> (x < cols im)%nat ->
     in_carrier_block (rows im) (cols im) (length bits - size im) y x = false ->
     gdata' !! (y * cols im + x)%nat = data (green im) !! (y * cols im + x)%nat) ->
  stego_of im bits
    (cv2_merge (mk_array (rows im) (cols im) flat')
               (mk_array (rows im) (cols im) gdata') (red im)).
Proof.
  intros Hwf Hlb Hlg Hgall Hblue Hgreen.
  destruct (merged_planes im flat' gdata' Hlb Hlg) as (Hr & Hc & Hl & Hb & Hg & Hrd).
  cbv zeta in Hr, Hc, Hl, Hb, Hg, Hrd.
  destruct (wf_planes im Hwf) as ((Hbl & Hball) & _ & (_ & Hrall)).
  pose proof Hwf as [Hlen _].
  unfold stego_of. rewrite Hb, Hg, Hrd. cbn [data].
  split; [exact Hr|]. split; [exact Hc|]. split; [split|].
  - rewrite Hl. exact Hlen.
  - unfold cv2_merge. cbn [data]. apply zip3_Forall; [|exact Hgall|exact Hrall].
    apply Forall_lookup. intros i x Hx.
    destruct (lookup_lt_is_Some_2 (data (blue im)) i) as [v Hv].
    { apply lookup_lt_Some in Hx. rewrite Hbl. rewrite Hlb, Hlen in Hx. exact Hx. }
    rewrite (Hblue i v Hv) in Hx. injection Hx as <-.
    assert (Huv : is_uint8 v).
    { rewrite Forall_lookup in Hball. apply (Hball i v Hv). }
    destruct (bits !! i); [apply set_lsb_uint8, Huv|exact Huv].
  - split; [reflexivity|]. split; [exact Hblue|exact Hgreen].
Qed.

(** Within the capacity [hybrid_embed] succeeds, and its result differs from
    the input as [stego_of] says. *)
Lemma hybrid_embed_ok (im : image) (bits : list bool) :
  wf_image im ->
  (length bits <= total_capacity (rows im) (cols im))%nat ->
  exists out, hybrid_embed im bits = Ok out /\ stego_of im bits out.
Proof.
  intros Hwf Hcap. pose proof Hwf as [Hlen _].
  assert (Hbl : length (data (blue im)) = size im)
    by (rewrite <- Hlen; apply plane_shapes).
  destruct (Nat.le_gt_cases (length bits) (size im)) as [Hfit|Hover].
  - destruct (hybrid_embed_lsb_only im bits Hwf Hfit) as (flat' & Hrun & Hl & Hin & Hout).
    eexists. split; [exact Hrun|].
    change (green im) with (mk_array (rows im) (cols im) (data (green im))) at 1.
    apply stego_of_merged; try assumption.
    + apply plane_shapes.
    + apply (wf_planes im Hwf).
    + intros i v Hv. destruct (bits !! i) as [b|] eqn:Hb.
      * rewrite (Hin i b Hb), Hv. reflexivity.
      * rewrite Hout by (apply lookup_ge_None; exact Hb). exact Hv.
    + reflexivity.
  - destruct (hybrid_embed_overflow im bits Hwf (conj Hover Hcap))
      as (flat' & gdata' & Hrun & Hl & Hgl & Hgall & Hin & Hg).
    eexists. split; [exact Hrun|].
    apply stego_of_merged; try assumption.
    intros i v Hv.
    assert (Hi : (i < size im)%nat) by (rewrite <- Hbl; apply lookup_lt_Some in Hv; exact Hv).
    destruct (lookup_lt_is_Some_2 bits i ltac:(lia)) as [b Hb].
    rewrite Hb, (Hin i b Hi Hb), Hv. reflexivity.
Qed.

Lemma text_to_bits_length (bs : pybytes) :
  Forall is_uint8 bs -> length (text_to_bits bs) = (8 * length bs)%nat.
Proof.
  intros H. unfold text_to_bits. induction H as [|b bs Hb _ IH]; [reflexivity|].
  cbn [flat_map length]. rewrite length_app, IH, format_0b_length; [lia|lia|].
  unfold is_uint8 in Hb. cbn. lia.
Qed.

Lemma utf8_encode_char_bytes (c : Z) (bs : pybytes) :
  utf8_encode_char c = Ok bs -> Forall is_uint8 bs.
Proof.
  unfold utf8_encode_char, is_uint8.
  destruct (Z.ltb_spec c 0); [discriminate|].
  destruct (Z.ltb_spec c 128); [intros [= <-]; repeat constructor; lia|].
  destruct (Z.ltb_spec c 2048).
  { intros [= <-].
    pose proof (Z.mod_pos_bound c 64 ltac:(lia)).
    assert (0 <= c / 64 < 32)
      by (split; [apply Z.div_pos; lia|apply Z.div_lt_upper_bound; lia]).
    repeat constructor; lia. }
  destruct (Z.ltb_spec c 65536).
  { destruct ((55296 <=? c) && (c <=? 57343)); [discriminate|].
    intros [= <-].
    pose proof (Z.mod_pos_bound c 64 ltac:(lia)).
    pose proof (Z.mod_pos_bound (c / 64) 64 ltac:(lia)).
    assert (0 <= c / 4096 < 16)
      by (split; [apply Z.div_pos; lia|apply Z.div_lt_upper_bound; lia]).
    repeat constructor; lia. }
  destruct (Z.ltb_spec c 1114112); [|discriminate].
  intros [= <-].
  pose proof (Z.mod_pos_bound c 64 ltac:(lia)).
  pose proof (Z.mod_pos_bound (c / 64) 64 ltac:(lia)).
  pose proof (Z.mod_pos_bound (c / 4096) 64 ltac:(lia)).
  assert (0 <= c / 262144 < 8)
    by (split; [apply Z.div_pos; lia|apply Z.div_lt_upper_bound; lia]).
  repeat constructor; lia.
Qed.

Lemma utf8_encode_bytes (s : pystr) (bs : pybytes) :
  utf8_encode s = Ok bs -> Forall is_uint8 bs.
Proof.
  revert bs. induction s as [|c s IH]; intros bs; cbn [utf8_encode].
  - intros [= <-]. constructor.
  - destruct (utf8_encode_char c) as [cb|] eqn:Hc; [|discriminate]. cbn [bind].
    destruct (utf8_encode s) as [rest|]; [|discriminate]. cbn [bind].
    intros [= <-]. apply Forall_app. split; [|apply IH; reflexivity].
    apply (utf8_encode_char_bytes c), Hc.
Qed.

(** The framed stream has at least the 32 header bits; for a payload below
    2^32 bytes it has the header and 8 bits a byte. *)
Lemma frame_min_length (payload : pybytes) : (32 <= length (frame payload))%nat.
Proof.
  unfold frame. rewrite length_app.
  pose proof (format_0b_min_length 32 (Z.of_nat (length payload))).
  unfold _len_prefix_bits. lia.
Qed.

Lemma frame_length (payload : pybytes) :
  Forall is_uint8 payload ->
  Z.of_nat (length payload) < 2 ^ 32 ->
  length (frame payload) = (32 + 8 * length payload)%nat.
Proof.
  intros Hb Hlen. unfold frame. rewrite length_app, text_to_bits_length by exact Hb.
  unfold _len_prefix_bits. rewrite format_0b_length by lia. reflexivity.
Qed.

(** ** The orchestrator *)

Lemma image_size_size (im : image) : image_size im = (size im * 3)%nat.
Proof. reflexivity. Qed.

Lemma embed_message_within (im : image) (message : pystr) (key : option pystr)
    (wrapped : pystr) (payload : pybytes) :
  image_size im <> 0%nat ->
  _apply_key_wrap message key = Ok wrapped ->
  utf8_encode wrapped = Ok payload ->
  (length (frame payload) <= total_capacity (rows im) (cols im))%nat ->
  embed_message im message key = hybrid_embed im (frame payload).
Proof.
  intros Hne Hw He Hcap. unfold embed_message.
  destruct (Nat.eqb_spec (image_size im) 0); [contradiction|].
  rewrite Hw. cbn [bind]. rewrite He. cbn [bind].
  unfold total_capacity in Hcap.
  destruct (Nat.ltb_spec (rows im * cols im + rows im / 8 * (cols im / 8))
              (length (frame payload))); [lia|reflexivity].
Qed.

Lemma embed_message_beyond (im : image) (message : pystr) (key : option pystr)
    (wrapped : pystr) (payload : pybytes) :
  image_size im <> 0%nat ->
  _apply_key_wrap message key = Ok wrapped ->
  utf8_encode wrapped = Ok payload ->
  (total_capacity (rows im) (cols im) < length (frame payload))%nat ->
  embed_message im message key
  = Raise (ValueError (message_too_large (length (frame payload))
                         (total_capacity (rows im) (cols im)))).
Proof.
  intros Hne Hw He Hcap. unfold embed_message.
  destruct (Nat.eqb_spec (image_size im) 0); [contradiction|].
  rewrite Hw. cbn [bind]. rewrite He. cbn [bind].
  unfold total_capacity in *.
  destruct (Nat.ltb_spec (rows im * cols im + rows im / 8 * (cols im / 8))
              (length (frame payload))); [reflexivity|lia].
Qed.

Lemma embed_message_inv (im : image) (message : pystr) (key : option pystr)
    (out : image) :
  embed_message im message key = Ok out ->
  exists wrapped payload,
    _apply_key_wrap message key = Ok wrapped
    /\ utf8_encode wrapped = Ok payload
    /\ image_size im <> 0%nat
    /\ (length (frame payload) <= total_capacity (rows im) (cols im))%nat
    /\ hybrid_embed im (frame payload) = Ok out.
Proof.
  unfold embed_message.
  destruct (Nat.eqb_spec (image_size im) 0) as [|Hne]; [discriminate|].
  destruct (_apply_key_wrap message key) as [wrapped|] eqn:Hw; [|discriminate].
  cbn [bind].
  destruct (utf8_encode wrapped) as [payload|] eqn:He; [|discriminate]. cbn [bind].
  unfold total_capacity.
  destruct (Nat.ltb_spec (rows im * cols im + rows im / 8 * (cols im / 8))
              (length (frame payload))) as [|Hcap]; [discriminate|].
  intros H. exists wrapped, payload. repeat split; assumption.
Qed.

(** Beyond the capacity the call raises before anything is allocated: the
    store is the one it started in. *)
Lemma mem_embed_message_beyond (s : Mem.heap) (il : Mem.loc) (im : image)
    (message : pystr) (key : option pystr) (wrapped : pystr) (payload : pybytes) :
  s !! il = Some (Mem.Img im) ->
  image_size im <> 0%nat ->
  _apply_key_wrap message key = Ok wrapped ->
  utf8_encode wrapped = Ok payload ->
  (total_capacity (rows im) (cols im) < length (frame payload))%nat ->
  Mem.embed_message il message key s
  = (Raise (ValueError (message_too_large (length (frame payload))
                          (total_capacity (rows im) (cols im)))), s).
Proof.
  intros Hs Hne Hw He Hcap. unfold Mem.embed_message.
  rewrite run_bind, (run_load_img _ _ _ Hs).
  destruct (Nat.eqb_spec (image_size im) 0); [contradiction|].
  rewrite run_bind, Hw. cbn [Mem.lift]. unfold Mem.st_ret at 1. cbv beta iota.
  rewrite run_bind, He. cbn [Mem.lift]. unfold Mem.st_ret at 1. cbv beta iota.
  unfold total_capacity in *.
  destruct (Nat.ltb_spec (rows im * cols im + rows im / 8 * (cols im / 8))
              (length (frame payload))); [reflexivity|lia].
Qed.

(** C4: for a well-formed, non-empty image of height [h] and width [w], a
    framed bit count equal to [h*w + (h//8)*(w//8)] is embedded, by
    [embed_message] and by [hybrid_embed]; one bit more makes each of them
    raise a [ValueError] whose text gives the bits needed and the capacity,
    and [embed_message] raises it with the store, hence the input image,
    exactly as it was.  Below 2^32 payload bytes the framed bit count is 32
    plus 8 a byte. *)
Theorem embed_message_capacity_boundary (s : Mem.heap) (il : Mem.loc) (im : image)
    (message : pystr) (key : option pystr) (wrapped : pystr) (payload : pybytes)
    (bits : list bool) :
  s !! il = Some (Mem.Img im) ->
  wf_image im ->
  _apply_key_wrap message key = Ok wrapped ->
  utf8_encode wrapped = Ok payload ->
  let cap := (rows im * cols im + rows im / 8 * (cols im / 8))%nat in
  let need := length (frame payload) in
  (need = cap ->
     exists l s' out,
       Mem.embed_message il message key s = (Ok l, s')
       /\ s' !! l = Some (Mem.Img out)
       /\ s `prefix_of` s'
       /\ embed_message im message key = Ok out)
  /\ (need = S cap ->
      Mem.embed_message il message key s
      = (Raise (ValueError
                  ("Message too large! Need " ++ fmt_int (Z.of_nat need)
                   ++ " bits, capacity " ++ fmt_int (Z.of_nat cap) ++ ".")), s))
  /\ (length bits = cap -> exists out, hybrid_embed im bits = Ok out)
  /\ (length bits = S cap ->
      hybrid_embed im bits
      = Raise (ValueError
                 ("Payload too large for image. Need "
                  ++ fmt_int (Z.of_nat (length bits))
                  ++ " bits, capacity " ++ fmt_int (Z.of_nat cap) ++ ".")))
  /\ (Z.of_nat (length payload) < 2 ^ 32 ->
      need = (32 + 8 * length payload)%nat).
Proof.
  intros Hs Hwf Hw He cap need.
  change cap with (total_capacity (rows im) (cols im)).
  assert (Hne : (31 <= total_capacity (rows im) (cols im))%nat -> image_size im <> 0%nat).
  { intros H31 H0. unfold total_capacity, image_size in *.
    assert (Hz : (rows im * cols im = 0)%nat) by lia.
    pose proof (no_block_below_64 (rows im) (cols im) ltac:(lia)). lia. }
  pose proof (frame_min_length payload) as Hmin. fold need in Hmin.
  split; [|split; [|split; [|split]]].
  - intros Hneed.
    pose proof (mem_embed_message s il im message key Hs) as (s' & Hp & Hsim).
    rewrite (embed_message_within im message key wrapped payload
               (Hne ltac:(lia)) Hw He) in *
      by (fold need; lia).
    destruct (hybrid_embed_ok im (frame payload) Hwf ltac:(fold need; lia))
      as (out & Hout & _).
    rewrite Hout in Hsim. destruct Hsim as (l & Hrun & Hl & _).
    exists l, s', out. repeat split; assumption.
  - intros Hneed.
    apply (mem_embed_message_beyond s il im message key wrapped payload Hs
             (Hne ltac:(lia)) Hw He).
    fold need. lia.
  - intros Hlen. destruct (hybrid_embed_ok im bits Hwf ltac:(lia)) as (out & Hout & _).
    exists out. exact Hout.
  - intros Hlen. rewrite hybrid_embed_too_large by lia. rewrite Hlen. reflexivity.
  - intros Hlt. apply frame_length; [|exact Hlt].
    apply (utf8_encode_bytes wrapped), He.
Qed.

Lemma embed_message_capacity_boundary_witness :
  (exists l s' out,
     Mem.embed_message 0 (str "aaaaaaaaaaaaa") None
       [Mem.Img (mk_array 9 15 (replicate 135 (0, 0, 0)))] = (Ok l, s')
     /\ s' !! l = Some (Mem.Img out)
     /\ [Mem.Img (mk_array 9 15 (replicate 135 (0, 0, 0)))] `prefix_of` s'
     /\ embed_message (mk_array 9 15 (replicate 135 (0, 0, 0)))
          (str "aaaaaaaaaaaaa") None = Ok out)
  /\ Mem.embed_message 0 (str "a") None
       [Mem.Img (mk_array 3 13 (replicate 39 (0, 0, 0)))]
     = (Raise (ValueError "Message too large! Need 40 bits, capacity 39."),
        [Mem.Img (mk_array 3 13 (replicate 39 (0, 0, 0)))]).
Proof.
  assert (Hwf : forall h w, wf_image (mk_array h w (replicate (h * w) (0, 0, 0)))).
  { intros h w. split; [apply length_replicate|].
    apply Forall_replicate. cbn. unfold is_uint8. lia. }
  split.
  - pose proof (embed_message_capacity_boundary
                  [Mem.Img (mk_array 9 15 (replicate 135 (0, 0, 0)))] 0
                  (mk_array 9 15 (replicate 135 (0, 0, 0)))
                  (str "aaaaaaaaaaaaa") None (str "aaaaaaaaaaaaa") (str "aaaaaaaaaaaaa")
                  [] eq_refl (Hwf 9%nat 15%nat) eq_refl eq_refl) as H.
    cbv zeta in H. destruct H as (H & _). apply H. vm_compute. reflexivity.
  - pose proof (embed_message_capacity_boundary
                  [Mem.Img (mk_array 3 13 (replicate 39 (0, 0, 0)))] 0
                  (mk_array 3 13 (replicate 39 (0, 0, 0)))
                  (str "a") None (str "a") (str "a")
                  [] eq_refl (Hwf 3%nat 13%nat) eq_refl eq_refl) as H.
    cbv zeta in H. destruct H as (_ & H & _). rewrite H by (vm_compute; reflexivity).
    vm_compute. reflexivity.
Defined.

(** C7: a successful [embed_message] returns a reference to a new image
    object and leaves every object of the store, the input image among them,
    as it was.  The new image has the shape and the three planes of the
    input; its red plane is the input's; a blue sample differs from the
    input's at most in bit 0, and only where the sample carries a bit of the
    framed stream, which is then its bit 0; a green sample outside the 8x8
    blocks that carry the bits beyond the blue plane is the input's. *)
Theorem embed_message_frame (s s' : Mem.heap) (il l : Mem.loc) (im : image)
    (message : pystr) (key : option pystr) :
  s !! il = Some (Mem.Img im) ->
  wf_image im ->
  Mem.embed_message il message key s = (Ok l, s') ->
  exists out wrapped payload,
    _apply_key_wrap message key = Ok wrapped
    /\ utf8_encode wrapped = Ok payload
    /\ embed_message im message key = Ok out
    /\ s' !! l = Some (Mem.Img out) /\ (length s <= l)%nat
    /\ s `prefix_of` s' /\ s' !! il = Some (Mem.Img im)
    /\ rows out = rows im /\ cols out = cols im
    /\ length (data out) = length (data im)
    /\ wf_image out
    /\ red out = red im
    /\ (forall i v, data (blue im) !! i = Some v ->
          exists v',
            data (blue out) !! i = Some v'
            /\ (forall k, k <> 0 -> Z.testbit v' k = Z.testbit v k)
            /\ (forall b, frame payload !! i = Some b -> Z.testbit v' 0 = b)
            /\ (frame payload !! i = None -> v' = v))
    /\ (forall y x, (y < rows im)%nat -> (x < cols im)%nat ->
          in_carrier_block (rows im) (cols im)
            (length (frame payload) - rows im * cols im) y x = false ->
          data (green out) !! (y * cols im + x)%nat
          = data (green im) !! (y * cols im + x)%nat).
Proof.
  intros Hs Hwf Hrun.
  destruct (mem_embed_message s il im message key Hs) as (s'' & Hp & Hsim).
  destruct (embed_message im message key) as [out|e] eqn:Hpure;
    [|rewrite Hrun in Hsim; discriminate Hsim].
  destruct Hsim as (l' & Hrun' & Hl & Hfresh).
  rewrite Hrun in Hrun'. injection Hrun' as <- <-.
  destruct (embed_message_inv im message key out Hpure)
    as (wrapped & payload & Hw & He & Hne & Hcap & Hhyb).
  destruct (hybrid_embed_ok im (frame payload) Hwf Hcap) as (out' & Hout' & Hst).
  rewrite Hhyb in Hout'. injection Hout' as <-.
  destruct Hst as (Hr & Hc & Hwfo & Hred & Hblue & Hgreen).
  destruct (wf_planes im Hwf) as ((_ & Hball) & _).
  exists out, wrapped, payload.
  split; [exact Hw|]. split; [exact He|]. split; [reflexivity|].
  split; [exact Hl|]. split; [exact Hfresh|]. split; [exact Hp|].
  split; [apply (prefix_lookup_Some _ _ _ _ Hs Hp)|].
  split; [exact Hr|]. split; [exact Hc|]. split.
  { destruct Hwf as [-> _]. destruct Hwfo as [-> _]. unfold size. congruence. }
  split; [exact Hwfo|]. split; [exact Hred|]. split; [|exact Hgreen].
  intros i v Hv. eexists. split; [apply (Hblue i v Hv)|].
  assert (Huv : is_uint8 v) by (rewrite Forall_lookup in Hball; apply (Hball i v Hv)).
  destruct (frame payload !! i) as [b|].
  - split; [|split].
    + intros k Hk. rewrite set_lsb_testbit by exact Huv.
      destruct (Z.eqb_spec k 0); [contradiction|reflexivity].
    + intros b' [= <-]. rewrite set_lsb_testbit by exact Huv. reflexivity.
    + discriminate.
  - split; [reflexivity|]. split; [discriminate|reflexivity].
Qed.

Lemma embed_message_frame_witness :
  exists out,
    snd (Mem.embed_message 0 (str "Hi") None
           [Mem.Img (mk_array 6 8 (replicate 48 (5, 6, 7)))]) !! 11%nat
    = Some (Mem.Img out)
    /\ snd (Mem.embed_message 0 (str "Hi") None
              [Mem.Img (mk_array 6 8 (replicate 48 (5, 6, 7)))]) !! 0%nat
       = Some (Mem.Img (mk_array 6 8 (replicate 48 (5, 6, 7))))
    /\ red out = mk_array 6 8 (replicate 48 7).
Proof.
  assert (Hwf : wf_image (mk_array 6 8 (replicate 48 (5, 6, 7)))).
  { split; [apply length_replicate|]. apply Forall_replicate. cbn. unfold is_uint8. lia. }
  destruct (embed_message_frame
              [Mem.Img (mk_array 6 8 (replicate 48 (5, 6, 7)))]
              (snd (Mem.embed_message 0 (str "Hi") None
                      [Mem.Img (mk_array 6 8 (replicate 48 (5, 6, 7)))]))
              0 11 (mk_array 6 8 (replicate 48 (5, 6, 7))) (str "Hi") None
              eq_refl Hwf)
    as (out & _ & _ & _ & _ & _ & Hl & _ & _ & Hin & _ & _ & _ & _ & Hred & _).
  { vm_compute. reflexivity. }
  exists out. split; [exact Hl|]. split; [exact Hin|]. rewrite Hred. reflexivity.
Defined.

(** ** Round trips of the codecs *)

Ltac decide_tests :=
  repeat match goal with
    | |- context [Z.ltb ?a ?b] =>
        destruct (Z.ltb_spec a b); try (exfalso; Z.div_mod_to_equations; lia)
    | |- context [Z.leb ?a ?b] =>
        destruct (Z.leb_spec a b); try (exfalso; Z.div_mod_to_equations; lia)
    | |- context [Z.eqb ?a ?b] =>
        destruct (Z.eqb_spec a b); try (exfalso; Z.div_mod_to_equations; lia)
    end;
  cbn [negb andb orb].

Lemma utf8_step_encode_char (c : Z) (cb rest : pybytes) :
  utf8_encode_char c = Ok cb ->
  utf8_step (cb ++ rest) = (Some c, length cb) /\ (0 < length cb)%nat.
Proof.
  unfold utf8_encode_char.
  destruct (Z.ltb_spec c 0); [discriminate|].
  destruct (Z.ltb_spec c 128).
  { intros [= <-]. split; [|cbn; lia]. cbn [app utf8_step length].
    destruct (Z.ltb_spec c 128); [reflexivity|lia]. }
  destruct (Z.ltb_spec c 2048).
  { intros [= <-]. split; [|cbn; lia]. cbn [app utf8_step length]. unfold is_cont.
    decide_tests; do 2 f_equal; Z.div_mod_to_equations; lia. }
  destruct (Z.ltb_spec c 65536).
  { destruct (Z.leb_spec 55296 c); destruct (Z.leb_spec c 57343); cbn [andb];
      try discriminate; intros [= <-]; (split; [|cbn; lia]);
      cbn [app utf8_step length]; unfold is_cont;
      decide_tests; do 2 f_equal; Z.div_mod_to_equations; lia. }
  destruct (Z.ltb_spec c 1114112); [|discriminate].
  intros [= <-]. split; [|cbn; lia]. cbn [app utf8_step length]. unfold is_cont.
  decide_tests; do 2 f_equal; Z.div_mod_to_equations; lia.
Qed.

Lemma utf8_step_consumes (b : Z) (bs : pybytes) :
  (1 <= snd (utf8_step (b :: bs)))%nat.
Proof. unfold utf8_step. repeat case_match; cbn [snd length]; lia. Qed.

Lemma utf8_decode_loop_fuel (fuel1 fuel2 : nat) (bs : pybytes) :
  (length bs <= fuel1)%nat -> (length bs <= fuel2)%nat ->
  utf8_decode_loop fuel1 bs = utf8_decode_loop fuel2 bs.
Proof.
  revert fuel2 bs. induction fuel1 as [|f1 IH]; intros fuel2 bs H1 H2.
  - destruct bs; [|cbn in H1; lia]. destruct fuel2; reflexivity.
  - destruct fuel2 as [|f2]; [destruct bs; [reflexivity|cbn in H2; lia]|].
    destruct bs as [|b bs]; [reflexivity|]. cbn [utf8_decode_loop].
    pose proof (utf8_step_consumes b bs) as Hk.
    assert (Hd : (length (drop (snd (utf8_step (b :: bs))) (b :: bs)) <= length bs)%nat).
    { rewrite length_drop. cbn [length]. lia. }
    cbn [length] in H1, H2.
    rewrite (IH f2) by lia. reflexivity.
Qed.

Lemma utf8_decode_encode_char (c : Z) (cb rest : pybytes) :
  utf8_encode_char c = Ok cb ->
  utf8_decode_ignore (cb ++ rest) = c :: utf8_decode_ignore rest.
Proof.
  intros Hc. destruct (utf8_step_encode_char c cb rest Hc) as [Hstep Hpos].
  unfold utf8_decode_ignore.
  destruct cb as [|b cb]; [cbn in Hpos; lia|].
  cbn [app length utf8_decode_loop]. change (b :: cb ++ rest) with ((b :: cb) ++ rest).
  rewrite Hstep. cbn [fst snd]. rewrite drop_app_length. f_equal.
  apply utf8_decode_loop_fuel; [rewrite length_app; lia|lia].
Qed.

(** Decoding what [encode] produced gives the string back. *)
Lemma utf8_decode_encode (s : pystr) (bs : pybytes) :
  utf8_encode s = Ok bs -> utf8_decode_ignore bs = s.
Proof.
  revert bs. induction s as [|c s IH]; intros bs; cbn [utf8_encode].
  - intros [= <-]. reflexivity.
  - destruct (utf8_encode_char c) as [cb|] eqn:Hc; [|discriminate]. cbn [bind].
    destruct (utf8_encode s) as [rest|]; [|discriminate]. cbn [bind].
    intros [= <-]. rewrite (utf8_decode_encode_char c cb rest Hc).
    f_equal. apply IH. reflexivity.
Qed.

Lemma byte_values_loop_text_to_bits (bs : pybytes) (fuel : nat) :
  Forall is_uint8 bs -> (length bs <= fuel)%nat ->
  byte_values_loop fuel (text_to_bits bs) = bs.
Proof.
  intros H. revert fuel. induction H as [|b bs Hb _ IH]; intros fuel Hf.
  - destruct fuel; reflexivity.
  - destruct fuel as [|fuel]; [cbn in Hf; lia|].
    assert (Hl : length (format_0b 8 b) = 8%nat).
    { apply format_0b_length; [lia|]. unfold is_uint8 in Hb. cbn. lia. }
    unfold text_to_bits. cbn [flat_map byte_values_loop]. fold (text_to_bits bs).
    rewrite take_app_length' by (symmetry; exact Hl). rewrite Hl. cbn [Nat.ltb Nat.leb].
    rewrite format_0b_value by (unfold is_uint8 in Hb; lia).
    rewrite drop_app_length' by (symmetry; exact Hl). f_equal. apply IH. cbn in Hf. lia.
Qed.

(** [bits_to_text] undoes [text_to_bits] after [encode]. *)
Lemma bits_to_text_of_encoded (s : pystr) (bs : pybytes) :
  utf8_encode s = Ok bs -> bits_to_text (text_to_bits bs) = s.
Proof.
  intros He. pose proof (utf8_encode_bytes s bs He) as Hb.
  unfold bits_to_text, byte_values.
  rewrite byte_values_loop_text_to_bits
    by (try exact Hb; rewrite text_to_bits_length by exact Hb; lia).
  apply utf8_decode_encode, He.
Qed.

Lemma apply_then_remove_key_wrap (message wrapped : pystr) (key : option pystr) :
  _apply_key_wrap message key = Ok wrapped ->
  _remove_key_wrap wrapped key = Ok message.
Proof.
  intros Hw. destruct key as [[|c k]|].
  - cbn in Hw |- *. congruence.
  - destruct (utf8_encode (c :: k)) as [kb|e] eqn:Hk.
    + pose proof (remove_apply_key_wrap (c :: k) kb ltac:(discriminate) Hk message) as H.
      rewrite Hw in H. exact H.
    + unfold _apply_key_wrap, key_digest in Hw. rewrite Hk in Hw. discriminate Hw.
  - cbn in Hw |- *. congruence.
Qed.

(** Reading back [n] bits from an image whose blue plane took all the bits. *)
Lemma hybrid_extract_stego (im out : image) (bits : list bool) (n : nat) :
  wf_image im -> stego_of im bits out ->
  (length bits <= size im)%nat -> (n <= length bits)%nat ->
  hybrid_extract out (Z.of_nat n) = take n bits.
Proof.
  intros Hwf (Hr & Hc & Hwfo & _ & Hblue & _) Hfit Hn.
  assert (Hsz : size out = size im) by (unfold size; congruence).
  rewrite hybrid_extract_fits by (try exact Hwfo; lia).
  rewrite Nat2Z.id. apply list_eq. intros i. rewrite list_lookup_fmap.
  destruct (decide (i < n)%nat) as [Hi|Hi].
  - rewrite !lookup_take_lt by exact Hi.
    assert (Hbl : length (data (blue im)) = size im)
      by (destruct Hwf as [<- _]; apply plane_shapes).
    destruct (lookup_lt_is_Some_2 (data (blue im)) i ltac:(lia)) as [v Hv].
    destruct (lookup_lt_is_Some_2 bits i ltac:(lia)) as [b Hb].
    rewrite (Hblue i v Hv), Hb. cbn. f_equal. apply get_set_lsb.
  - rewrite !lookup_take_ge by lia. reflexivity.
Qed.

(** The round trip holds whenever the framed stream fits in the blue plane
    (and the payload is below 2^32 bytes, so that the header has 32 bits). *)
Lemma embed_extract_roundtrip_lsb (mem : Z) (im : image) (message : pystr)
    (key : option pystr) (wrapped : pystr) (payload : pybytes) :
  wf_image im ->
  _apply_key_wrap message key = Ok wrapped ->
  utf8_encode wrapped = Ok payload ->
  Z.of_nat (length payload) < 2 ^ 32 ->
  (32 + 8 * length payload <= size im)%nat ->
  exists stego,
    embed_message im message key = Ok stego
    /\ extract_message mem stego key = Ok message.
Proof.
  intros Hwf Hw He Hlen Hfit.
  pose proof (utf8_encode_bytes wrapped payload He) as Hbytes.
  pose proof (frame_length payload Hbytes Hlen) as Hfl.
  assert (Hne : image_size im <> 0%nat) by (rewrite image_size_size; lia).
  assert (Hcap : (length (frame payload) <= total_capacity (rows im) (cols im))%nat)
    by (unfold total_capacity, size in *; lia).
  destruct (hybrid_embed_ok im (frame payload) Hwf Hcap) as (stego & Hrun & Hst).
  exists stego. split.
  { rewrite (embed_message_within im message key wrapped payload Hne Hw He Hcap).
    exact Hrun. }
  pose proof Hst as (Hr & Hc & Hwfo & _).
  assert (Hsz : size stego = size im) by (unfold size; congruence).
  destruct (extract_message_reads mem stego key Hwfo ltac:(lia)) as (_ & _ & _ & ->).
  assert (Hhdr : hybrid_extract stego 32
                 = _len_prefix_bits (Z.of_nat (length payload))).
  { change 32 with (Z.of_nat 32).
    rewrite (hybrid_extract_stego im stego (frame payload) 32 Hwf Hst) by lia.
    unfold frame. apply take_app_length'. unfold _len_prefix_bits.
    symmetry. apply format_0b_length; lia. }
  assert (Hint : int_of_bits (_len_prefix_bits (Z.of_nat (length payload)))
                 = Z.of_nat (length payload))
    by (unfold _len_prefix_bits; apply format_0b_value; lia).
  assert (Htot : 32 + Z.of_nat (length payload) * 8
                 = Z.of_nat (length (frame payload))) by lia.
  assert (Hav : hybrid_extract stego (Z.of_nat (length (frame payload)))
                = frame payload).
  { rewrite (hybrid_extract_stego im stego (frame payload) _ Hwf Hst) by lia.
    apply take_ge. lia. }
  rewrite Hhdr, Hint, Htot, Hav, Nat2Z.id, Nat.sub_diag.
  cbn [Nat.ltb Nat.leb andb replicate].
  rewrite app_nil_r. unfold frame.
  rewrite drop_app_length'
    by (unfold _len_prefix_bits; symmetry; apply format_0b_length; lia).
  rewrite (bits_to_text_of_encoded wrapped payload He).
  apply apply_then_remove_key_wrap, Hw.
Qed.

(** C1 at a 9x15 all-zero image with no key and a message of thirteen
    letters [a]: the framed stream has 32 + 8 * 13 = 136 bits, the image has
    135 blue samples and one 8x8 block, so the capacity is exactly 136 and
    the last bit of the message, a 1, goes to the green block.  The block
    stays all-zero, extraction reads a 0 there, and the last character comes
    back as a backquote. *)
Theorem embed_extract_loses_overflow_bit (mem : Z) :
  wf_image (mk_array 9 15 (replicate 135 (0, 0, 0)))
  /\ total_capacity 9 15 = 136%nat
  /\ utf8_encode (str "aaaaaaaaaaaaa") = Ok (str "aaaaaaaaaaaaa")
  /\ length (frame (str "aaaaaaaaaaaaa")) = 136%nat
  /\ (try! stego := embed_message (mk_array 9 15 (replicate 135 (0, 0, 0)))
                      (str "aaaaaaaaaaaaa") None in
      extract_message mem stego None) = Ok (str "aaaaaaaaaaaa`")
  /\ str "aaaaaaaaaaaa`" <> str "aaaaaaaaaaaaa".
Proof.
  split.
  { split; [apply length_replicate|]. apply Forall_replicate. cbn. unfold is_uint8. lia. }
  split; [reflexivity|]. split; [reflexivity|]. split; [reflexivity|].
  split; [vm_compute; reflexivity|discriminate].
Qed.

Lemma embed_extract_roundtrip_lsb_example :
  exists stego,
    embed_message (mk_array 16 16 (replicate 256 (0, 0, 0))) (str "Hi") None = Ok stego
    /\ extract_message 0 stego None = Ok (str "Hi").
Proof.
  apply (embed_extract_roundtrip_lsb 0 _ (str "Hi") None (str "Hi") (str "Hi")).
  - split; [apply length_replicate|]. apply Forall_replicate. cbn. unfold is_uint8. lia.
  - reflexivity.
  - reflexivity.
  - cbn. lia.
  - cbn. lia.
Qed.

(** ** The nudge away from ties *)

Lemma Qfloor_unique (q : Q) (n : Z) :
  (inject_Z n <= q)%Q -> (q < inject_Z (n + 1))%Q -> Qfloor q = n.
Proof.
  intros Hle Hlt.
  assert (H1 : n <= Qfloor q).
  { rewrite <- (Qfloor_Z n). apply Qfloor_resp_le, Hle. }
  assert (H2 : Qfloor q < n + 1).
  { rewrite Zlt_Qlt. eapply Qle_lt_trans; [apply Qfloor_le|exact Hlt]. }
  lia.
Qed.

Lemma Qfloor_shift (q : Q) (k : Z) : Qfloor (q + inject_Z k) = Qfloor q + k.
Proof.
  apply Qfloor_unique.
  - rewrite inject_Z_plus. apply Qplus_le_compat; [apply Qfloor_le|apply Qle_refl].
  - replace (Qfloor q + k + 1) with ((Qfloor q + 1) + k) by lia.
    rewrite inject_Z_plus. apply Qplus_lt_le_compat; [apply Qlt_floor|apply Qle_refl].
Qed.

Lemma py_round_comp (a b : Q) : (a == b)%Q -> py_round a = py_round b.
Proof.
  intros H. unfold py_round. rewrite (Qfloor_comp _ _ H).
  assert (Hc : Qcompare (a - inject_Z (Qfloor b)) (1 # 2)
               = Qcompare (b - inject_Z (Qfloor b)) (1 # 2)).
  { apply Qcompare_comp; [|reflexivity]. rewrite H. reflexivity. }
  rewrite Hc. reflexivity.
Qed.

Lemma py_round_shift (q : Q) (k : Z) :
  ~ (q - inject_Z (Qfloor q) == 1 # 2)%Q ->
  py_round (q + inject_Z k) = py_round q + k.
Proof.
  intros Hnt. unfold py_round. rewrite Qfloor_shift.
  assert (Hfrac : (q + inject_Z k - inject_Z (Qfloor q + k)
                   == q - inject_Z (Qfloor q))%Q)
    by (rewrite inject_Z_plus; ring).
  rewrite Hfrac.
  destruct (Qcompare (q - inject_Z (Qfloor q)) (1 # 2)) eqn:E; [|lia|lia].
  exfalso. apply Hnt. apply Qeq_alt. exact E.
Qed.

Lemma land_1_mod (r : Z) : Z.land r 1 = r mod 2.
Proof. change (Z.land r 1) with (Z.land r (Z.ones 1)). apply Z.land_ones. lia. Qed.

Lemma land_1_succ_pred (r : Z) :
  Z.land (r + 1) 1 = 1 - Z.land r 1 /\ Z.land (r - 1) 1 = 1 - Z.land r 1.
Proof. rewrite !land_1_mod. split; Z.div_mod_to_equations; lia. Qed.

(** Away from the ties of [round] (coefficients with fractional part one
    half) the nudge does flip the rounded parity. *)
Lemma adjust_flips_off_ties (coeff : Q) (desired : bool) :
  ~ (coeff - inject_Z (Qfloor coeff) == 1 # 2)%Q ->
  coeff_parity coeff <> Z.b2z desired ->
  coeff_parity (adjust coeff) = Z.b2z desired.
Proof.
  intros Hnt Hpar. unfold coeff_parity in *.
  assert (Hnew : Z.land (py_round (adjust coeff)) 1 = 1 - Z.land (py_round coeff) 1).
  { unfold adjust. destruct (Qle_bool 0 coeff).
    - change 1%Q with (inject_Z 1). rewrite py_round_shift by exact Hnt.
      apply land_1_succ_pred.
    - assert (Hm : (coeff - 1 == coeff + inject_Z (-1))%Q) by (cbn; ring).
      rewrite (py_round_comp _ _ Hm), py_round_shift by exact Hnt.
      apply (land_1_succ_pred (py_round coeff)). }
  rewrite Hnew.
  assert (Hbit : Z.land (py_round coeff) 1 = 0 \/ Z.land (py_round coeff) 1 = 1).
  { rewrite land_1_mod. Z.div_mod_to_equations. lia. }
  destruct desired; cbn [Z.b2z] in *; lia.
Qed.

(** ** The transform pair

    [cv2_idct] inverts [cv2_dct], and a block rebuilt from a coefficient
    matrix whose (4,4) entry was overwritten has exactly that entry as its
    (4,4) coefficient: what [dct_embed] loses, it loses in [np.clip] and the
    cast to [uint8], not in the transforms. *)

Lemma dot_plus (b : nat -> Q) (a : Q) (l : list Q) :
  (fold_right Qplus 0 (imap (fun k v => (v + a * b k) * b k) l)
   == fold_right Qplus 0 (imap (fun k v => v * b k) l)
      + a * fold_right Qplus 0 (imap (fun k _ => b k * b k) l))%Q.
Proof.
  revert b. induction l as [|x l IH]; intros b; cbn [imap fold_right]; [ring|].
  rewrite (IH (b ∘ S)). unfold compose. ring.
Qed.

Lemma dot_minus (b : nat -> Q) (a : Q) (l : list Q) :
  (fold_right Qplus 0 (imap (fun k v => (v - a * b k) * b k) l)
   == fold_right Qplus 0 (imap (fun k v => v * b k) l)
      - a * fold_right Qplus 0 (imap (fun k _ => b k * b k) l))%Q.
Proof.
  revert b. induction l as [|x l IH]; intros b; cbn [imap fold_right]; [ring|].
  rewrite (IH (b ∘ S)). unfold compose. ring.
Qed.

Lemma imap_imap {A B C : Type} (f : nat -> A -> B) (g : nat -> B -> C) (l : list A) :
  imap g (imap f l) = imap (fun k v => g k (f k v)) l.
Proof.
  revert f g. induction l as [|x l IH]; intros f g; cbn [imap]; [reflexivity|].
  f_equal. apply IH.
Qed.

Lemma imap_const_seq {A B : Type} (f : nat -> B) (l : list A) :
  imap (fun k _ => f k) l = map f (seq 0 (length l)).
Proof.
  revert f. induction l as [|x l IH]; intros f; cbn [imap length seq map]; [reflexivity|].
  f_equal. transitivity (imap (fun k _ => (f ∘ S) k) l); [reflexivity|].
  rewrite (IH (f ∘ S)). rewrite <- seq_shift, map_map. reflexivity.
Qed.

(** The basis function of coefficient (4,4) has norm 1. *)
Lemma basis44_norm (l : list Q) :
  length l = 64%nat ->
  (fold_right Qplus 0 (imap (fun k _ => basis44 k * basis44 k) l) == 1)%Q.
Proof.
  intros Hl. rewrite (imap_const_seq (fun k => (basis44 k * basis44 k)%Q)), Hl.
  vm_compute. reflexivity.
Qed.

Lemma dot44_others (block : list Q) :
  length block = 64%nat -> (dot44 (others (cv2_dct block)) == 0)%Q.
Proof.
  intros Hl. unfold cv2_dct, dot44 at 1. cbn [others]. rewrite imap_imap.
  rewrite (dot_minus basis44), (basis44_norm block Hl). unfold dot44. ring.
Qed.

(** Reading back the coefficient written. *)
Lemma dot44_idct_set (block : list Q) (v : Q) :
  length block = 64%nat ->
  (dot44 (cv2_idct (set_coeff44 (cv2_dct block) v)) == v)%Q.
Proof.
  intros Hl. unfold cv2_idct, set_coeff44. cbn [coeff44 others].
  unfold dot44 at 1. rewrite imap_imap.
  rewrite (dot_plus basis44).
  assert (Hlo : length (others (cv2_dct block)) = 64%nat)
    by (unfold cv2_dct; cbn [others]; rewrite length_imap; exact Hl).
  rewrite (basis44_norm _ Hlo).
  pose proof (dot44_others block Hl) as H0. unfold dot44 in H0. rewrite H0. ring.
Qed.

(** The inverse transform undoes the transform. *)
Lemma cv2_idct_dct (block : list Q) :
  Forall2 Qeq (cv2_idct (cv2_dct block)) block.
Proof.
  unfold cv2_idct, cv2_dct. cbn [coeff44 others]. rewrite imap_imap.
  generalize (dot44 block). intros c. generalize basis44. intros b.
  revert b. induction block as [|x block IH]; intros b; cbn [imap]; constructor.
  - ring.
  - apply (IH (b ∘ S)).
Qed.

(* ================================================================== *)
(** * Part III.  Further properties of the codec *)
(* ================================================================== *)

(** ** LSB plane *)

Lemma set_lsb_arith (v : Z) (b : bool) :
  is_uint8 v -> set_lsb v b = 2 * (v / 2) + Z.b2z b.
Proof.
  intros Hv. apply Z.bits_inj'. intros k Hk.
  rewrite set_lsb_testbit by exact Hv.
  destruct (Z.eqb_spec k 0) as [->|Hk0].
  - rewrite Z.testbit_0_r. reflexivity.
  - replace k with (Z.succ (k - 1)) by lia.
    rewrite Z.testbit_succ_r by lia.
    change (v / 2) with (v / 2 ^ 1).
    rewrite <- Z.shiftr_div_pow2, Z.shiftr_spec by lia. f_equal; lia.
Qed.

Lemma lsb_extract_formula (c : channel) (n : Z) (start : nat) :
  lsb_extract c n start
  = map get_lsb (take (Nat.min (Z.to_nat n) (size c - start)) (drop start (data c))).
Proof.
  unfold lsb_extract. destruct (Nat.leb_spec (size c) start) as [Hle|Hgt].
  - replace (size c - start)%nat with 0%nat by lia.
    rewrite Nat.min_0_r. reflexivity.
  - do 2 f_equal. lia.
Qed.

(** X1: on a well-formed channel, if [start + len(bits)] does not exceed the
    number of samples, [lsb_embed] succeeds and [lsb_extract] of the same
    count at the same offset reads exactly the bits written. *)
Theorem lsb_extract_after_embed (c : channel) (bits : list bool) (start : nat) :
  wf_channel c ->
  (start + length bits <= size c)%nat ->
  exists c',
    lsb_embed c bits start = Ok c'
    /\ lsb_extract c' (Z.of_nat (length bits)) start = bits.
Proof.
  intros [Hlen _] Hcap.
  destruct (lsb_embed_spec c bits start Hlen Hcap) as (flat' & Hrun & Hl & Hin & _).
  eexists. split; [exact Hrun|].
  rewrite lsb_extract_formula. unfold size at 1. cbn [rows cols data]. fold (size c).
  replace (Nat.min (Z.to_nat (Z.of_nat (length bits))) (size c - start))
    with (length bits) by lia.
  apply list_eq. intros i. rewrite list_lookup_fmap.
  destruct (decide (i < length bits)%nat) as [Hi|Hi].
  - rewrite lookup_take_lt, lookup_drop by exact Hi.
    destruct (lookup_lt_is_Some_2 bits i Hi) as [b Hb].
    destruct (lookup_lt_is_Some_2 (data c) (start + i)) as [v Hv]; [lia|].
    rewrite (Hin i b Hb), Hv, Hb. cbn. f_equal. apply get_set_lsb.
  - rewrite lookup_take_ge by lia. symmetry. apply lookup_ge_None. lia.
Qed.

Lemma lsb_extract_after_embed_witness :
  exists c',
    lsb_embed (mk_array 2 3 [10; 11; 12; 13; 14; 15]) [true; false; true] 2 = Ok c'
    /\ lsb_extract c' 3 2 = [true; false; true].
Proof.
  apply (lsb_extract_after_embed (mk_array 2 3 [10; 11; 12; 13; 14; 15])
           [true; false; true] 2).
  - split; [reflexivity|]. repeat constructor; lia.
  - cbn. lia.
Defined.

(** X2: within its capacity [lsb_embed] returns a well-formed channel of the
    same shape; a sample outside [start, start + len(bits)) is unchanged, and
    the sample at [start + i] becomes [2 * (v // 2) + bits[i]]: it keeps all
    its bits but the lowest and moves by at most 1. *)
Theorem lsb_embed_changes_only_lsbs (c : channel) (bits : list bool) (start : nat) :
  wf_channel c ->
  (start + length bits <= size c)%nat ->
  exists c',
    lsb_embed c bits start = Ok c'
    /\ rows c' = rows c /\ cols c' = cols c
    /\ wf_channel c'
    /\ (forall j v, data c !! j = Some v ->
          (j < start \/ start + length bits <= j)%nat ->
          data c' !! j = Some v)
    /\ (forall i b v, bits !! i = Some b -> data c !! (start + i)%nat = Some v ->
          data c' !! (start + i)%nat = Some (2 * (v / 2) + Z.b2z b)
          /\ -1 <= 2 * (v / 2) + Z.b2z b - v <= 1).
Proof.
  intros [Hlen Hall] Hcap.
  destruct (lsb_embed_spec c bits start Hlen Hcap) as (flat' & Hrun & Hl & Hin & Hout).
  eexists. split; [exact Hrun|]. cbn [rows cols data].
  split; [reflexivity|]. split; [reflexivity|].
  assert (Hu : forall j v, data c !! j = Some v -> is_uint8 v).
  { intros j v Hv. rewrite Forall_lookup in Hall. apply (Hall j v Hv). }
  split; [split|split].
  - unfold size. cbn [rows cols data]. rewrite Hl. exact Hlen.
  - cbn [data]. apply Forall_lookup. intros j x Hx.
    destruct (lookup_lt_is_Some_2 (data c) j) as [v Hv].
    { apply lookup_lt_Some in Hx. lia. }
    destruct (decide (j < start \/ start + length bits <= j)%nat) as [Ho|Hi].
    + rewrite (Hout j Ho), Hv in Hx. injection Hx as <-. apply (Hu j v Hv).
    + destruct (lookup_lt_is_Some_2 bits (j - start)) as [b Hb]; [lia|].
      pose proof (Hin (j - start)%nat b Hb) as Hj.
      replace (start + (j - start))%nat with j in Hj by lia.
      rewrite Hj, Hv in Hx. injection Hx as <-. apply set_lsb_uint8, (Hu j v Hv).
  - intros j v Hv Ho. rewrite (Hout j Ho). exact Hv.
  - intros i b v Hb Hv. rewrite (Hin i b Hb), Hv. cbn.
    pose proof (Hu _ v Hv) as Huv. rewrite (set_lsb_arith v b Huv).
    split; [reflexivity|]. destruct b; cbn [Z.b2z]; Z.div_mod_to_equations; lia.
Qed.

Lemma lsb_embed_changes_only_lsbs_witness :
  exists c',
    lsb_embed (mk_array 2 3 [10; 11; 12; 13; 14; 15]) [true; false; true] 2 = Ok c'
    /\ data c' = [10; 11; 13; 12; 15; 15].
Proof.
  destruct (lsb_embed_changes_only_lsbs (mk_array 2 3 [10; 11; 12; 13; 14; 15])
              [true; false; true] 2) as (c' & Hrun & _).
  - split; [reflexivity|]. repeat constructor; lia.
  - cbn. lia.
  - exists c'. split; [exact Hrun|].
    vm_compute in Hrun. injection Hrun as <-. reflexivity.
Defined.

(** X3: [lsb_extract] returns [min(length, size - start)] bits on a
    well-formed channel (none when [start >= size] or [length <= 0]), and
    asking for fewer bits gives a prefix of what asking for more gives. *)
Theorem lsb_extract_truncates (c : channel) (n m : Z) (start : nat) :
  length (data c) = size c ->
  n <= m ->
  length (lsb_extract c n start) = Nat.min (Z.to_nat n) (size c - start)
  /\ lsb_extract c n start = take (Z.to_nat n) (lsb_extract c m start).
Proof.
  intros Hlen Hnm. rewrite !lsb_extract_formula. split.
  - rewrite length_map, length_take, length_drop, Hlen. lia.
  - rewrite <- fmap_take, take_take. do 2 f_equal. lia.
Qed.

Lemma lsb_extract_truncates_witness :
  length (lsb_extract (mk_array 2 3 [10; 11; 12; 13; 14; 15]) 9 4) = 2%nat
  /\ lsb_extract (mk_array 2 3 [10; 11; 12; 13; 14; 15]) 1 4
     = take 1 (lsb_extract (mk_array 2 3 [10; 11; 12; 13; 14; 15]) 9 4).
Proof.
  split.
  - destruct (lsb_extract_truncates (mk_array 2 3 [10; 11; 12; 13; 14; 15]) 9 9 4
                eq_refl ltac:(lia)) as [H _].
    rewrite H. reflexivity.
  - apply (lsb_extract_truncates (mk_array 2 3 [10; 11; 12; 13; 14; 15]) 1 9 4
             eq_refl ltac:(lia)).
Defined.

(** ** Extraction reads a prefix of the carrier stream *)

Lemma block_coords_full (h w by_ bx : nat) :
  (by_, bx) ∈ block_coords (h / 8) (w / 8) ->
  block_shape h w 8 (by_ * 8) (bx * 8) = (8%nat, 8%nat).
Proof.
  intros Hin. apply list_elem_of_lookup in Hin as [k Hk].
  apply block_coords_lookup in Hk as (Hby & Hbx & _).
  pose proof (Nat.div_mod_eq h 8). pose proof (Nat.div_mod_eq w 8).
  unfold block_shape. f_equal; lia.
Qed.

Lemma dct_extract_loop_formula (g : channel) (coords : list (nat * nat))
    (n bit_idx : Z) (extracted : list bool) :
  (forall c, c ∈ coords ->
     block_shape (rows g) (cols g) 8 (fst c * 8) (snd c * 8) = (8%nat, 8%nat)) ->
  dct_extract_loop (rows g) (cols g) 8 (data g) coords n bit_idx extracted
  = extracted ++ take (Z.to_nat (n - bit_idx)) (map (block_bit g) coords).
Proof.
  revert bit_idx extracted.
  induction coords as [|[by_ bx] coords IH]; intros bit_idx extracted Hfull;
    cbn [dct_extract_loop map].
  - rewrite take_nil, app_nil_r. reflexivity.
  - destruct (Z.leb_spec n bit_idx) as [Hdone|Hmore].
    + replace (Z.to_nat (n - bit_idx)) with 0%nat by lia.
      cbn [take]. rewrite app_nil_r. reflexivity.
    + pose proof (Hfull (by_, bx) ltac:(left)) as Hs. cbn [fst snd] in Hs.
      rewrite Hs. cbn [fst snd Nat.eqb andb negb].
      rewrite IH by (intros c Hc; apply Hfull; right; exact Hc).
      replace (Z.to_nat (n - bit_idx)) with (S (Z.to_nat (n - (bit_idx + 1)))) by lia.
      cbn [take]. rewrite <- app_assoc. reflexivity.
Qed.

Lemma dct_extract_formula (g : channel) (n : Z) :
  dct_extract g n 8 0
  = take (Z.to_nat n) (map (block_bit g) (block_coords (rows g / 8) (cols g / 8))).
Proof.
  unfold dct_extract.
  destruct (Nat.leb_spec (rows g / 8 * (cols g / 8)) 0) as [H0|Hpos].
  - assert (Hnil : block_coords (rows g / 8) (cols g / 8) = []).
    { apply length_zero_iff_nil. rewrite block_coords_length. lia. }
    rewrite Hnil. cbn [map]. rewrite take_nil. reflexivity.
  - rewrite dct_extract_loop_formula.
    + rewrite Z.sub_0_r. reflexivity.
    + intros [by_ bx] Hc. apply block_coords_full, Hc.
Qed.

(** X4: [dct_extract] with block size 8 returns [min(length, blocks)] bits,
    where [blocks = (h // 8) * (w // 8)], whatever the samples are (none if
    the plane has fewer than 8 rows or columns, or [length <= 0]); asking for
    fewer bits gives a prefix of what asking for more gives. *)
Theorem dct_extract_truncates (g : channel) (n m : Z) :
  n <= m ->
  length (dct_extract g n 8 0) = Nat.min (Z.to_nat n) (rows g / 8 * (cols g / 8))
  /\ dct_extract g n 8 0 = take (Z.to_nat n) (dct_extract g m 8 0).
Proof.
  intros Hnm. rewrite !dct_extract_formula. split.
  - rewrite length_take, length_map, block_coords_length. reflexivity.
  - rewrite take_take. f_equal. lia.
Qed.

Lemma dct_extract_truncates_witness :
  length (dct_extract (mk_array 8 17 (replicate 136 7)) 5 8 0) = 2%nat
  /\ dct_extract (mk_array 8 17 (replicate 136 7)) 1 8 0
     = take 1 (dct_extract (mk_array 8 17 (replicate 136 7)) 5 8 0).
Proof.
  split.
  - destruct (dct_extract_truncates (mk_array 8 17 (replicate 136 7)) 5 5
                ltac:(lia)) as [H _].
    rewrite H. reflexivity.
  - apply (dct_extract_truncates (mk_array 8 17 (replicate 136 7)) 1 5 ltac:(lia)).
Defined.

Lemma hybrid_extract_formula (im : image) (n : Z) :
  wf_image im ->
  hybrid_extract im n = take (Z.to_nat n) (carrier_bits im).
Proof.
  intros Hwf. unfold carrier_bits.
  assert (Hb : length (data (blue im)) = size im)
    by (destruct Hwf as [<- _]; apply plane_shapes).
  destruct (Z.le_gt_cases n (Z.of_nat (size im))) as [Hfit|Hover].
  - destruct (Z.le_gt_cases 0 n) as [Hn|Hn].
    + rewrite hybrid_extract_fits by (try exact Hwf; lia).
      rewrite take_app_le by (rewrite length_map; lia).
      rewrite fmap_take. reflexivity.
    + unfold hybrid_extract. rewrite split_planes.
      change (size (blue im)) with (size im).
      destruct (Z.leb_spec n (Z.of_nat (size im))); [|lia].
      rewrite lsb_extract_formula.
      replace (Z.to_nat n) with 0%nat by lia. reflexivity.
  - rewrite hybrid_extract_overflows by (try exact Hwf; lia).
    rewrite dct_extract_formula.
    change (rows (green im)) with (rows im). change (cols (green im)) with (cols im).
    rewrite take_app_ge by (rewrite length_map; lia).
    rewrite length_map, Hb. do 3 f_equal. lia.
Qed.

Lemma carrier_bits_length (im : image) :
  wf_image im ->
  length (carrier_bits im) = total_capacity (rows im) (cols im).
Proof.
  intros [Hlen _]. unfold carrier_bits, total_capacity.
  rewrite length_app, !length_map, block_coords_length.
  assert (length (data (blue im)) = length (data im)) as -> by apply plane_shapes.
  rewrite Hlen. reflexivity.
Qed.

(** X5: on a well-formed image [hybrid_extract(image, n)] is the first [n]
    bits of one fixed stream of [total_capacity = h*w + (h//8)*(w//8)] bits
    (the blue LSBs in flat order, then one bit a green block in row-major
    order): it returns [min(n, total_capacity)] bits, never more than asked,
    and a shorter read is a prefix of a longer one, so the header read by
    [extract_message] is the start of its second read. *)
Theorem hybrid_extract_prefix_of_carrier (im : image) (n m : Z) :
  wf_image im ->
  n <= m ->
  hybrid_extract im n = take (Z.to_nat n) (carrier_bits im)
  /\ length (hybrid_extract im n)
     = Nat.min (Z.to_nat n) (rows im * cols im + rows im / 8 * (cols im / 8))
  /\ hybrid_extract im n = take (Z.to_nat n) (hybrid_extract im m).
Proof.
  intros Hwf Hnm. rewrite !hybrid_extract_formula by exact Hwf.
  split; [reflexivity|]. split.
  - rewrite length_take, carrier_bits_length by exact Hwf. reflexivity.
  - rewrite take_take. f_equal. lia.
Qed.

Lemma hybrid_extract_prefix_of_carrier_witness :
  length (hybrid_extract (mk_array 8 9 (replicate 72 (1, 2, 3))) 100) = 73%nat
  /\ hybrid_extract (mk_array 8 9 (replicate 72 (1, 2, 3))) 32
     = take 32 (hybrid_extract (mk_array 8 9 (replicate 72 (1, 2, 3))) 100).
Proof.
  assert (Hwf : wf_image (mk_array 8 9 (replicate 72 (1, 2, 3)))).
  { split; [apply length_replicate|]. apply Forall_replicate. cbn. unfold is_uint8. lia. }
  split.
  - destruct (hybrid_extract_prefix_of_carrier _ 100 100 Hwf ltac:(lia)) as (_ & H & _).
    rewrite H. reflexivity.
  - apply (hybrid_extract_prefix_of_carrier _ 32 100 Hwf ltac:(lia)).
Defined.

(** ** Hybrid allocator and DCT plane *)

(** X6: on a well-formed image [hybrid_embed] succeeds exactly when the
    stream has at most [h*w + (h//8)*(w//8)] bits, and then returns a
    well-formed image of the same shape; otherwise it raises its own
    ["Payload too large"] error.  The capacity errors of [lsb_embed] and
    [dct_embed] and an index error never come out of it. *)
Theorem hybrid_embed_succeeds_iff_fits (im : image) (bits : list bool) :
  wf_image im ->
  let cap := (rows im * cols im + rows im / 8 * (cols im / 8))%nat in
  ((length bits <= cap)%nat ->
     exists out, hybrid_embed im bits = Ok out
                 /\ rows out = rows im /\ cols out = cols im /\ wf_image out)
  /\ ((cap < length bits)%nat ->
      hybrid_embed im bits
      = Raise (ValueError (payload_too_large (length bits) cap))).
Proof.
  intros Hwf cap. split.
  - intros Hfit. destruct (hybrid_embed_ok im bits Hwf Hfit) as (out & Hrun & Hst).
    destruct Hst as (Hr & Hc & Hwfo & _). exists out.
    split; [exact Hrun|]. split; [exact Hr|]. split; [exact Hc|exact Hwfo].
  - intros Hover. apply hybrid_embed_too_large. exact Hover.
Qed.

Lemma hybrid_embed_succeeds_iff_fits_witness :
  (exists out,
     hybrid_embed (mk_array 8 9 (replicate 72 (1, 2, 3))) (replicate 73 true) = Ok out
     /\ rows out = 8%nat /\ cols out = 9%nat /\ wf_image out)
  /\ hybrid_embed (mk_array 8 9 (replicate 72 (1, 2, 3))) (replicate 74 true)
     = Raise (ValueError "Payload too large for image. Need 74 bits, capacity 73.").
Proof.
  assert (Hwf : wf_image (mk_array 8 9 (replicate 72 (1, 2, 3)))).
  { split; [apply length_replicate|]. apply Forall_replicate. cbn. unfold is_uint8. lia. }
  pose proof (hybrid_embed_succeeds_iff_fits _ (replicate 73 true) Hwf) as H1.
  pose proof (hybrid_embed_succeeds_iff_fits _ (replicate 74 true) Hwf) as H2.
  cbv zeta in H1, H2. split.
  - apply H1. cbn. lia.
  - destruct H2 as [_ H2]. rewrite H2 by (cbn; lia). reflexivity.
Defined.

Lemma hybrid_extract_stego_blue (im out : image) (bits : list bool) (n : nat) :
  wf_image im -> stego_of im bits out ->
  (n <= length bits)%nat -> (n <= size im)%nat ->
  hybrid_extract out (Z.of_nat n) = take n bits.
Proof.
  intros Hwf (Hr & Hc & Hwfo & _ & Hblue & _) Hn Hsz.
  assert (Hsize : size out = size im) by (unfold size; congruence).
  rewrite hybrid_extract_fits by (try exact Hwfo; lia).
  rewrite Nat2Z.id. apply list_eq. intros i. rewrite list_lookup_fmap.
  destruct (decide (i < n)%nat) as [Hi|Hi].
  - rewrite !lookup_take_lt by exact Hi.
    assert (Hbl : length (data (blue im)) = size im)
      by (destruct Hwf as [<- _]; apply plane_shapes).
    destruct (lookup_lt_is_Some_2 (data (blue im)) i ltac:(lia)) as [v Hv].
    destruct (lookup_lt_is_Some_2 bits i ltac:(lia)) as [b Hb].
    rewrite (Hblue i v Hv), Hb. cbn. f_equal. apply get_set_lsb.
  - rewrite !lookup_take_ge by lia. reflexivity.
Qed.

(** X7: whatever [hybrid_embed] writes into the blue plane is read back: for
    a well-formed image and a stream within the total capacity, the first
    [n] bits of the stream come back from [hybrid_extract(stego, n)] for
    every [n] up to the number of blue samples, also when the rest of the
    stream overflowed into the green plane. *)
Theorem hybrid_extract_after_embed (im : image) (bits : list bool) (n : nat) :
  wf_image im ->
  (length bits <= rows im * cols im + rows im / 8 * (cols im / 8))%nat ->
  (n <= length bits)%nat ->
  (n <= rows im * cols im)%nat ->
  exists out,
    hybrid_embed im bits = Ok out
    /\ hybrid_extract out (Z.of_nat n) = take n bits.
Proof.
  intros Hwf Hcap Hn Hsz.
  destruct (hybrid_embed_ok im bits Hwf Hcap) as (out & Hrun & Hst).
  exists out. split; [exact Hrun|].
  apply (hybrid_extract_stego_blue im out bits n Hwf Hst Hn Hsz).
Qed.

Lemma hybrid_extract_after_embed_witness :
  exists out,
    hybrid_embed (mk_array 8 9 (replicate 72 (1, 2, 3)))
      (replicate 40 true ++ replicate 33 false) = Ok out
    /\ hybrid_extract out 72 = replicate 40 true ++ replicate 32 false.
Proof.
  assert (Hwf : wf_image (mk_array 8 9 (replicate 72 (1, 2, 3)))).
  { split; [apply length_replicate|]. apply Forall_replicate. cbn. unfold is_uint8. lia. }
  apply (hybrid_extract_after_embed _ (replicate 40 true ++ replicate 33 false) 72 Hwf);
    cbn; lia.
Defined.

(** X8: on a well-formed plane [dct_embed] with block size 8 raises its
    capacity error when there are more bits than 8x8 blocks; otherwise it
    returns a well-formed plane of the same shape in which every sample
    outside the first [len(bits)] blocks (in row-major block order) is the
    input's, the margins right of and below the block grid included. *)
Theorem dct_embed_touches_only_carrier_blocks (g : channel) (bits : list bool) :
  wf_channel g ->
  ((length bits <= rows g / 8 * (cols g / 8))%nat ->
     exists g',
       dct_embed g bits 8 0 = Ok g'
       /\ rows g' = rows g /\ cols g' = cols g /\ wf_channel g'
       /\ (forall y x, (y < rows g)%nat -> (x < cols g)%nat ->
             in_carrier_block (rows g) (cols g) (length bits) y x = false ->
             data g' !! (y * cols g + x)%nat = data g !! (y * cols g + x)%nat))
  /\ ((rows g / 8 * (cols g / 8) < length bits)%nat ->
      dct_embed g bits 8 0 = Raise (ValueError capacity_error_dct)).
Proof.
  intros Hwf. split.
  - intros Hfit.
    destruct (dct_embed_spec g bits Hwf Hfit) as (data' & Hrun & Hl & Hall & Hother).
    eexists. split; [exact Hrun|]. cbn [rows cols data].
    split; [reflexivity|]. split; [reflexivity|]. split; [|exact Hother].
    split; [|exact Hall]. unfold size. cbn [rows cols data].
    rewrite Hl. apply Hwf.
  - intros Hover. apply dct_embed_too_small, Hover.
Qed.

Lemma dct_embed_touches_only_carrier_blocks_witness :
  (exists g',
     dct_embed (mk_array 8 17 (replicate 136 7)) [true] 8 0 = Ok g'
     /\ data g' !! (3 * 17 + 8)%nat = Some 7)
  /\ dct_embed (mk_array 8 17 (replicate 136 7)) [true; true; false] 8 0
     = Raise (ValueError capacity_error_dct).
Proof.
  assert (Hwf : wf_channel (mk_array 8 17 (replicate 136 7))).
  { split; [apply length_replicate|]. apply Forall_replicate. unfold is_uint8. lia. }
  split.
  - destruct (dct_embed_touches_only_carrier_blocks _ [true] Hwf) as [H _].
    destruct (H ltac:(cbn; lia)) as (g' & Hrun & _ & _ & _ & Hother).
    exists g'. split; [exact Hrun|].
    etransitivity;
      [exact (Hother 3%nat 8%nat ltac:(cbn; lia) ltac:(cbn; lia) eq_refl)|reflexivity].
  - destruct (dct_embed_touches_only_carrier_blocks _ [true; true; false] Hwf) as [_ H].
    apply H. cbn. lia.
Defined.

(** ** Bit codec *)

Lemma format_0b_8_lookup (b : Z) (j : nat) :
  is_uint8 b -> (j < 8)%nat ->
  format_0b 8 b !! j = Some (Z.testbit b (7 - Z.of_nat j)).
Proof.
  intros Hb Hj.
  assert (Hl : length (format_0b 8 b) = 8%nat).
  { apply format_0b_length; [lia|]. unfold is_uint8 in Hb. cbn. lia. }
  rewrite int_of_bits_testbit by lia.
  rewrite format_0b_value by (unfold is_uint8 in Hb; lia).
  rewrite Hl. do 2 f_equal. lia.
Qed.

(** X9: [text_to_bits] gives exactly 8 bits a byte, most significant first:
    bit [8*i + j] of the stream is bit [7 - j] of byte [i]. *)
Theorem text_to_bits_msb_first (bs : pybytes) :
  Forall is_uint8 bs ->
  length (text_to_bits bs) = (8 * length bs)%nat
  /\ (forall i j b, bs !! i = Some b -> (j < 8)%nat ->
        text_to_bits bs !! (8 * i + j)%nat = Some (Z.testbit b (7 - Z.of_nat j))).
Proof.
  intros Hall. split; [apply text_to_bits_length, Hall|].
  induction Hall as [|b0 bs Hb0 Hall IH]; intros i j b Hi Hj; [discriminate Hi|].
  assert (Hl : length (format_0b 8 b0) = 8%nat).
  { apply format_0b_length; [lia|]. unfold is_uint8 in Hb0. cbn. lia. }
  unfold text_to_bits. cbn [flat_map]. fold (text_to_bits bs).
  destruct i as [|i].
  - injection Hi as <-. rewrite lookup_app_l by lia.
    replace (8 * 0 + j)%nat with j by lia. apply format_0b_8_lookup; assumption.
  - cbn in Hi. rewrite lookup_app_r by lia. rewrite Hl.
    replace (8 * S i + j - 8)%nat with (8 * i + j)%nat by lia.
    apply IH; assumption.
Qed.

Lemma text_to_bits_msb_first_witness :
  length (text_to_bits [72; 105]) = 16%nat
  /\ text_to_bits [72; 105] !! 9%nat = Some true.
Proof.
  destruct (text_to_bits_msb_first [72; 105]) as [Hl Hb].
  - repeat constructor; lia.
  - split; [exact Hl|]. apply (Hb 1%nat 1%nat 105 eq_refl). lia.
Defined.

(** X10: [bits_to_text] ignores an incomplete trailing byte: for a stream of
    [8*k] bits followed by fewer than 8 more, the decoded bytes, [k] of them,
    and the text are those of the first [8*k] bits alone. *)
Theorem bits_to_text_drops_partial_byte (k : nat) (bits tail : list bool) :
  length bits = (8 * k)%nat ->
  (length tail < 8)%nat ->
  bits_to_text (bits ++ tail) = bits_to_text bits
  /\ byte_values (bits ++ tail) = byte_values bits
  /\ length (byte_values bits) = k.
Proof.
  intros Hl Ht. destruct (byte_values_app_tail k bits tail Hl Ht) as [Heq Hlen].
  unfold bits_to_text. rewrite Heq. repeat split; assumption.
Qed.

Lemma bits_to_text_drops_partial_byte_witness :
  bits_to_text ([false; true; false; false; true; false; false; false]
                ++ [true; true; true])
  = [72].
Proof.
  destruct (bits_to_text_drops_partial_byte 1
              [false; true; false; false; true; false; false; false]
              [true; true; true] eq_refl ltac:(cbn; lia)) as [-> _].
  reflexivity.
Defined.

(** X11: the two directions of the bit codec compose to the identity on what
    [str.encode] produces: the bytes come back from their bits, and
    [bits_to_text(text_to_bits(s.encode()))] is [s]. *)
Theorem bits_to_text_inverts_text_to_bits (s : pystr) (bs : pybytes) :
  utf8_encode s = Ok bs ->
  byte_values (text_to_bits bs) = bs
  /\ bits_to_text (text_to_bits bs) = s.
Proof.
  intros He. pose proof (utf8_encode_bytes s bs He) as Hb. split.
  - unfold byte_values. apply byte_values_loop_text_to_bits; [exact Hb|].
    rewrite text_to_bits_length by exact Hb. lia.
  - apply bits_to_text_of_encoded, He.
Qed.

Lemma bits_to_text_inverts_text_to_bits_witness :
  bits_to_text (text_to_bits [72; 195; 169; 226; 130; 172]) = [72; 233; 8364].
Proof.
  apply (bits_to_text_inverts_text_to_bits [72; 233; 8364]
           [72; 195; 169; 226; 130; 172] eq_refl).
Defined.

(** ** Key wrapping, end to end *)

Lemma Forall_flat_map_of {A B : Type} (Q : A -> Prop) (P : B -> Prop)
    (f : A -> list B) (l : list A) :
  (forall x, Q x -> Forall P (f x)) -> Forall Q l -> Forall P (flat_map f l).
Proof.
  intros Hf Hl. induction Hl as [|x l Hx _ IH]; cbn [flat_map]; [constructor|].
  apply Forall_app. split; [apply Hf, Hx|exact IH].
Qed.

Lemma sha_be_bytes_uint8 (n : nat) (x : Z) : Forall is_uint8 (Sha256.be_bytes n x).
Proof.
  induction n as [|n IH]; cbn [Sha256.be_bytes]; constructor; [|exact IH].
  unfold is_uint8. apply Z.mod_pos_bound. lia.
Qed.

(** The digest is made of ASCII characters, so [encode] maps each of them to
    one byte. *)
Lemma hexdigest_ascii (msg : pybytes) :
  Forall (fun c => 0 <= c < 128) (Sha256.hexdigest msg).
Proof.
  unfold Sha256.hexdigest.
  apply (Forall_flat_map_of is_uint8).
  - intros b Hb. unfold is_uint8 in Hb. unfold Sha256.hex_of_byte, Sha256.hex_digit.
    assert (0 <= b / 16 < 16) by (Z.div_mod_to_equations; lia).
    assert (0 <= b mod 16 < 16) by (Z.div_mod_to_equations; lia).
    repeat constructor; case_match; lia.
  - apply (Forall_flat_map_of (fun _ => True)).
    + intros x _. apply sha_be_bytes_uint8.
    + apply Forall_forall. intros; exact I.
Qed.

Lemma utf8_encode_ascii (s : pystr) :
  Forall (fun c => 0 <= c < 128) s -> utf8_encode s = Ok s.
Proof.
  induction 1 as [|c s Hc _ IH]; [reflexivity|].
  cbn [utf8_encode]. unfold utf8_encode_char.
  destruct (Z.ltb_spec c 0); [lia|]. destruct (Z.ltb_spec c 128); [|lia].
  cbn [bind]. rewrite IH. reflexivity.
Qed.

Lemma utf8_encode_app (s t : pystr) :
  utf8_encode (s ++ t)
  = try! a := utf8_encode s in try! b := utf8_encode t in Ok (a ++ b).
Proof.
  induction s as [|c s IH]; cbn [app utf8_encode bind].
  - destruct (utf8_encode t); reflexivity.
  - destruct (utf8_encode_char c) as [cb|e]; [|reflexivity]. cbn [bind].
    rewrite IH. destruct (utf8_encode s) as [a|e]; [|reflexivity]. cbn [bind].
    destruct (utf8_encode t) as [b|e]; [|reflexivity]. cbn [bind].
    rewrite app_assoc. reflexivity.
Qed.

(** What [_apply_key_wrap] and [encode] make of a message under a non-empty
    key. *)
Lemma keyed_payload (message key kb : pystr) (mb : pybytes) :
  key <> [] -> utf8_encode key = Ok kb -> utf8_encode message = Ok mb ->
  let pre := take 16 (Sha256.hexdigest kb) in
  let suf := drop 48 (Sha256.hexdigest kb) in
  _apply_key_wrap message (Some key) = Ok (pre ++ message ++ suf)
  /\ utf8_encode (pre ++ message ++ suf) = Ok (pre ++ mb ++ suf)
  /\ length pre = 16%nat /\ length suf = 16%nat.
Proof.
  intros Hne Hk Hm pre suf.
  pose proof (apply_key_wrap_eq key kb Hne Hk message) as Hw. cbv zeta in Hw.
  destruct (key_affix_lengths kb) as [Hp Hs].
  split; [exact Hw|]. split; [|split; assumption].
  rewrite !utf8_encode_app, Hm.
  rewrite (utf8_encode_ascii pre)
    by (apply Forall_take, hexdigest_ascii).
  rewrite (utf8_encode_ascii suf)
    by (apply Forall_drop, hexdigest_ascii).
  reflexivity.
Qed.

(** Unwrapping under a key whose digest differs in the first or in the last
    16 characters. *)
Lemma remove_key_wrap_mismatch (message key1 kb1 key2 kb2 : pystr) :
  key1 <> [] -> utf8_encode key1 = Ok kb1 ->
  key2 <> [] -> utf8_encode key2 = Ok kb2 ->
  take 16 (Sha256.hexdigest kb1) <> take 16 (Sha256.hexdigest kb2)
  \/ drop 48 (Sha256.hexdigest kb1) <> drop 48 (Sha256.hexdigest kb2) ->
  _remove_key_wrap
    (take 16 (Sha256.hexdigest kb1) ++ message ++ drop 48 (Sha256.hexdigest kb1))
    (Some key2)
  = Ok invalid_key.
Proof.
  intros Hne1 Hk1 Hne2 Hk2 Hdiff.
  pose proof (remove_key_wrap_eq key2 kb2 Hne2 Hk2) as Hr. cbv zeta in Hr.
  rewrite Hr. clear Hr.
  destruct (key_affix_lengths kb1) as [Hp1 Hs1].
  destruct (key_affix_lengths kb2) as [Hp2 Hs2].
  set (pre1 := take 16 (Sha256.hexdigest kb1)) in *.
  set (suf1 := drop 48 (Sha256.hexdigest kb1)) in *.
  set (pre2 := take 16 (Sha256.hexdigest kb2)) in *.
  set (suf2 := drop 48 (Sha256.hexdigest kb2)) in *.
  destruct (startswith (pre1 ++ message ++ suf1) pre2) eqn:Hsw; [|reflexivity].
  destruct (endswith (pre1 ++ message ++ suf1) suf2) eqn:Hew; [|reflexivity].
  exfalso.
  apply startswith_prefix in Hsw. destruct Hsw as [k1 Hk1'].
  apply endswith_suffix in Hew. destruct Hew as [k2 Hk2'].
  apply app_inj_1 in Hk1'; [|congruence].
  rewrite app_assoc in Hk2'. apply app_inj_2 in Hk2'; [|congruence].
  destruct Hdiff as [Hd|Hd]; apply Hd; [apply Hk1'|apply Hk2'].
Qed.

(** X12: under a non-empty key that [str.encode] accepts, [_apply_key_wrap]
    returns a string 32 characters longer than the message, and
    [_remove_key_wrap] with the same key gives the message back, whatever the
    message is. *)
Theorem key_wrap_round_trip (message key kb : pystr) :
  key <> [] ->
  utf8_encode key = Ok kb ->
  exists wrapped,
    _apply_key_wrap message (Some key) = Ok wrapped
    /\ length wrapped = (length message + 32)%nat
    /\ _remove_key_wrap wrapped (Some key) = Ok message.
Proof.
  intros Hne Hk.
  pose proof (apply_key_wrap_eq key kb Hne Hk message) as Hw. cbv zeta in Hw.
  destruct (key_affix_lengths kb) as [Hp Hs].
  eexists. split; [exact Hw|]. split.
  - rewrite !length_app, Hp, Hs. lia.
  - apply apply_then_remove_key_wrap, Hw.
Qed.

Lemma key_wrap_round_trip_witness :
  exists wrapped,
    _apply_key_wrap (str "Invalid Key!") (Some (str "abc")) = Ok wrapped
    /\ length wrapped = 44%nat
    /\ _remove_key_wrap wrapped (Some (str "abc")) = Ok (str "Invalid Key!").
Proof.
  apply (key_wrap_round_trip (str "Invalid Key!") (str "abc") (str "abc"));
    [discriminate|reflexivity].
Defined.

(** X13: a non-empty key adds exactly 32 bytes to the payload: the 32 digest
    characters are ASCII, so the encoded wrapped message is the 16 bytes of
    the prefix, the encoded message and the 16 bytes of the suffix, and the
    framed stream needs 288 bits plus 8 a message byte. *)
Theorem key_wrap_adds_32_bytes (message key kb : pystr) (mb : pybytes) :
  key <> [] ->
  utf8_encode key = Ok kb ->
  utf8_encode message = Ok mb ->
  Z.of_nat (length mb) + 32 < 2 ^ 32 ->
  exists wrapped payload,
    _apply_key_wrap message (Some key) = Ok wrapped
    /\ utf8_encode wrapped = Ok payload
    /\ payload = take 16 (Sha256.hexdigest kb) ++ mb ++ drop 48 (Sha256.hexdigest kb)
    /\ length payload = (length mb + 32)%nat
    /\ length (frame payload) = (288 + 8 * length mb)%nat.
Proof.
  intros Hne Hk Hm Hlen.
  destruct (keyed_payload message key kb mb Hne Hk Hm) as (Hw & He & Hp & Hs).
  do 2 eexists. split; [exact Hw|]. split; [exact He|]. split; [reflexivity|].
  assert (Hl : length (take 16 (Sha256.hexdigest kb) ++ mb
                       ++ drop 48 (Sha256.hexdigest kb)) = (length mb + 32)%nat)
    by (rewrite !length_app, Hp, Hs; lia).
  split; [exact Hl|].
  rewrite frame_length; [lia|apply (utf8_encode_bytes _ _ He)|lia].
Qed.

Lemma key_wrap_adds_32_bytes_witness :
  exists wrapped payload,
    _apply_key_wrap [233] (Some (str "k")) = Ok wrapped
    /\ utf8_encode wrapped = Ok payload
    /\ length payload = 34%nat
    /\ length (frame payload) = 304%nat.
Proof.
  destruct (key_wrap_adds_32_bytes [233] (str "k") (str "k") [195; 169])
    as (wrapped & payload & Hw & He & _ & Hl & Hf);
    [discriminate|reflexivity|reflexivity|cbn; lia|].
  exists wrapped, payload. repeat split; assumption.
Defined.

(** X14: what another key does to a wrapped message.  [_remove_key_wrap]
    compares only the first and the last 16 characters of the digest: a key
    whose digest agrees with the wrapping key's on both unwraps the message;
    a key whose digest differs on one of them gets the sentinel
    ["Invalid Key!"], returned as a normal value. *)
Theorem remove_key_wrap_other_key (message key1 kb1 key2 kb2 wrapped : pystr) :
  key1 <> [] -> utf8_encode key1 = Ok kb1 ->
  key2 <> [] -> utf8_encode key2 = Ok kb2 ->
  _apply_key_wrap message (Some key1) = Ok wrapped ->
  (take 16 (Sha256.hexdigest kb1) = take 16 (Sha256.hexdigest kb2)
   /\ drop 48 (Sha256.hexdigest kb1) = drop 48 (Sha256.hexdigest kb2) ->
   _remove_key_wrap wrapped (Some key2) = Ok message)
  /\ (take 16 (Sha256.hexdigest kb1) <> take 16 (Sha256.hexdigest kb2)
      \/ drop 48 (Sha256.hexdigest kb1) <> drop 48 (Sha256.hexdigest kb2) ->
      _remove_key_wrap wrapped (Some key2) = Ok invalid_key).
Proof.
  intros Hne1 Hk1 Hne2 Hk2 Hw.
  pose proof (apply_key_wrap_eq key1 kb1 Hne1 Hk1 message) as Hw1. cbv zeta in Hw1.
  rewrite Hw1 in Hw. injection Hw as <-. split.
  - intros [Hp Hs]. rewrite Hp, Hs.
    pose proof (apply_key_wrap_eq key2 kb2 Hne2 Hk2 message) as Hw2. cbv zeta in Hw2.
    apply apply_then_remove_key_wrap, Hw2.
  - apply (remove_key_wrap_mismatch message key1 kb1 key2 kb2); assumption.
Qed.

Lemma remove_key_wrap_other_key_witness :
  (try! wrapped := _apply_key_wrap (str "hi") (Some (str "abc")) in
   _remove_key_wrap wrapped (Some (str "xyz"))) = Ok (str "Invalid Key!").
Proof.
  pose proof (apply_key_wrap_eq (str "abc") (str "abc") ltac:(discriminate) eq_refl
                (str "hi")) as Hw. cbv zeta in Hw.
  rewrite Hw. cbn [bind].
  apply (remove_key_wrap_other_key (str "hi") (str "abc") (str "abc")
           (str "xyz") (str "xyz") _ ltac:(discriminate) eq_refl
           ltac:(discriminate) eq_refl Hw).
  left. vm_compute. discriminate.
Defined.

(** ** Embedding, then extracting *)

Lemma apply_key_wrap_encodable (message wrapped : pystr) (key : option pystr) :
  _apply_key_wrap message key = Ok wrapped -> key_encodable key.
Proof.
  destruct key as [[|c k]|]; cbn [key_encodable]; [exists []; reflexivity| |exact (fun _ => I)].
  unfold _apply_key_wrap, key_digest.
  destruct (utf8_encode (c :: k)) as [kb|e]; [|discriminate].
  intros _. exists kb. reflexivity.
Qed.

(** When the framed stream fits in the blue plane, the stego image gives the
    wrapped message back to every extraction, whatever key is tried. *)
Lemma extract_after_embed_lsb (mem : Z) (im : image) (message : pystr)
    (key : option pystr) (wrapped : pystr) (payload : pybytes) :
  wf_image im ->
  _apply_key_wrap message key = Ok wrapped ->
  utf8_encode wrapped = Ok payload ->
  Z.of_nat (length payload) < 2 ^ 32 ->
  (32 + 8 * length payload <= size im)%nat ->
  exists stego,
    embed_message im message key = Ok stego
    /\ forall key', extract_message mem stego key' = _remove_key_wrap wrapped key'.
Proof.
  intros Hwf Hw He Hlen Hfit.
  pose proof (utf8_encode_bytes wrapped payload He) as Hbytes.
  pose proof (frame_length payload Hbytes Hlen) as Hfl.
  assert (Hne : image_size im <> 0%nat) by (rewrite image_size_size; lia).
  assert (Hcap : (length (frame payload) <= total_capacity (rows im) (cols im))%nat)
    by (unfold total_capacity, size in *; lia).
  destruct (hybrid_embed_ok im (frame payload) Hwf Hcap) as (stego & Hrun & Hst).
  exists stego. split.
  { rewrite (embed_message_within im message key wrapped payload Hne Hw He Hcap).
    exact Hrun. }
  intros key'.
  pose proof Hst as (Hr & Hc & Hwfo & _).
  assert (Hsz : size stego = size im) by (unfold size; congruence).
  destruct (extract_message_reads mem stego key' Hwfo ltac:(lia)) as (_ & _ & _ & ->).
  assert (Hhdr : hybrid_extract stego 32
                 = _len_prefix_bits (Z.of_nat (length payload))).
  { change 32 with (Z.of_nat 32).
    rewrite (hybrid_extract_stego_blue im stego (frame payload) 32 Hwf Hst) by lia.
    unfold frame. apply take_app_length'. unfold _len_prefix_bits.
    symmetry. apply format_0b_length; lia. }
  assert (Hint : int_of_bits (_len_prefix_bits (Z.of_nat (length payload)))
                 = Z.of_nat (length payload))
    by (unfold _len_prefix_bits; apply format_0b_value; lia).
  assert (Htot : 32 + Z.of_nat (length payload) * 8
                 = Z.of_nat (length (frame payload))) by lia.
  assert (Hav : hybrid_extract stego (Z.of_nat (length (frame payload)))
                = frame payload).
  { rewrite (hybrid_extract_stego_blue im stego (frame payload) _ Hwf Hst) by lia.
    apply take_ge. lia. }
  rewrite Hhdr, Hint, Htot, Hav, Nat2Z.id, Nat.sub_diag.
  cbn [Nat.ltb Nat.leb andb replicate].
  rewrite app_nil_r. unfold frame.
  rewrite drop_app_length'
    by (unfold _len_prefix_bits; symmetry; apply format_0b_length; lia).
  rewrite (bits_to_text_of_encoded wrapped payload He). reflexivity.
Qed.

(** X15: when the framed stream fits in the blue plane (32 + 8 bits a payload
    byte is at most [h*w]), [embed_message] succeeds and the stego image
    holds the wrapped message exactly: [extract_message] with any key is
    [_remove_key_wrap] of the wrapped message under that key, hence the
    message with the embedding key, and the wrapped message itself, digest
    affixes and message in clear, with no key. *)
Theorem embed_extract_in_blue_plane (mem : Z) (im : image) (message : pystr)
    (key : option pystr) (wrapped : pystr) (payload : pybytes) :
  wf_image im ->
  _apply_key_wrap message key = Ok wrapped ->
  utf8_encode wrapped = Ok payload ->
  Z.of_nat (length payload) < 2 ^ 32 ->
  (32 + 8 * length payload <= rows im * cols im)%nat ->
  exists stego,
    embed_message im message key = Ok stego
    /\ extract_message mem stego key = Ok message
    /\ extract_message mem stego None = Ok wrapped
    /\ (forall key', extract_message mem stego key' = _remove_key_wrap wrapped key').
Proof.
  intros Hwf Hw He Hlen Hfit.
  destruct (extract_after_embed_lsb mem im message key wrapped payload Hwf Hw He Hlen Hfit)
    as (stego & Hrun & Hext).
  exists stego. split; [exact Hrun|]. split; [|split; [|exact Hext]].
  - rewrite Hext. apply apply_then_remove_key_wrap, Hw.
  - rewrite Hext. reflexivity.
Qed.

Lemma embed_extract_in_blue_plane_witness :
  exists stego,
    embed_message (mk_array 20 20 (replicate 400 (7, 8, 9))) (str "hi")
      (Some (str "abc")) = Ok stego
    /\ extract_message 0 stego (Some (str "abc")) = Ok (str "hi")
    /\ extract_message 0 stego None
       = Ok (str "ba7816bf8f01cfeahib410ff61f20015ad").
Proof.
  assert (Hwf : wf_image (mk_array 20 20 (replicate 400 (7, 8, 9)))).
  { split; [apply length_replicate|]. apply Forall_replicate. cbn. unfold is_uint8. lia. }
  destruct (embed_extract_in_blue_plane 0 _ (str "hi") (Some (str "abc"))
              (str "ba7816bf8f01cfeahib410ff61f20015ad")
              (str "ba7816bf8f01cfeahib410ff61f20015ad") Hwf)
    as (stego & Hrun & Hsame & Hnone & _);
    [vm_compute; reflexivity|reflexivity|cbn; lia|cbn; lia|].
  exists stego. repeat split; assumption.
Defined.

(** X16: extraction with another key does not raise: when a message wrapped
    under [key1] fits in the blue plane (288 bits plus 8 a message byte) and
    the digest of [key2] differs from the digest of [key1] in its first or
    its last 16 characters, [extract_message] with [key2] returns the string
    ["Invalid Key!"] as its result. *)
Theorem extract_with_other_key (mem : Z) (im : image)
    (message key1 kb1 key2 kb2 : pystr) (mb : pybytes) :
  wf_image im ->
  key1 <> [] -> utf8_encode key1 = Ok kb1 ->
  key2 <> [] -> utf8_encode key2 = Ok kb2 ->
  utf8_encode message = Ok mb ->
  Z.of_nat (length mb) + 32 < 2 ^ 32 ->
  (288 + 8 * length mb <= rows im * cols im)%nat ->
  take 16 (Sha256.hexdigest kb1) <> take 16 (Sha256.hexdigest kb2)
  \/ drop 48 (Sha256.hexdigest kb1) <> drop 48 (Sha256.hexdigest kb2) ->
  exists stego,
    embed_message im message (Some key1) = Ok stego
    /\ extract_message mem stego (Some key2) = Ok invalid_key.
Proof.
  intros Hwf Hne1 Hk1 Hne2 Hk2 Hm Hlen Hfit Hdiff.
  destruct (keyed_payload message key1 kb1 mb Hne1 Hk1 Hm) as (Hw & He & Hp & Hs).
  destruct (extract_after_embed_lsb mem im message (Some key1) _ _ Hwf Hw He)
    as (stego & Hrun & Hext).
  - rewrite !length_app, Hp, Hs. lia.
  - rewrite !length_app, Hp, Hs. unfold size. lia.
  - exists stego. split; [exact Hrun|]. rewrite Hext.
    apply (remove_key_wrap_mismatch message key1 kb1 key2 kb2); assumption.
Qed.

Lemma extract_with_other_key_witness :
  exists stego,
    embed_message (mk_array 20 20 (replicate 400 (7, 8, 9))) (str "hi")
      (Some (str "abc")) = Ok stego
    /\ extract_message 0 stego (Some (str "xyz")) = Ok (str "Invalid Key!").
Proof.
  assert (Hwf : wf_image (mk_array 20 20 (replicate 400 (7, 8, 9)))).
  { split; [apply length_replicate|]. apply Forall_replicate. cbn. unfold is_uint8. lia. }
  apply (extract_with_other_key 0 _ (str "hi") (str "abc") (str "abc")
           (str "xyz") (str "xyz") (str "hi") Hwf
           ltac:(discriminate) eq_refl ltac:(discriminate) eq_refl eq_refl
           ltac:(cbn; lia) ltac:(cbn; lia)).
  left. vm_compute. discriminate.
Defined.

(** X17: after every successful [embed_message] on an image of at least 32
    pixels (payload below 2^32 bytes), also when part of the stream went to
    the green blocks: the header read back is the payload length, the stego
    image holds all the declared bits so that nothing is padded, the bits
    that went to the blue plane are read back exactly, and [extract_message]
    with the embedding key returns a string, never an error. *)
Theorem extract_after_embed_with_overflow (mem : Z) (im : image)
    (message : pystr) (key : option pystr) (wrapped : pystr) (payload : pybytes) :
  wf_image im ->
  (32 <= rows im * cols im)%nat ->
  _apply_key_wrap message key = Ok wrapped ->
  utf8_encode wrapped = Ok payload ->
  Z.of_nat (length payload) < 2 ^ 32 ->
  (32 + 8 * length payload <= rows im * cols im + rows im / 8 * (cols im / 8))%nat ->
  exists stego,
    embed_message im message key = Ok stego
    /\ int_of_bits (hybrid_extract stego 32) = Z.of_nat (length payload)
    /\ length (hybrid_extract stego (32 + Z.of_nat (length payload) * 8))
       = (32 + 8 * length payload)%nat
    /\ take (rows im * cols im)
         (hybrid_extract stego (32 + Z.of_nat (length payload) * 8))
       = take (rows im * cols im) (frame payload)
    /\ extract_message mem stego key
       = _remove_key_wrap
           (bits_to_text
              (drop 32 (hybrid_extract stego (32 + Z.of_nat (length payload) * 8))))
           key
    /\ exists s, extract_message mem stego key = Ok s.
Proof.
  intros Hwf H32 Hw He Hlen Hfit.
  pose proof (utf8_encode_bytes wrapped payload He) as Hbytes.
  pose proof (frame_length payload Hbytes Hlen) as Hfl.
  assert (Hne : image_size im <> 0%nat) by (rewrite image_size_size; unfold size; lia).
  assert (Hcap : (length (frame payload) <= total_capacity (rows im) (cols im))%nat)
    by (unfold total_capacity; lia).
  destruct (hybrid_embed_ok im (frame payload) Hwf Hcap) as (stego & Hrun & Hst).
  exists stego. split.
  { rewrite (embed_message_within im message key wrapped payload Hne Hw He Hcap).
    exact Hrun. }
  pose proof Hst as (Hr & Hc & Hwfo & _).
  assert (Hsz : size stego = size im) by (unfold size; congruence).
  assert (Hhdr : hybrid_extract stego 32
                 = _len_prefix_bits (Z.of_nat (length payload))).
  { change 32 with (Z.of_nat 32).
    rewrite (hybrid_extract_stego_blue im stego (frame payload) 32 Hwf Hst)
      by (unfold size; lia).
    unfold frame. apply take_app_length'. unfold _len_prefix_bits.
    symmetry. apply format_0b_length; lia. }
  assert (Hint : int_of_bits (hybrid_extract stego 32) = Z.of_nat (length payload))
    by (rewrite Hhdr; unfold _len_prefix_bits; apply format_0b_value; lia).
  assert (Htot : 32 + Z.of_nat (length payload) * 8
                 = Z.of_nat (32 + 8 * length payload)) by lia.
  assert (Hcb : length (carrier_bits stego) = total_capacity (rows im) (cols im))
    by (rewrite carrier_bits_length by exact Hwfo; congruence).
  assert (Hal : length (hybrid_extract stego (32 + Z.of_nat (length payload) * 8))
                = (32 + 8 * length payload)%nat).
  { rewrite Htot, hybrid_extract_formula by exact Hwfo.
    rewrite length_take, Nat2Z.id, Hcb. unfold total_capacity. lia. }
  split; [exact Hint|]. split; [exact Hal|]. split.
  { set (m := Nat.min (rows im * cols im) (32 + 8 * length payload)).
    transitivity (hybrid_extract stego (Z.of_nat m)).
    - rewrite Htot, !hybrid_extract_formula by exact Hwfo.
      rewrite !Nat2Z.id, take_take. reflexivity.
    - rewrite (hybrid_extract_stego_blue im stego (frame payload) m Hwf Hst)
        by (unfold size, m; lia).
      unfold m. rewrite <- take_take. f_equal. apply take_ge. lia. }
  destruct (extract_message_reads mem stego key Hwfo ltac:(unfold size in *; lia))
    as (_ & _ & _ & Hext).
  rewrite Hint in Hext. rewrite Hal in Hext.
  replace (Z.to_nat (32 + Z.of_nat (length payload) * 8) - (32 + 8 * length payload))%nat
    with 0%nat in Hext by lia.
  cbn [Nat.ltb Nat.leb andb replicate] in Hext. rewrite app_nil_r in Hext.
  split; [exact Hext|]. rewrite Hext.
  apply remove_key_wrap_total. eapply apply_key_wrap_encodable, Hw.
Qed.

Lemma extract_after_embed_with_overflow_witness :
  exists stego,
    embed_message (mk_array 9 15 (replicate 135 (0, 0, 0)))
      (str "aaaaaaaaaaaaa") None = Ok stego
    /\ int_of_bits (hybrid_extract stego 32) = 13
    /\ exists s, extract_message 0 stego None = Ok s.
Proof.
  assert (Hwf : wf_image (mk_array 9 15 (replicate 135 (0, 0, 0)))).
  { split; [apply length_replicate|]. apply Forall_replicate. cbn. unfold is_uint8. lia. }
  destruct (extract_after_embed_with_overflow 0 _ (str "aaaaaaaaaaaaa") None
              (str "aaaaaaaaaaaaa") (str "aaaaaaaaaaaaa") Hwf)
    as (stego & Hrun & Hh & _ & _ & _ & Hs);
    [cbn; lia|reflexivity|reflexivity|cbn; lia|cbn; lia|].
  exists stego. split; [exact Hrun|]. split; [exact Hh|exact Hs].
Defined.

(** ** Writing the blue plane twice *)

Lemma lsb_embed_loop_app (b1 b2 : list bool) (idx : nat) (flat : list Z) :
  lsb_embed_loop (b1 ++ b2) idx flat
  = try! f := lsb_embed_loop b1 idx flat in
    lsb_embed_loop b2 (idx + length b1) f.
Proof.
  revert idx flat. induction b1 as [|b b1 IH]; intros idx flat.
  - cbn [app lsb_embed_loop bind length]. rewrite Nat.add_0_r. reflexivity.
  - cbn [app lsb_embed_loop length]. destruct (flat !! idx) as [v|]; [|reflexivity].
    rewrite IH. replace (S idx + length b1)%nat with (idx + S (length b1))%nat by lia.
    reflexivity.
Qed.

Lemma set_lsb_set_lsb (v : Z) (b' b : bool) :
  set_lsb (set_lsb v b') b = set_lsb v b.
Proof.
  unfold set_lsb. f_equal.
  rewrite Z.land_lor_distr_l, <- Z.land_assoc.
  change (Z.land 254 254) with 254.
  destruct b'; cbn [Z.b2z]; [change (Z.land (Z.land 1 1) 254) with 0
                            |change (Z.land (Z.land 0 1) 254) with 0];
    apply Z.lor_0_r.
Qed.

Lemma lsb_embed_inv (c c1 : channel) (bits : list bool) (start : nat) :
  length (data c) = size c ->
  lsb_embed c bits start = Ok c1 ->
  (start + length bits <= size c)%nat
  /\ rows c1 = rows c /\ cols c1 = cols c
  /\ length (data c1) = length (data c)
  /\ (forall i b, bits !! i = Some b ->
        data c1 !! (start + i)%nat
        = (fun v => set_lsb v b) <$> data c !! (start + i)%nat)
  /\ (forall j, (j < start \/ start + length bits <= j)%nat ->
        data c1 !! j = data c !! j).
Proof.
  intros Hlen Hrun.
  destruct (Nat.lt_ge_cases (size c) (start + length bits)) as [Hbig|Hfit].
  { rewrite lsb_embed_too_small in Hrun by exact Hbig. discriminate. }
  destruct (lsb_embed_spec c bits start Hlen Hfit) as (flat' & Hr & Hl & Hin & Hout).
  rewrite Hr in Hrun. injection Hrun as <-. cbn [rows cols data].
  repeat split; assumption.
Qed.

(** X18: two calls of [lsb_embed] on adjacent ranges equal one call on the
    concatenated bits: writing [bits1] at [start] and then [bits2] at
    [start + len(bits1)] into the result gives what writing
    [bits1 + bits2] at [start] gives, the capacity error included. *)
Theorem lsb_embed_sequential (c : channel) (bits1 bits2 : list bool) (start : nat) :
  length (data c) = size c ->
  (try! c1 := lsb_embed c bits1 start in
   lsb_embed c1 bits2 (start + length bits1))
  = lsb_embed c (bits1 ++ bits2) start.
Proof.
  intros Hlen. unfold lsb_embed at 1 3. rewrite length_app.
  destruct (Nat.ltb_spec (size c) (start + length bits1)) as [Hbig|Hfit].
  { destruct (Nat.ltb_spec (size c) (start + (length bits1 + length bits2)));
      [reflexivity|lia]. }
  destruct (lsb_embed_loop_spec bits1 start (data c) ltac:(lia)) as (f1 & Hf1 & Hl1 & _).
  rewrite lsb_embed_loop_app, Hf1. cbn [bind].
  unfold lsb_embed, size. cbn [rows cols data].
  replace (start + length bits1 + length bits2)%nat
    with (start + (length bits1 + length bits2))%nat by lia.
  reflexivity.
Qed.

Lemma lsb_embed_sequential_witness :
  (try! c1 := lsb_embed (mk_array 2 3 [10; 11; 12; 13; 14; 15]) [true; true] 1 in
   lsb_embed c1 [false; true] 3)
  = Ok (mk_array 2 3 [10; 11; 13; 12; 15; 15]).
Proof.
  etransitivity;
    [exact (lsb_embed_sequential (mk_array 2 3 [10; 11; 12; 13; 14; 15])
              [true; true] [false; true] 1 eq_refl)
    |reflexivity].
Defined.

(** X19: [lsb_embed] leaves no trace of what the LSBs held before: after a
    successful write of [bits1] at [start], writing as many bits [bits2] at
    the same place gives exactly what writing [bits2] into the original
    channel gives; in particular writing [bits1] again changes nothing. *)
Theorem lsb_embed_overwrites (c c1 : channel) (bits1 bits2 : list bool)
    (start : nat) :
  length (data c) = size c ->
  lsb_embed c bits1 start = Ok c1 ->
  length bits2 = length bits1 ->
  lsb_embed c1 bits2 start = lsb_embed c bits2 start
  /\ lsb_embed c1 bits1 start = Ok c1.
Proof.
  intros Hlen Hrun Hsame.
  destruct (lsb_embed_inv c c1 bits1 start Hlen Hrun)
    as (Hfit & Hr & Hc & Hl & Hin & Hout).
  assert (Hlen1 : length (data c1) = size c1) by (unfold size in *; congruence).
  assert (Hsz : size c1 = size c) by (unfold size; congruence).
  assert (Hgen : forall bits, length bits = length bits1 ->
                   lsb_embed c1 bits start = lsb_embed c bits start).
  { intros bits Hb.
    destruct (lsb_embed_spec c bits start Hlen ltac:(lia)) as (f & -> & Hfl & Hfin & Hfout).
    destruct (lsb_embed_spec c1 bits start Hlen1 ltac:(lia))
      as (f' & -> & Hfl' & Hfin' & Hfout').
    rewrite Hr, Hc. do 2 f_equal. apply list_eq. intros j.
    destruct (decide (start <= j < start + length bits)%nat) as [Hj|Hj].
    - replace j with (start + (j - start))%nat by lia.
      destruct (lookup_lt_is_Some_2 bits (j - start) ltac:(lia)) as [b Hbj].
      destruct (lookup_lt_is_Some_2 bits1 (j - start) ltac:(lia)) as [b' Hbj'].
      rewrite (Hfin' _ _ Hbj), (Hfin _ _ Hbj), (Hin _ _ Hbj').
      destruct (data c !! (start + (j - start))%nat) as [v|]; [|reflexivity].
      cbn. f_equal. apply set_lsb_set_lsb.
    - rewrite Hfout', Hfout, Hout by lia. reflexivity. }
  split; [apply Hgen, Hsame|]. rewrite Hgen by reflexivity. exact Hrun.
Qed.

Lemma lsb_embed_overwrites_witness :
  lsb_embed (mk_array 2 2 [5; 7; 6; 8]) [false; true] 1
  = lsb_embed (mk_array 2 2 [5; 6; 7; 8]) [false; true] 1
  /\ lsb_embed (mk_array 2 2 [5; 7; 6; 8]) [true; false] 1
     = Ok (mk_array 2 2 [5; 7; 6; 8]).
Proof.
  apply (lsb_embed_overwrites (mk_array 2 2 [5; 6; 7; 8]) (mk_array 2 2 [5; 7; 6; 8])
           [true; false] [false; true] 1); reflexivity.
Defined.

(** ** Images too small for a header *)

(** X20: an image whose capacity [h*w + (h//8)*(w//8)] is below 32 bits
    never takes a message: the framed stream has at least its 32 header
    bits, so [embed_message] raises for every message and every key. *)
Theorem embed_message_needs_32_bits (im : image) (message : pystr)
    (key : option pystr) :
  (rows im * cols im + rows im / 8 * (cols im / 8) < 32)%nat ->
  exists e, embed_message im message key = Raise e.
Proof.
  intros Hsmall.
  destruct (embed_message im message key) as [out|e] eqn:Hrun; [|exists e; reflexivity].
  exfalso.
  destruct (embed_message_inv im message key out Hrun)
    as (wrapped & payload & _ & _ & _ & Hcap & _).
  pose proof (frame_min_length payload). unfold total_capacity in Hcap. lia.
Qed.

Lemma embed_message_needs_32_bits_witness :
  exists e,
    embed_message (mk_array 5 6 (replicate 30 (1, 2, 3))) [] None = Raise e.
Proof.
  apply (embed_message_needs_32_bits (mk_array 5 6 (replicate 30 (1, 2, 3))) [] None).
  cbn. lia.
Defined.

(** ** What the embedders do to the arrays they are given *)

Lemma simulates_run {A : Type} (inj : A -> Mem.obj) (m : Mem.M nat)
    (r : result A) (s : list Mem.obj) (k : nat) (o : Mem.obj) :
  simulates inj m r s ->
  s !! k = Some o ->
  exists res s',
    m s = (res, s')
    /\ s `prefix_of` s'
    /\ s' !! k = Some o
    /\ match res with
       | Ok l => (length s <= l)%nat /\ l <> k
                 /\ exists a, r = Ok a /\ s' !! l = Some (inj a)
       | Raise e => r = Raise e
       end.
Proof.
  intros (s' & Hp & Hr) Hk.
  assert (Hk' : s' !! k = Some o).
  { destruct Hp as [t ->]. apply lookup_app_l_Some, Hk. }
  pose proof (lookup_lt_Some _ _ _ Hk) as Hlt.
  destruct r as [a|e].
  - destruct Hr as (l & Hm & Hl & Hfresh).
    exists (Ok l), s'. split; [exact Hm|]. split; [exact Hp|]. split; [exact Hk'|].
    split; [exact Hfresh|]. split; [lia|]. exists a. split; [reflexivity|exact Hl].
  - exists (Raise e), s'. repeat split; assumption.
Qed.

(** X21: [lsb_embed] and [dct_embed] work on a copy ([flatten],
    [astype(np.float32).copy()]): run on a store, whatever they return or
    raise, every array the store held, the argument among them, is as it
    was; on success the result is a new array, distinct from the argument,
    that holds the value the function computes, and an error is the error
    of the value-level function. *)
Theorem channel_embedders_leave_argument (s : list Mem.obj) (cl : nat)
    (c : channel) (bits : list bool) (start bs sb : nat) :
  s !! cl = Some (Mem.U8 c) ->
  (exists res s',
     Mem.lsb_embed cl bits start s = (res, s')
     /\ s `prefix_of` s'
     /\ s' !! cl = Some (Mem.U8 c)
     /\ match res with
        | Ok l => (length s <= l)%nat /\ l <> cl
                  /\ exists c', lsb_embed c bits start = Ok c'
                                /\ s' !! l = Some (Mem.U8 c')
        | Raise e => lsb_embed c bits start = Raise e
        end)
  /\ (exists res s',
        Mem.dct_embed cl bits bs sb s = (res, s')
        /\ s `prefix_of` s'
        /\ s' !! cl = Some (Mem.U8 c)
        /\ match res with
           | Ok l => (length s <= l)%nat /\ l <> cl
                     /\ exists g', dct_embed c bits bs sb = Ok g'
                                   /\ s' !! l = Some (Mem.U8 g')
           | Raise e => dct_embed c bits bs sb = Raise e
           end).
Proof.
  intros Hcl. split.
  - exact (simulates_run Mem.U8 _ _ s cl _ (mem_lsb_embed s cl c bits start Hcl) Hcl).
  - exact (simulates_run Mem.U8 _ _ s cl _ (mem_dct_embed s cl c bits bs sb Hcl) Hcl).
Qed.

Lemma channel_embedders_leave_argument_witness :
  exists res s',
    Mem.lsb_embed 0 [true; false] 1 [Mem.U8 (mk_array 1 3 [4; 4; 5])] = (res, s')
    /\ s' !! 0%nat = Some (Mem.U8 (mk_array 1 3 [4; 4; 5]))
    /\ res = Ok 3%nat
    /\ s' !! 3%nat = Some (Mem.U8 (mk_array 1 3 [4; 5; 4])).
Proof.
  destruct (channel_embedders_leave_argument [Mem.U8 (mk_array 1 3 [4; 4; 5])] 0
              (mk_array 1 3 [4; 4; 5]) [true; false] 1 8 0 eq_refl)
    as [(res & s' & Hrun & _ & Hkeep & _) _].
  exists res, s'. split; [exact Hrun|]. split; [exact Hkeep|].
  vm_compute in Hrun. injection Hrun as <- <-. split; reflexivity.
Defined.

(** X22: [hybrid_embed] never writes into the image it is given: run on a
    store, in every outcome, the capacity error included, the objects the
    store held are as they were; on success the result is a new image
    holding what the value-level function computes. *)
Theorem hybrid_embed_leaves_argument (s : list Mem.obj) (il : nat) (im : image)
    (bits : list bool) :
  s !! il = Some (Mem.Img im) ->
  exists res s',
    Mem.hybrid_embed il bits s = (res, s')
    /\ s `prefix_of` s'
    /\ s' !! il = Some (Mem.Img im)
    /\ match res with
       | Ok l => (length s <= l)%nat /\ l <> il
                 /\ exists out, hybrid_embed im bits = Ok out
                                /\ s' !! l = Some (Mem.Img out)
       | Raise e => hybrid_embed im bits = Raise e
       end.
Proof.
  intros Hil.
  exact (simulates_run Mem.Img _ _ s il _ (mem_hybrid_embed s il im bits Hil) Hil).
Qed.

Lemma hybrid_embed_leaves_argument_witness :
  exists res s',
    Mem.hybrid_embed 0 [true; true; true]
      [Mem.Img (mk_array 1 2 [(2, 3, 4); (6, 7, 8)])] = (res, s')
    /\ s' !! 0%nat = Some (Mem.Img (mk_array 1 2 [(2, 3, 4); (6, 7, 8)]))
    /\ hybrid_embed (mk_array 1 2 [(2, 3, 4); (6, 7, 8)]) [true; true; true]
       = Raise (ValueError
                  (payload_too_large 3 2)).
Proof.
  destruct (hybrid_embed_leaves_argument [Mem.Img (mk_array 1 2 [(2, 3, 4); (6, 7, 8)])]
              0 (mk_array 1 2 [(2, 3, 4); (6, 7, 8)]) [true; true; true] eq_refl)
    as (res & s' & Hrun & _ & Hkeep & _).
  exists res, s'. split; [exact Hrun|]. split; [exact Hkeep|]. reflexivity.
Defined.

(** ** Zero padding *)

Lemma text_to_bits_app (a b : pybytes) :
  text_to_bits (a ++ b) = text_to_bits a ++ text_to_bits b.
Proof. unfold text_to_bits. apply flat_map_app. Qed.

Lemma text_to_bits_zeros (k : nat) :
  text_to_bits (replicate k 0) = replicate (8 * k) false.
Proof.
  induction k as [|k IH]; [reflexivity|].
  replace (8 * S k)%nat with (8 + 8 * k)%nat by lia.
  rewrite replicate_add. cbn [replicate]. unfold text_to_bits in *.
  cbn [flat_map]. rewrite IH. reflexivity.
Qed.

(** X23: zero bits decode to NUL characters: the bits of an encoded string
    followed by [8*k] zero bits, which is what [extract_message] reads when
    it completes a short stream with zeros, decode to the string followed by
    [k] characters of code 0. *)
Theorem zero_padding_decodes_to_nul (s : pystr) (bs : pybytes) (k : nat) :
  utf8_encode s = Ok bs ->
  bits_to_text (text_to_bits bs ++ replicate (8 * k) false)
  = s ++ replicate k 0.
Proof.
  intros He. rewrite <- text_to_bits_zeros, <- text_to_bits_app.
  apply bits_to_text_of_encoded.
  rewrite utf8_encode_app, He. cbn [bind].
  rewrite (utf8_encode_ascii (replicate k 0)) by (apply Forall_replicate; lia).
  reflexivity.
Qed.

Lemma zero_padding_decodes_to_nul_witness :
  bits_to_text (text_to_bits [195; 169] ++ replicate 16 false) = [233; 0; 0].
Proof.
  apply (zero_padding_decodes_to_nul [233] [195; 169] 2 eq_refl).
Defined.

(** ** A zero header *)

Lemma map_const_replicate {A B : Type} (f : A -> B) (c : B) (l : list A) :
  Forall (fun v => f v = c) l -> map f l = replicate (length l) c.
Proof.
  induction 1 as [|v l Hv _ IH]; [reflexivity|]. cbn. rewrite Hv, IH. reflexivity.
Qed.

(** X24: an image whose first 32 blue samples are even declares an empty
    payload: [extract_message] returns the empty string when no key is
    given, and ["Invalid Key!"] for every non-empty key, since the empty
    payload does not start with the digest prefix. *)
Theorem extract_message_zero_header (mem : Z) (im : image) (key kb : pystr) :
  wf_image im ->
  (32 <= rows im * cols im)%nat ->
  Forall (fun v => get_lsb v = false) (take 32 (data (blue im))) ->
  key <> [] ->
  utf8_encode key = Ok kb ->
  extract_message mem im None = Ok []
  /\ extract_message mem im (Some []) = Ok []
  /\ extract_message mem im (Some key) = Ok invalid_key.
Proof.
  intros Hwf Hsz Heven Hne Hk.
  assert (Hb : length (data (blue im)) = size im)
    by (destruct Hwf as [<- _]; apply plane_shapes).
  assert (Hh : hybrid_extract im 32 = replicate 32 false).
  { rewrite hybrid_extract_fits by (try exact Hwf; unfold size; lia).
    change (Z.to_nat 32) with 32%nat.
    rewrite (map_const_replicate get_lsb false _ Heven), length_take.
    f_equal. unfold size in Hb. lia. }
  assert (Hread : forall k, extract_message mem im k = _remove_key_wrap [] k).
  { intros k.
    destruct (extract_message_reads mem im k Hwf ltac:(unfold size; lia)) as (_ & _ & _ & ->).
    rewrite Hh, int_of_bits_zeros. change (32 + 0 * 8) with 32. rewrite Hh.
    reflexivity. }
  rewrite !Hread. split; [reflexivity|]. split; [reflexivity|].
  pose proof (remove_key_wrap_eq key kb Hne Hk []) as Hr. cbv zeta in Hr.
  rewrite Hr. destruct (key_affix_lengths kb) as [Hp _].
  destruct (take 16 (Sha256.hexdigest kb)) as [|c p]; [discriminate Hp|].
  reflexivity.
Qed.

Lemma extract_message_zero_header_witness :
  extract_message 0 (mk_array 4 8 (replicate 32 (2, 255, 255))) None = Ok []
  /\ extract_message 0 (mk_array 4 8 (replicate 32 (2, 255, 255))) (Some (str "abc"))
     = Ok (str "Invalid Key!").
Proof.
  assert (Hwf : wf_image (mk_array 4 8 (replicate 32 (2, 255, 255)))).
  { split; [apply length_replicate|]. apply Forall_replicate. cbn. unfold is_uint8. lia. }
  destruct (extract_message_zero_header 0 (mk_array 4 8 (replicate 32 (2, 255, 255)))
              (str "abc") (str "abc") Hwf)
    as (Hnone & _ & Hkey);
    [cbn; lia|repeat constructor|discriminate|reflexivity|].
  split; assumption.
Defined.

(** ** A header that declares more than the memory holds *)


